(** * Dataset diff, index writing, diff pruning and merge resolution

    A shallow embedding of

    - [sno/structure.py]: [DatasetStructure.diff] and
      [DatasetStructure.write_index];
    - [kart/diff.py]: [get_dataset_diff] and [get_repo_diff];
    - the merge-resolution operations the specification describes
      ([MergedIndex], [resolve], finalization), which are exercised by
      [tests/test_resolve.py].

    Python dictionaries that are iterated (and whose iteration order is
    therefore observable) are insertion-ordered association lists;
    dictionaries that are only compared and indexed (features, the git index)
    are [gmap]s.  Code that can raise returns a [result]. *)

From Stdlib Require Import ZArith Lia DecimalString Ascii String List.
From stdpp Require Import gmap strings list fin_maps.

Import ListNotations.
Local Open Scope string_scope.
Local Open Scope list_scope.

(** ** Python values and exceptions *)

Module Py.

(** Exit codes of [sno/exceptions.py] and [kart/exceptions.py] that the
    embedded code and tests mention. *)
Inductive exit_code := PATCH_DOES_NOT_APPLY | NO_COMMIT | INVALID_OPERATION.

(** libgit2 delta statuses ([pygit2.GIT_DELTA_*]). *)
Inductive delta_status :=
| GIT_DELTA_UNMODIFIED | GIT_DELTA_ADDED | GIT_DELTA_DELETED
| GIT_DELTA_MODIFIED | GIT_DELTA_RENAMED | GIT_DELTA_COPIED
| GIT_DELTA_IGNORED | GIT_DELTA_UNTRACKED | GIT_DELTA_TYPECHANGE
| GIT_DELTA_UNREADABLE | GIT_DELTA_CONFLICTED.

Inductive exn :=
| KeyError (key : string)
| IndexError
| AttributeError
| NotImplementedError (status : delta_status)
| NotYetImplemented
| InvalidOperation (code : exit_code).

Inductive result (A : Type) :=
| Ok (a : A)
| Raise (e : exn).
Arguments Ok {A} a.
Arguments Raise {A} e.

Definition bind {A B} (m : result A) (k : A -> result B) : result B :=
  match m with
  | Ok a => k a
  | Raise e => Raise e
  end.

#[global] Instance result_bind : MBind result := fun A B k m => bind m k.
#[global] Instance result_ret : MRet result := @Ok.

Definition raises {A} (m : result A) : Prop := exists e, m = Raise e.

(** A Python value as it occurs in a feature: [None], an [int], a [str] or
    [bytes] (geometries). *)
Inductive pyval :=
| PyNone
| PyInt (z : Z)
| PyStr (s : string)
| PyBytes (b : string).

#[global] Instance exit_code_eq_dec : EqDecision exit_code.
Proof. solve_decision. Defined.
#[global] Instance delta_status_eq_dec : EqDecision delta_status.
Proof. solve_decision. Defined.
#[global] Instance exn_eq_dec : EqDecision exn.
Proof. solve_decision. Defined.
#[global] Instance pyval_eq_dec : EqDecision pyval.
Proof. solve_decision. Defined.

(** [repr] of a [bytes] object, which is also its [str]. *)
Definition hexdigit (n : N) : ascii :=
  match n with
  | 0 => "0" | 1 => "1" | 2 => "2" | 3 => "3" | 4 => "4" | 5 => "5"
  | 6 => "6" | 7 => "7" | 8 => "8" | 9 => "9" | 10 => "a" | 11 => "b"
  | 12 => "c" | 13 => "d" | 14 => "e" | _ => "f"
  end%N%char.

Fixpoint string_mem (c : ascii) (s : string) : bool :=
  match s with
  | EmptyString => false
  | String c' s' => if Ascii.eqb c c' then true else string_mem c s'
  end.

Definition bytes_repr_char (quote c : ascii) : string :=
  let n := N_of_ascii c in
  if Ascii.eqb c quote || Ascii.eqb c "\"%char then String "\"%char (String c EmptyString)
  else if (n =? 9)%N then "\t"
  else if (n =? 10)%N then "\n"
  else if (n =? 13)%N then "\r"
  else if (n <? 32)%N || (127 <=? n)%N
       then String "\"%char (String "x"%char
              (String (hexdigit (n / 16)) (String (hexdigit (n mod 16)) EmptyString)))
  else String c EmptyString.

Fixpoint bytes_repr_body (quote : ascii) (b : string) : string :=
  match b with
  | EmptyString => EmptyString
  | String c b' => String.append (bytes_repr_char quote c) (bytes_repr_body quote b')
  end.

Definition double_quote : ascii := ascii_of_N 34.

Definition bytes_repr (b : string) : string :=
  let quote := if string_mem "'"%char b && negb (string_mem double_quote b)
               then double_quote else "'"%char in
  String "b"%char (String quote
    (String.append (bytes_repr_body quote b) (String quote EmptyString))).

(** The builtin [str]. *)
Definition str (v : pyval) : string :=
  match v with
  | PyNone => "None"
  | PyInt z => NilZero.string_of_int (Z.to_int z)
  | PyStr s => s
  | PyBytes b => bytes_repr b
  end.

(** *** Insertion-ordered dictionaries with string keys *)

Definition dict (V : Type) := list (string * V).

Definition keys {V} (d : dict V) : list string := map fst d.
Definition values {V} (d : dict V) : list V := map snd d.

Fixpoint dict_get {V} (k : string) (d : dict V) : option V :=
  match d with
  | [] => None
  | (k', v) :: d' => if String.eqb k k' then Some v else dict_get k d'
  end.

Definition dict_mem {V} (k : string) (d : dict V) : bool :=
  match dict_get k d with Some _ => true | None => false end.

(** [d[k] = v]: an existing key keeps its position, a new key goes last. *)
Fixpoint dict_set {V} (k : string) (v : V) (d : dict V) : dict V :=
  match d with
  | [] => [(k, v)]
  | (k', v') :: d' =>
      if String.eqb k k' then (k', v) :: d' else (k', v') :: dict_set k v d'
  end.

(** [del d[k]] for a key that is present. *)
Fixpoint dict_del {V} (k : string) (d : dict V) : dict V :=
  match d with
  | [] => []
  | (k', v') :: d' =>
      if String.eqb k k' then d' else (k', v') :: dict_del k d'
  end.

(** [dict(pairs)]: later pairs win, keys keep their first position. *)
Definition dict_of_pairs {V} (l : list (string * V)) : dict V :=
  fold_left (fun d kv => dict_set (fst kv) (snd kv) d) l [].

(** [d[k]] on a [defaultdict(list)]: a missing key is created with [[]]. *)
Definition dd_getitem {V} (k : string) (d : dict (list V)) : list V * dict (list V) :=
  match dict_get k d with
  | Some l => (l, d)
  | None => ([], dict_set k [] d)
  end.

(** [d[k].append(x)] on a [defaultdict(list)]. *)
Definition dd_append {V} (k : string) (x : V) (d : dict (list V)) : dict (list V) :=
  let '(l, d') := dd_getitem k d in dict_set k (l ++ [x]) d'.

(** [l.pop(0)]. *)
Definition pop0 {V} (l : list V) : result (V * list V) :=
  match l with
  | [] => Raise IndexError
  | x :: l' => Ok (x, l')
  end.

End Py.

Import Py.

(** ** [sno/structure.py] *)

Module Structure.

(** A feature is a Python [dict] from column names to values. *)
Abbreviation Feature := (gmap string pyval).

(** [pygit2.DiffFile] and [pygit2.DiffDelta], as far as [diff] reads them. *)
Record DiffFile := { file_path : string }.

Record DiffDelta := {
  status : delta_status;
  old_file : option DiffFile;
  new_file : option DiffFile;
}.

(** The [Diff] that [DatasetStructure.diff] builds with
    [Diff(self, meta=.., inserts=.., deletes=.., updates=..)]; [write_index]
    reads the same four parts as ["META"], ["I"], ["D"] and ["U"]. *)
Record Diff := {
  meta : dict pyval;
  inserts : list Feature;
  deletes : dict Feature;
  updates : dict (Feature * Feature);
}.

(** [pygit2.IndexEntry(path, id, mode)]. *)
Inductive filemode := GIT_FILEMODE_BLOB.

Record IndexEntry := {
  entry_path : string;
  entry_id : string;
  entry_mode : filemode;
}.

(** The three local dictionaries of [diff]. *)
Record Candidates := {
  candidates_ins : dict (list Feature);
  candidates_upd : dict (Feature * Feature);
  candidates_del : dict (list (string * Feature));
}.

Definition no_candidates : Candidates :=
  {| candidates_ins := []; candidates_upd := []; candidates_del := [] |}.

(** [UNFILTERED] contains every key. *)
Definition UNFILTERED : string -> bool := fun _ => true.

Definition startswith (s prefix : string) : bool := String.prefix prefix s.

(** [f and f.path.startswith(".sno-table/meta/")]. *)
Definition file_under_meta (f : option DiffFile) : bool :=
  match f with
  | Some f => startswith (file_path f) ".sno-table/meta/"
  | None => false
  end.

(** [f.path], where [f] may be [None]. *)
Definition path_of (f : option DiffFile) : result string :=
  match f with
  | Some f => Ok (file_path f)
  | None => Raise AttributeError
  end.

(** [obj.method], where [obj] may be [None]. *)
Definition deref {A} (obj : option A) : result A :=
  match obj with
  | Some o => Ok o
  | None => Raise AttributeError
  end.

(** [d[k]] and [d.pop(k)] on a feature. *)
Definition getitem (f : Feature) (k : string) : result pyval :=
  match f !! k with
  | Some v => Ok v
  | None => Raise (KeyError k)
  end.

Definition pop (f : Feature) (k : string) : result (pyval * Feature) :=
  match f !! k with
  | Some v => Ok (v, delete k f)
  | None => Raise (KeyError k)
  end.

Section Dataset.

(** [pygit2.Tree] and its [diff_to_tree(tree=None, swap=False)] are external:
    the tree type is abstract and the primitive is a parameter. *)
Context {Tree : Type}.
Variable diff_to_tree : Tree -> option Tree -> bool -> list DiffDelta.

(** A [DatasetStructure] instance.  The path codec, [get_feature] and
    [encode_feature] are implemented by the versioned subclasses, which are
    not among the sources: they are fields here.  [get_feature] takes the
    keyword argument [ogr_geoms] when the caller passes it. *)
Record DatasetStructure := {
  tree : Tree;
  path : string;
  primary_key : string;
  geom_column_name : option string;
  decode_path_to_1pk : string -> pyval;
  encode_1pk_to_path : pyval -> string;
  encode_feature : Feature -> string * string;
  get_feature : pyval -> option bool -> Feature;
}.

(** *** [DatasetStructure.diff] *)

(** One iteration of [for d in diff_index.deltas]. *)
Definition diff_delta (old new other : option DatasetStructure)
    (pk_filter : string -> bool) (c : Candidates) (d : DiffDelta)
  : result Candidates :=
  if file_under_meta (old_file d) then Ok c
  else if file_under_meta (new_file d) then Ok c
  else match status d with
  | GIT_DELTA_DELETED =>
      old_ ← deref old;
      p ← path_of (old_file d);
      let old_pk := decode_path_to_1pk old_ p in
      if negb (pk_filter (str old_pk)) then Ok c
      else
        let old_feature := get_feature old_ old_pk (Some false) in
        Ok {| candidates_ins := candidates_ins c;
              candidates_upd := candidates_upd c;
              candidates_del :=
                dd_append (str old_pk) (str old_pk, old_feature) (candidates_del c) |}
  | GIT_DELTA_MODIFIED =>
      old_ ← deref old;
      p ← path_of (old_file d);
      let old_pk := decode_path_to_1pk old_ p in
      new_ ← deref new;
      q ← path_of (new_file d);
      let new_pk := decode_path_to_1pk new_ q in
      if negb (pk_filter (str old_pk)) && negb (pk_filter (str new_pk)) then Ok c
      else
        let old_feature := get_feature old_ old_pk (Some false) in
        other_ ← deref other;
        let new_feature := get_feature other_ new_pk (Some false) in
        Ok {| candidates_ins := candidates_ins c;
              candidates_upd :=
                dict_set (str old_pk) (old_feature, new_feature) (candidates_upd c);
              candidates_del := candidates_del c |}
  | GIT_DELTA_ADDED =>
      new_ ← deref new;
      q ← path_of (new_file d);
      let new_pk := decode_path_to_1pk new_ q in
      if negb (pk_filter (str new_pk)) then Ok c
      else
        let new_feature := get_feature new_ new_pk (Some false) in
        Ok {| candidates_ins := dd_append (str new_pk) new_feature (candidates_ins c);
              candidates_upd := candidates_upd c;
              candidates_del := candidates_del c |}
  | s => Raise (NotImplementedError s)
  end.

Fixpoint diff_deltas (old new other : option DatasetStructure)
    (pk_filter : string -> bool) (ds : list DiffDelta) (c : Candidates)
  : result Candidates :=
  match ds with
  | [] => Ok c
  | d :: ds' =>
      c' ← diff_delta old new other pk_filter c d;
      diff_deltas old new other pk_filter ds' c'
  end.

(** One iteration of [for h in list(candidates_del.keys())]. *)
Definition detect_rename (h : string) (c : Candidates) : result Candidates :=
  if dict_mem h (candidates_ins c) then
    let '(ld, del1) := dd_getitem h (candidates_del c) in
    '((track_pk, my_obj), ld') ← pop0 ld;
    let del2 := dict_set h ld' del1 in
    let '(li, ins1) := dd_getitem h (candidates_ins c) in
    '(other_obj, li') ← pop0 li;
    let ins2 := dict_set h li' ins1 in
    let upd2 := dict_set track_pk (my_obj, other_obj) (candidates_upd c) in
    let '(ld'', del3) := dd_getitem h del2 in
    let del4 := match ld'' with [] => dict_del h del3 | _ => del3 end in
    let '(li'', ins3) := dd_getitem h ins2 in
    let ins4 := match li'' with [] => dict_del h ins3 | _ => ins3 end in
    Ok {| candidates_ins := ins4; candidates_upd := upd2; candidates_del := del4 |}
  else Ok c.

Fixpoint detect_renames (hs : list string) (c : Candidates) : result Candidates :=
  match hs with
  | [] => Ok c
  | h :: hs' => c' ← detect_rename h c; detect_renames hs' c'
  end.

(** The candidates after the delta loop and the rename pass. *)
Definition diff_candidates (old new other : option DatasetStructure)
    (pk_filter : string -> bool) (diff_index : list DiffDelta)
  : result Candidates :=
  c ← diff_deltas old new other pk_filter diff_index no_candidates;
  detect_renames (keys (candidates_del c)) c.

Definition diff (self : DatasetStructure) (other : option DatasetStructure)
    (pk_filter : string -> bool) (reverse : bool) : result Diff :=
  let diff_index := diff_to_tree (tree self) (tree <$> other) reverse in
  let '(old, new) := if reverse then (other, Some self) else (Some self, other) in
  c ← diff_candidates old new other pk_filter diff_index;
  Ok {| meta := [];
        inserts := concat (values (candidates_ins c));
        deletes := dict_of_pairs (concat (values (candidates_del c)));
        updates := candidates_upd c |}.

(** *** [DatasetStructure.write_index] *)

(** [repo.create_blob(data)] returns the id of the blob it stores. *)
Record Repo := { create_blob : string -> string }.

(** What [write_index] reads and changes while it runs: the [pygit2.Index]
    it was given (entries by path), the lines written by [click.echo], and the
    local flag [conflicts]. *)
Record WState := {
  index : gmap string IndexEntry;
  echoed : list string;
  conflicts : bool;
}.

(** A command runs on a state and returns normally or raises; either way the
    index and the output are left as they were at that point. *)
Definition M (A : Type) : Type := WState -> result A * WState.

Definition ret {A} (a : A) : M A := fun s => (Ok a, s).

Definition seq {A B} (m : M A) (k : A -> M B) : M B :=
  fun s => match m s with
           | (Ok a, s') => k a s'
           | (Raise e, s') => (Raise e, s')
           end.

Definition lift {A} (r : result A) : M A := fun s => (r, s).

Definition raise {A} (e : exn) : M A := fun s => (Raise e, s).

Definition echo (line : string) : M unit :=
  fun s => (Ok tt, {| index := index s; echoed := echoed s ++ [line];
                      conflicts := conflicts s |}).

Definition set_conflicts : M unit :=
  fun s => (Ok tt, {| index := index s; echoed := echoed s; conflicts := true |}).

Definition get_conflicts : M bool := fun s => (Ok (conflicts s), s).

(** [path in index]. *)
Definition index_contains (p : string) : M bool :=
  fun s => (Ok (bool_decide (is_Some (index s !! p))), s).

(** [index.remove(path)], called on paths that are in the index only. *)
Definition index_remove (p : string) : M unit :=
  fun s => (Ok tt, {| index := delete p (index s); echoed := echoed s;
                      conflicts := conflicts s |}).

(** [index.add(entry)]. *)
Definition index_add (e : IndexEntry) : M unit :=
  fun s => (Ok tt, {| index := <[entry_path e := e]> (index s); echoed := echoed s;
                      conflicts := conflicts s |}).

Fixpoint for_each {A} (l : list A) (body : A -> M unit) : M unit :=
  match l with
  | [] => ret tt
  | x :: l' => seq (body x) (fun _ => for_each l' body)
  end.

Definition write_delete (self : DatasetStructure) (pk_field : string)
    (item : string * Feature) : M unit :=
  let old_feature := snd item in
  seq (lift (getitem old_feature pk_field)) (fun pk =>
  let feature_path := encode_1pk_to_path self pk in
  seq (index_contains feature_path) (fun present =>
  if negb present then
    seq set_conflicts (fun _ =>
    echo (path self +:+ ": Trying to delete nonexistent feature: " +:+ str pk))
  else index_remove feature_path)).

Definition write_insert (self : DatasetStructure) (repo : Repo) (pk_field : string)
    (new_feature : Feature) : M unit :=
  seq (lift (getitem new_feature pk_field)) (fun pk =>
  let '(feature_path, feature_data) := encode_feature self new_feature in
  seq (index_contains feature_path) (fun present =>
  if present then
    seq set_conflicts (fun _ =>
    echo (path self +:+ ": Trying to create feature that already exists: " +:+ str pk))
  else
    let blob_id := create_blob repo feature_data in
    index_add {| entry_path := feature_path; entry_id := blob_id;
                 entry_mode := GIT_FILEMODE_BLOB |})).

(** [if geom_column_name:] holds for a name other than the empty string. *)
Definition truthy_name (n : option string) : option string :=
  match n with
  | Some "" => None
  | n => n
  end.

(** The two features that [write_index] compares for an update: the stored
    one and the expected old one, both without the geometry column when the
    dataset has one. *)
Definition compared_features (geom : option string) (actual old_feature : Feature)
  : result (Feature * Feature) :=
  match truthy_name geom with
  | Some g =>
      '(_, actual') ← pop actual g;
      '(_, old_feature') ← pop old_feature g;
      Ok (actual', old_feature')
  | None => Ok (actual, old_feature)
  end.

Definition write_update (self : DatasetStructure) (repo : Repo) (pk_field : string)
    (geom : option string) (item : string * (Feature * Feature)) : M unit :=
  let '(old_feature, new_feature) := snd item in
  seq (lift (getitem old_feature pk_field)) (fun old_pk =>
  let old_feature_path := encode_1pk_to_path self old_pk in
  seq (index_contains old_feature_path) (fun present =>
  if negb present then
    seq set_conflicts (fun _ =>
    echo (path self +:+ ": Trying to update nonexistent feature: " +:+ str old_pk))
  else
    let actual_existing_feature := get_feature self old_pk None in
    seq (lift (compared_features geom actual_existing_feature old_feature)) (fun cmp =>
    if bool_decide (fst cmp <> snd cmp) then
      seq set_conflicts (fun _ =>
      echo (path self +:+ ": Trying to update already-changed feature: " +:+ str old_pk))
    else
      seq (index_remove old_feature_path) (fun _ =>
      let '(new_feature_path, new_feature_data) := encode_feature self new_feature in
      let blob_id := create_blob repo new_feature_data in
      index_add {| entry_path := new_feature_path; entry_id := blob_id;
                   entry_mode := GIT_FILEMODE_BLOB |})))).

Definition write_index_body (self : DatasetStructure) (dataset_diff : Diff)
    (repo : Repo) : M unit :=
  let pk_field := primary_key self in
  match meta dataset_diff with
  | _ :: _ => raise NotYetImplemented
  | [] =>
      seq (for_each (deletes dataset_diff) (write_delete self pk_field)) (fun _ =>
      seq (for_each (inserts dataset_diff) (write_insert self repo pk_field)) (fun _ =>
      let geom_column_name := geom_column_name self in
      seq (for_each (updates dataset_diff)
             (write_update self repo pk_field geom_column_name)) (fun _ =>
      seq get_conflicts (fun c =>
      if c then raise (InvalidOperation PATCH_DOES_NOT_APPLY) else ret tt))))
  end.

(** [write_index(dataset_diff, index, repo)]: the outcome, the index as the
    call leaves it, and the lines it printed. *)
Definition write_index (self : DatasetStructure) (dataset_diff : Diff)
    (idx : gmap string IndexEntry) (repo : Repo)
  : result unit * gmap string IndexEntry * list string :=
  let '(r, s) := write_index_body self dataset_diff repo
                   {| index := idx; echoed := []; conflicts := false |} in
  (r, index s, echoed s).

End Dataset.

End Structure.

(** ** Vocabulary for the statements about [diff] *)

Module DiffSpec.

Import Structure.

(** The old path or the new path of the delta lies under the meta namespace. *)
Definition touches_meta (d : DiffDelta) : bool :=
  file_under_meta (old_file d) || file_under_meta (new_file d).

(** The change types [diff] handles: added, deleted, modified. *)
Definition supported (s : delta_status) : bool :=
  match s with
  | GIT_DELTA_ADDED | GIT_DELTA_DELETED | GIT_DELTA_MODIFIED => true
  | _ => false
  end.

(** The same change seen from the other side: additions and deletions trade
    places and the old and new files are exchanged. *)
Definition flip_status (s : delta_status) : delta_status :=
  match s with
  | GIT_DELTA_ADDED => GIT_DELTA_DELETED
  | GIT_DELTA_DELETED => GIT_DELTA_ADDED
  | s => s
  end.

Definition flip_delta (d : DiffDelta) : DiffDelta :=
  {| status := flip_status (status d); old_file := new_file d; new_file := old_file d |}.

Definition swap_update (u : Feature * Feature) : Feature * Feature := (snd u, fst u).

(** The entries of the buckets of a [defaultdict(list)], each with the key of
    its bucket. *)
Definition keyed {V} (d : dict (list V)) : list (string * V) :=
  flat_map (fun b => map (pair (fst b)) (snd b)) d.

(** The insertions a run of [diff] ends with, with the identity under which
    each was staged. *)
Definition staged_insertions (c : Candidates) : list (string * Feature) :=
  keyed (candidates_ins c).

(** Buckets without the keys: what [candidates_ins] holds for the keyed
    entries of [candidates_del]. *)
Definition strip {V} (d : dict (list (string * V))) : dict (list V) :=
  map (fun b => (fst b, map snd (snd b))) d.

(** Every entry of a bucket carries the key of the bucket. *)
Definition tagged {V} (d : dict (list (string * V))) : Prop :=
  Forall (fun b => Forall (fun e => fst e = fst b) (snd b)) d.

Definition nonempty_buckets {V} (d : dict (list V)) : Prop :=
  Forall (fun b => snd b <> []) d.

(** The buckets once every bucket whose key [paired] holds for has lost its
    first entry; a bucket that becomes empty is removed. *)
Definition unpair {V} (paired : string -> bool) (d : dict (list V)) : dict (list V) :=
  flat_map (fun b =>
    if paired (fst b)
    then match tl (snd b) with [] => [] | t => [(fst b, t)] end
    else [b]) d.

(** The updates the rename pass records: for every deletion bucket that has
    an insertion bucket of the same key, the first entry of each. *)
Definition pairs {V} (del : dict (list (string * V))) (ins : dict (list V))
  : list (string * (V * V)) :=
  flat_map (fun b =>
    match snd b, dict_get (fst b) ins with
    | (track_pk, x) :: _, Some (y :: _) => [(track_pk, (x, y))]
    | _, _ => []
    end) del.

(** A bucket after [pop(0)] took its first entry: it is removed once empty. *)
Definition popped {V} (h : string) (rest : list V) (d : dict (list V)) : dict (list V) :=
  match rest with [] => dict_del h d | _ => dict_set h rest d end.

(** The candidates [diff] works on are well formed: no key twice, no empty
    bucket, and every staged deletion under its own key. *)
Definition wf_candidates (c : Candidates) : Prop :=
  NoDup (keys (candidates_ins c)) /\ NoDup (keys (candidates_del c)) /\
  nonempty_buckets (candidates_ins c) /\ nonempty_buckets (candidates_del c) /\
  tagged (candidates_del c).

(** Two runs of [diff] in opposite directions: what one stages as a deletion
    the other stages as an insertion, and their updates are each other's
    swapped. *)
Definition mirror (c c' : Candidates) : Prop :=
  candidates_ins c' = strip (candidates_del c) /\
  candidates_ins c = strip (candidates_del c') /\
  candidates_upd c' = map (fun kv => (fst kv, swap_update (snd kv))) (candidates_upd c).

Definition mirrored (r r' : result Candidates) : Prop :=
  match r, r' with
  | Ok c, Ok c' => mirror c c' /\ wf_candidates c /\ wf_candidates c'
  | Raise e, Raise e' => e = e'
  | _, _ => False
  end.

(** [d'] undoes [d]: the inserts of each are the deletes of the other, under
    the identities they were staged with ([c] and [c'] are the candidates
    the two runs end with), and the updates of [d'] are those of [d] with
    old and new value exchanged. *)
Definition inverse_diffs (d d' : Diff) (c c' : Candidates) : Prop :=
  inserts d = map snd (staged_insertions c) /\
  inserts d' = map snd (staged_insertions c') /\
  deletes d = staged_insertions c' /\
  deletes d' = staged_insertions c /\
  inserts d' = values (deletes d) /\
  inserts d = values (deletes d') /\
  forall k, dict_get k (updates d') = swap_update <$> dict_get k (updates d).

Definition inverse_outcomes (r r' : result Diff) (rc rc' : result Candidates) : Prop :=
  match r, r' with
  | Ok d, Ok d' => exists c c', rc = Ok c /\ rc' = Ok c' /\ inverse_diffs d d' c c'
  | Raise e, Raise e' => e = e'
  | _, _ => False
  end.

Definition set_all {V} (l : list (string * V)) (d : dict V) : dict V :=
  fold_left (fun d kv => dict_set (fst kv) (snd kv) d) l d.

Section Keys.

Context {Tree : Type}.

(** The identities (as key strings) of the paths a tree diff reports as
    deleted from the old dataset, and as added to the new one. *)
Definition deleted_keys (old : DatasetStructure (Tree := Tree)) (ds : list DiffDelta)
  : list string :=
  flat_map (fun d =>
    match status d, old_file d with
    | GIT_DELTA_DELETED, Some f =>
        if touches_meta d then [] else [str (decode_path_to_1pk old (file_path f))]
    | _, _ => []
    end) ds.

Definition added_keys (new : DatasetStructure (Tree := Tree)) (ds : list DiffDelta)
  : list string :=
  flat_map (fun d =>
    match status d, new_file d with
    | GIT_DELTA_ADDED, Some f =>
        if touches_meta d then [] else [str (decode_path_to_1pk new (file_path f))]
    | _, _ => []
    end) ds.

(** A modified path names the same identity in both datasets. *)
Definition modified_keys_agree (old new : DatasetStructure (Tree := Tree))
    (ds : list DiffDelta) : Prop :=
  forall d f g, In d ds -> status d = GIT_DELTA_MODIFIED ->
    old_file d = Some f -> new_file d = Some g ->
    str (decode_path_to_1pk old (file_path f)) = str (decode_path_to_1pk new (file_path g)).

End Keys.

End DiffSpec.

(** ** Vocabulary for the statements about [write_index] *)

Module ApplySpec.

Import Structure.

(** One change of a dataset diff, in the order [write_index] goes through
    them: the deletes, then the inserts, then the updates. *)
Inductive delta :=
| Delete (old_feature : Feature)
| Insert (new_feature : Feature)
| Update (old_feature new_feature : Feature).

Definition deltas_of (d : Diff) : list delta :=
  map (fun item => Delete (snd item)) (deletes d)
  ++ map Insert (inserts d)
  ++ map (fun item => Update (fst (snd item)) (snd (snd item))) (updates d).

Section Dataset.

Context {Tree : Type}.
Variable self : DatasetStructure (Tree := Tree).
Variable repo : Repo.

(** The index entry written for a feature. *)
Definition written (f : Feature) : IndexEntry :=
  {| entry_path := fst (encode_feature self f);
     entry_id := create_blob repo (snd (encode_feature self f));
     entry_mode := GIT_FILEMODE_BLOB |}.

(** A feature without the geometry column of the dataset, if it has one. *)
Definition without_geometry (f : Feature) : Feature :=
  match truthy_name (geom_column_name self) with
  | Some g => delete g f
  | None => f
  end.

Definition says (what : string) (pk : pyval) : string :=
  path self +:+ what +:+ str pk.

(** A delta conflicts with an index: the feature to delete or to update is
    not in the index, the feature to insert is already there, or the stored
    feature to update is not the expected old one. *)
Inductive conflict (idx : gmap string IndexEntry) : delta -> string -> Prop :=
| delete_nonexistent old pk :
    old !! primary_key self = Some pk ->
    idx !! encode_1pk_to_path self pk = None ->
    conflict idx (Delete old) (says ": Trying to delete nonexistent feature: " pk)
| insert_existing new pk :
    new !! primary_key self = Some pk ->
    is_Some (idx !! fst (encode_feature self new)) ->
    conflict idx (Insert new) (says ": Trying to create feature that already exists: " pk)
| update_nonexistent old new pk :
    old !! primary_key self = Some pk ->
    idx !! encode_1pk_to_path self pk = None ->
    conflict idx (Update old new) (says ": Trying to update nonexistent feature: " pk)
| update_changed old new pk :
    old !! primary_key self = Some pk ->
    is_Some (idx !! encode_1pk_to_path self pk) ->
    without_geometry (get_feature self pk None) <> without_geometry old ->
    conflict idx (Update old new) (says ": Trying to update already-changed feature: " pk).

(** A delta that does not conflict is applied to the index. *)
Inductive applies (idx : gmap string IndexEntry) : delta -> gmap string IndexEntry -> Prop :=
| apply_delete old pk :
    old !! primary_key self = Some pk ->
    is_Some (idx !! encode_1pk_to_path self pk) ->
    applies idx (Delete old) (delete (encode_1pk_to_path self pk) idx)
| apply_insert new pk :
    new !! primary_key self = Some pk ->
    idx !! fst (encode_feature self new) = None ->
    applies idx (Insert new) (<[fst (encode_feature self new) := written new]> idx)
| apply_update old new pk :
    old !! primary_key self = Some pk ->
    is_Some (idx !! encode_1pk_to_path self pk) ->
    without_geometry (get_feature self pk None) = without_geometry old ->
    applies idx (Update old new)
      (<[fst (encode_feature self new) := written new]>
         (delete (encode_1pk_to_path self pk) idx)).

(** Going through all deltas: each one is applied or reported, none stops
    the run.  [run idx ds idx' out]: from [idx], the deltas [ds] leave the
    index [idx'] and the reports [out], one line per conflicting delta. *)
Inductive run : gmap string IndexEntry -> list delta ->
                gmap string IndexEntry -> list string -> Prop :=
| run_done idx : run idx [] idx []
| run_applied idx d idx' ds idx'' out :
    applies idx d idx' -> run idx' ds idx'' out -> run idx (d :: ds) idx'' out
| run_reported idx d line ds idx' out :
    conflict idx d line -> run idx ds idx' out -> run idx (d :: ds) idx' (line :: out).

Definition reported (out : list string) : bool :=
  match out with [] => false | _ => true end.

(** The state of [write_index] once some deltas were gone through from the
    state [s]: the index they leave and the lines they added. *)
Definition after (s : WState) (idx : gmap string IndexEntry) (out : list string)
  : WState :=
  {| index := idx; echoed := echoed s ++ out; conflicts := conflicts s || reported out |}.

(** A loop body that applies or reports its item, and goes on. *)
Definition steps {A} (body : A -> M unit) (mk : A -> delta) (x : A) : Prop :=
  forall s,
    (exists idx', applies (index s) (mk x) idx' /\
                  body x s = (Ok tt, after s idx' []))
    \/ (exists line, conflict (index s) (mk x) line /\
                     body x s = (Ok tt, after s (index s) [line])).

(** The features of the diff have the columns [write_index] reads: the
    primary key, and the geometry column in the features it compares. *)
Definition has_key (f : Feature) : Prop := is_Some (f !! primary_key self).

Definition has_geometry_of (f : Feature) : Prop :=
  forall g, truthy_name (geom_column_name self) = Some g -> is_Some (f !! g).

Definition well_formed (d : Diff) : Prop :=
  Forall (fun item => has_key (snd item)) (deletes d) /\
  Forall has_key (inserts d) /\
  Forall (fun item =>
            has_key (fst (snd item)) /\ has_geometry_of (fst (snd item)) /\
            forall pk, fst (snd item) !! primary_key self = Some pk ->
                       has_geometry_of (get_feature self pk None))
         (updates d).

End Dataset.

End ApplySpec.

(** ** Concrete datasets for the examples *)

Module Examples.

Import Structure.

(** A tree as the list of its blobs by path, in path order. *)
Definition ex_tree := list (string * string).

Definition both (s : delta_status) (p : string) : DiffDelta :=
  {| status := s; old_file := Some {| file_path := p |};
     new_file := Some {| file_path := p |} |}.

(** A tree-to-tree comparison without rename detection: the two trees are
    walked in path order. *)
Fixpoint tree_diff (a : ex_tree) : ex_tree -> list DiffDelta :=
  fix walk (b : ex_tree) : list DiffDelta :=
    match a, b with
    | [], _ => map (fun e => both GIT_DELTA_ADDED (fst e)) b
    | _, [] => map (fun e => both GIT_DELTA_DELETED (fst e)) a
    | (p, x) :: a', (q, y) :: b' =>
        match String.compare p q with
        | Lt => both GIT_DELTA_DELETED p :: tree_diff a' b
        | Gt => both GIT_DELTA_ADDED q :: walk b'
        | Eq => if String.eqb x y then tree_diff a' b'
                else both GIT_DELTA_MODIFIED p :: tree_diff a' b'
        end
    end.

Definition ex_diff_to_tree (t : ex_tree) (o : option ex_tree) (swap : bool)
  : list DiffDelta :=
  let o' := default [] o in
  if swap then tree_diff o' t else tree_diff t o'.

Definition ex_prefix : string := ".sno-table/features/".

Definition ex_decode (p : string) : pyval :=
  PyStr (substring (String.length ex_prefix) (String.length p) p).

Definition ex_encode (pk : pyval) : string := ex_prefix +:+ str pk.

Definition ex_blob (t : ex_tree) (pk : pyval) : string :=
  default "" (dict_get (ex_encode pk) t).

(** A dataset without geometry whose features hold one column, [name],
    stored as the blob. *)
Definition names (t : ex_tree) : DatasetStructure :=
  {| tree := t; path := "names"; primary_key := "name";
     geom_column_name := None;
     decode_path_to_1pk := ex_decode;
     encode_1pk_to_path := ex_encode;
     encode_feature := fun f =>
       (ex_encode (default PyNone (f !! "name")), str (default PyNone (f !! "name")));
     get_feature := fun pk _ => {[ "name" := PyStr (ex_blob t pk) ]} |}.

Definition old_names : ex_tree := [(".sno-table/features/k1", "C")].
Definition new_names : ex_tree := [(".sno-table/features/k2", "C")].

(** The content both trees hold, under [k1] in one and under [k2] in the
    other. *)
Definition content_C : Feature := {[ "name" := PyStr "C" ]}.

Definition name_y : ex_tree := [(".sno-table/features/k2", "y")].
Definition name_z : ex_tree := [(".sno-table/features/k2", "z")].

Definition names_before : ex_tree :=
  [(".sno-table/features/k1", "x"); (".sno-table/features/k2", "y")].
Definition names_after : ex_tree :=
  [(".sno-table/features/k2", "z"); (".sno-table/features/k3", "w")].

End Examples.

Module Examples2.

Import Structure DiffSpec.

(** A tree diff that reports one change, whatever the trees. *)
Definition report (d : DiffDelta) : unit -> option unit -> bool -> list DiffDelta :=
  fun _ _ _ => [d].

Definition typechange (p : string) : DiffDelta :=
  {| status := GIT_DELTA_TYPECHANGE; old_file := Some {| file_path := p |};
     new_file := Some {| file_path := p |} |}.

(** A dataset of points with an integer key [id], a [name] and a geometry.
    Its stored features are given as a dictionary by key string. *)
Definition points_path (pk : pyval) : string := ".sno-table/features/" +:+ str pk.

Definition points (stored : dict Feature) : DatasetStructure (Tree := unit) :=
  {| tree := tt; path := "points"; primary_key := "id";
     geom_column_name := Some "geom";
     decode_path_to_1pk := fun p => PyStr (substring 20 (String.length p) p);
     encode_1pk_to_path := points_path;
     encode_feature := fun f =>
       (points_path (default PyNone (f !! "id")), str (default PyNone (f !! "name")));
     get_feature := fun pk _ => default ∅ (dict_get (str pk) stored) |}.

Definition point (id : Z) (name geom : string) : Feature :=
  {[ "id" := PyInt id; "name" := PyStr name; "geom" := PyBytes geom ]}.

Definition blob_ids : Repo := {| create_blob := fun data => "blob:" +:+ data |}.

Definition entry (p data : string) : IndexEntry :=
  {| entry_path := p; entry_id := create_blob blob_ids data;
     entry_mode := GIT_FILEMODE_BLOB |}.

Definition no_changes : Diff :=
  {| meta := []; inserts := []; deletes := []; updates := [] |}.

Definition stored_points : dict Feature :=
  [("1", point 1 "a" "g1"); ("2", point 2 "b" "g2")].

Definition points_index : gmap string IndexEntry :=
  {[ points_path (PyInt 1) := entry (points_path (PyInt 1)) "a";
     points_path (PyInt 2) := entry (points_path (PyInt 2)) "b" ]}.

Definition points_changes : Diff :=
  {| meta := [];
     inserts := [point 1 "again" "g"];
     deletes := [("3", point 3 "c" "g3")];
     updates := [("2", (point 2 "b" "moved", point 2 "bb" "g2"))] |}.


End Examples2.

(** ** [kart/diff_structs.py], from the specification *)

Module DiffStructs.

Import Structure.

(** Modelled from the spec: [kart/diff_structs.py], which defines [Delta],
    [DatasetDiff], [RepoDiff] and their [prune], [+=] and [len], is not among
    the sources.  The specification gives: a delta is an insert, a delete or
    an update, keyed by identity; a [DatasetDiff] maps a change kind (["meta"],
    ["feature"]) to the deltas of that kind; a [RepoDiff] maps a dataset path to
    a [DatasetDiff]; [prune] removes empty nested containers bottom-up; [+=]
    merges another diff into this one, the later diff winning for an identity
    both have; [len] counts the deltas. *)
Inductive Delta :=
| Insert (new_value : Feature)
| Delete (old_value : Feature)
| Update (old_value new_value : Feature).

Definition DeltaDiff := dict Delta.
Definition DatasetDiff := dict DeltaDiff.
Definition RepoDiff := dict DatasetDiff.

(** [not d]: a container is falsy when it is empty. *)
Definition is_empty {V} (d : dict V) : bool :=
  match d with [] => true | _ => false end.

(** Modelled from the spec: [DatasetDiff.prune] removes the kinds without
    deltas. *)
Definition prune_dataset_diff (d : DatasetDiff) : DatasetDiff :=
  List.filter (fun item => negb (is_empty (snd item))) d.

(** Modelled from the spec: [RepoDiff.prune] prunes every dataset diff, then
    removes the datasets left without changes. *)
Definition prune_repo_diff (r : RepoDiff) : RepoDiff :=
  List.filter (fun item => negb (is_empty (snd item)))
    (map (fun item => (fst item, prune_dataset_diff (snd item))) r).

(** Modelled from the spec: [len] is the number of deltas. *)
Definition len_dataset_diff (d : DatasetDiff) : nat :=
  list_sum (map (fun item => length (snd item)) d).

Definition len_repo_diff (r : RepoDiff) : nat :=
  list_sum (map (fun item => len_dataset_diff (snd item)) r).

(** The deltas of a diff, each with the keys that lead to it. *)
Definition deltas_of_dataset_diff (d : DatasetDiff) : list (string * string * Delta) :=
  flat_map (fun item => map (fun kd => (fst item, fst kd, snd kd)) (snd item)) d.

Definition deltas_of_repo_diff (r : RepoDiff)
  : list (string * (string * string * Delta)) :=
  flat_map (fun item => map (pair (fst item)) (deltas_of_dataset_diff (snd item))) r.

(** No entry of the container is empty. *)
Definition no_empty_entry {V} (d : dict (dict V)) : Prop :=
  Forall (fun item => snd item <> []) d.

Definition no_empty_dataset (r : RepoDiff) : Prop :=
  Forall (fun item => snd item <> [] /\ no_empty_entry (snd item)) r.

(** Modelled from the spec: [+=] on the deltas of one kind and on dataset
    diffs; for an identity in both, the later delta replaces the earlier. *)
Definition iadd_delta_diff (self other : DeltaDiff) : DeltaDiff :=
  fold_left (fun acc item => dict_set (fst item) (snd item) acc) other self.

Definition iadd_dataset_diff (self other : DatasetDiff) : DatasetDiff :=
  fold_left (fun acc item =>
               dict_set (fst item)
                 (iadd_delta_diff (default [] (dict_get (fst item) acc)) (snd item)) acc)
            other self.

End DiffStructs.

(** ** [kart/diff.py] *)

Module KartDiff.

Import Structure DiffStructs.

(** [sorted(paths)] for a set of paths given as a list: insertion sort that
    drops repeated paths. *)
Fixpoint insert_path (p : string) (l : list string) : list string :=
  match l with
  | [] => [p]
  | q :: l' =>
      match String.compare p q with
      | Lt => p :: l
      | Eq => l
      | Gt => q :: insert_path p l'
      end
  end.

Definition sorted_set (l : list string) : list string :=
  fold_right insert_path [] l.

Section Repo.

(** The repository structures, datasets, working copy and key filters are
    defined outside the sources; they are parameters, with the operations
    [get_dataset_diff] and [get_repo_diff] call on them. *)
Context {RepoStructure Dataset WorkingCopy DatasetFilter : Type}.

(** [base_rs != target_rs]. *)
Variable rs_ne : RepoStructure -> RepoStructure -> bool.
(** [rs.datasets.get(path)] and [ds.path for ds in rs.datasets]. *)
Variable datasets_get : RepoStructure -> string -> option Dataset.
Variable dataset_paths : RepoStructure -> list string.
(** [ds.diff(other, ds_filter=.., reverse=..)]. *)
Variable dataset_diff :
  Dataset -> option Dataset -> DatasetFilter -> bool -> result DatasetDiff.
(** [working_copy.diff_db_to_tree(ds, ds_filter=..)]. *)
Variable diff_db_to_tree :
  WorkingCopy -> option Dataset -> DatasetFilter -> result DatasetDiff.
(** The dataset filter that matches everything. *)
Variable UNFILTERED : DatasetFilter.

(** A repository-wide filter: [UNFILTERED], or a filter per dataset path. *)
Inductive RepoFilter :=
| Unfiltered
| Filtered (by_dataset : dict DatasetFilter).

(** [feature_filter[ds_path]]. *)
Definition filter_getitem (f : RepoFilter) (ds_path : string) : result DatasetFilter :=
  match f with
  | Unfiltered => Ok UNFILTERED
  | Filtered by_dataset =>
      match dict_get ds_path by_dataset with
      | Some ds_filter => Ok ds_filter
      | None => Raise (KeyError ds_path)
      end
  end.

Definition get_dataset_diff (base_rs target_rs : RepoStructure)
    (working_copy : option WorkingCopy) (dataset_path : string)
    (ds_filter : DatasetFilter) : result DatasetDiff :=
  let diff : DatasetDiff := [] in
  diff ← (if rs_ne base_rs target_rs then
            let base_ds := datasets_get base_rs dataset_path in
            let target_ds := datasets_get target_rs dataset_path in
            let '(base_ds, target_ds, reverse) :=
              match base_ds with
              | None => (target_ds, base_ds, true)
              | Some _ => (base_ds, target_ds, false)
              end in
            base ← deref base_ds;
            diff_cc ← dataset_diff base target_ds ds_filter reverse;
            Ok (iadd_dataset_diff diff diff_cc)
          else Ok diff);
  diff ← match working_copy with
          | Some wc =>
              let target_ds := datasets_get target_rs dataset_path in
              diff_wc ← diff_db_to_tree wc target_ds ds_filter;
              Ok (iadd_dataset_diff diff diff_wc)
          | None => Ok diff
          end;
  Ok (prune_dataset_diff diff).

(** The loop [for ds_path in sorted(all_ds_paths)] of [get_repo_diff]. *)
Fixpoint repo_diff_loop (base_rs target_rs : RepoStructure) (feature_filter : RepoFilter)
    (paths : list string) (result : RepoDiff) : Py.result RepoDiff :=
  match paths with
  | [] => Ok result
  | ds_path :: paths' =>
      ds_filter ← filter_getitem feature_filter ds_path;
      ds_diff ← get_dataset_diff base_rs target_rs None ds_path ds_filter;
      repo_diff_loop base_rs target_rs feature_filter paths'
        (dict_set ds_path ds_diff result)
  end.

Definition get_repo_diff (base_rs target_rs : RepoStructure)
    (feature_filter : RepoFilter) : result RepoDiff :=
  let base_ds_paths := dataset_paths base_rs in
  let target_ds_paths := dataset_paths target_rs in
  let all_ds_paths := base_ds_paths ++ target_ds_paths in
  let all_ds_paths :=
    match feature_filter with
    | Unfiltered => all_ds_paths
    | Filtered by_dataset =>
        List.filter (fun p => dict_mem p by_dataset) all_ds_paths
    end in
  result ← repo_diff_loop base_rs target_rs feature_filter (sorted_set all_ds_paths) [];
  Ok (prune_repo_diff result).

End Repo.

End KartDiff.

Module Examples3.

Import Structure DiffStructs.

(** Two revisions [0] and [1] of a repository with the dataset [points] and,
    in revision [1] only, the dataset [empty]; between them one feature of
    [points] was inserted and nothing changed in its meta items. *)
Definition rs_ne (base target : nat) : bool := negb (Nat.eqb base target).

Definition datasets_get (rs : nat) (p : string) : option string :=
  if String.eqb p "points" then Some p
  else if String.eqb p "empty" && Nat.eqb rs 1 then Some p
  else None.

Definition dataset_paths (rs : nat) : list string :=
  if Nat.eqb rs 1 then ["points"; "empty"] else ["points"].

Definition feature_changes : DatasetDiff :=
  [("feature", [("7", Insert (Examples2.point 7 "g" "geom"))])].

Definition dataset_diff (ds : string) (other : option string) (f : unit)
    (reverse : bool) : result DatasetDiff :=
  if String.eqb ds "points"
  then Ok [("meta", []); ("feature", [("7", Insert (Examples2.point 7 "g" "geom"))])]
  else Ok [("meta", []); ("feature", [])].

Definition diff_db_to_tree (wc : unit) (ds : option string) (f : unit)
  : result DatasetDiff := Ok [].

End Examples3.

(** ** Merge resolution, from the specification *)

Module Merge.

(** Modelled from the spec: [kart/merge_util.py] ([MergedIndex] and its
    conflicts) and [kart/resolve.py] are not among the sources, only
    [tests/test_resolve.py] is.  The specification gives: a conflict is
    identified by a key derived from the dataset path and the identity of the
    item, and is about a meta item or a feature; a [MergedIndex] owns
    [entries] (the items destined for the merged tree), [conflicts] and
    [resolves] (conflict key to the list of resolved versions, the empty list
    meaning deleted); [resolve] records the chosen versions in [resolves]
    without touching [entries], and fails with an [InvalidOperation]
    condition for a feature conflict of a dataset that still has unresolved
    meta-item conflicts; finalization applies, for every conflict, its
    resolution (all trace of the conflicting identity is deleted from
    [entries], the resolved versions are written) and fails if a conflict has
    no resolution; the resulting entries make the output tree. *)
Inductive item_kind := MetaItem | FeatureItem.

(** The key of an item and of the conflict about it, as in
    ["nz_waca_adjustments:feature:98001"]. *)
Record ItemKey := {
  key_dataset : string;
  key_kind : item_kind;
  key_id : string;
}.

#[global] Instance item_kind_eq_dec : EqDecision item_kind.
Proof. solve_decision. Defined.
#[global] Instance ItemKey_eq_dec : EqDecision ItemKey.
Proof. solve_decision. Defined.

(** A version of an item: the identity it is stored under and its content. *)
Record Version := {
  version_key : ItemKey;
  version_content : string;
}.

(** Up to three versions: [None] for a side on which the item is absent. *)
Record Conflict := {
  ancestor : option Version;
  ours : option Version;
  theirs : option Version;
}.

(** Mappings with item keys, in the order of their entries. *)
Fixpoint lookup_key {V} (k : ItemKey) (l : list (ItemKey * V)) : option V :=
  match l with
  | [] => None
  | (k', v) :: l' => if decide (k = k') then Some v else lookup_key k l'
  end.

Fixpoint set_key {V} (k : ItemKey) (v : V) (l : list (ItemKey * V)) : list (ItemKey * V) :=
  match l with
  | [] => [(k, v)]
  | (k', v') :: l' =>
      if decide (k = k') then (k', v) :: l' else (k', v') :: set_key k v l'
  end.

Fixpoint delete_key {V} (k : ItemKey) (l : list (ItemKey * V)) : list (ItemKey * V) :=
  match l with
  | [] => []
  | (k', v') :: l' =>
      if decide (k = k') then delete_key k l' else (k', v') :: delete_key k l'
  end.

Record MergedIndex := {
  entries : list (ItemKey * string);
  conflicts : list (ItemKey * Conflict);
  resolves : list (ItemKey * list Version);
}.

Definition is_resolved (mi : MergedIndex) (k : ItemKey) : bool :=
  match lookup_key k (resolves mi) with Some _ => true | None => false end.

(** The meta-item conflicts of a dataset that have no resolution yet. *)
Definition unresolved_meta_conflicts (mi : MergedIndex) (dataset : string)
  : list ItemKey :=
  List.filter
    (fun k => bool_decide (key_dataset k = dataset)
              && bool_decide (key_kind k = MetaItem)
              && negb (is_resolved mi k))
    (map fst (conflicts mi)).

(** [resolve(merged_index, conflict_key, versions)]. *)
Definition resolve (mi : MergedIndex) (k : ItemKey) (versions : list Version)
  : result MergedIndex :=
  match key_kind k, unresolved_meta_conflicts mi (key_dataset k) with
  | FeatureItem, _ :: _ => Raise (InvalidOperation INVALID_OPERATION)
  | _, _ =>
      Ok {| entries := entries mi; conflicts := conflicts mi;
            resolves := set_key k versions (resolves mi) |}
  end.

(** Applying the resolution of the conflict about [k]. *)
Definition write_version (e : list (ItemKey * string)) (v : Version)
  : list (ItemKey * string) :=
  set_key (version_key v) (version_content v) e.

Definition apply_resolve (e : list (ItemKey * string)) (k : ItemKey)
    (versions : list Version) : list (ItemKey * string) :=
  fold_left write_version versions (delete_key k e).

Fixpoint finalize_conflicts (cs : list (ItemKey * Conflict))
    (res : list (ItemKey * list Version)) (e : list (ItemKey * string))
  : result (list (ItemKey * string)) :=
  match cs with
  | [] => Ok e
  | (k, _) :: cs' =>
      match lookup_key k res with
      | None => Raise (InvalidOperation INVALID_OPERATION)
      | Some versions => finalize_conflicts cs' res (apply_resolve e k versions)
      end
  end.

(** Finalization: the entries of the output tree, or a failure. *)
Definition finalize (mi : MergedIndex) : result (list (ItemKey * string)) :=
  finalize_conflicts (conflicts mi) (resolves mi) (entries mi).

(** No other conflict is about an identity that the resolution of [k] with
    [versions] writes, and no other resolution writes the identity [k] or one
    of those. *)
Definition independent (mi : MergedIndex) (k : ItemKey) (versions : list Version)
  : Prop :=
  forall k' vs', In k' (map fst (conflicts mi)) -> k' <> k ->
    lookup_key k' (resolves mi) = Some vs' ->
    ~ In k' (map version_key versions) /\
    forall v', In v' vs' -> ~ In (version_key v') (k :: map version_key versions).

Definition all_resolved (mi : MergedIndex) : Prop :=
  forall k, In k (map fst (conflicts mi)) -> is_Some (lookup_key k (resolves mi)).

End Merge.

Module Examples4.

Import Merge.

Definition schema : ItemKey :=
  {| key_dataset := "nz_waca_adjustments"; key_kind := MetaItem; key_id := "schema.json" |}.

Definition feature (id : string) : ItemKey :=
  {| key_dataset := "nz_waca_adjustments"; key_kind := FeatureItem; key_id := id |}.

Definition version (k : ItemKey) (content : string) : Version :=
  {| version_key := k; version_content := content |}.

(** A merge with a schema conflict and an add/add conflict on one feature. *)
Definition merging : MergedIndex :=
  {| entries := [(feature "1", "one")];
     conflicts :=
       [(schema, {| ancestor := Some (version schema "s");
                    ours := Some (version schema "s+flavour");
                    theirs := Some (version schema "s+colour") |});
        (feature "9999999",
         {| ancestor := None;
            ours := Some (version (feature "9999999") "vanilla");
            theirs := Some (version (feature "9999999") "pink") |})];
     resolves := [] |}.

(** The same merge once the schema conflict is resolved. *)
Definition schema_resolved : MergedIndex :=
  {| entries := entries merging; conflicts := conflicts merging;
     resolves := [(schema, [version schema "s+colour"])] |}.

End Examples4.

(** ** More of [sno/structure.py] and [kart]: exceptions and strings *)

Module Exc.

(** Exit codes of [kart/exceptions.py] that the embedded code names. *)
Inductive exit_code :=
| NO_WORKING_COPY | NO_DATA | UNCOMMITTED_CHANGES | UNCATEGORIZED_ERROR.

(** The exceptions of the code below; [Base] is one of [Py.exn]. *)
Inductive exc :=
| Base (e : exn)
| ValueError (message : string)
| TypeError
| UsageError (message : string)
| NotFound (message : string) (code : exit_code)
| InvalidOperationX (message : string) (code : option exit_code)
| WorkingCopyTreeMismatch (working_copy_tree_id expected_tree_id : option string)
| AssertionError.

Inductive outcome (A : Type) :=
| Returns (a : A)
| Raises (e : exc).
Arguments Returns {A} a.
Arguments Raises {A} e.

#[global] Instance outcome_bind : MBind outcome :=
  fun A B k m => match m with Returns a => k a | Raises e => Raises e end.
#[global] Instance outcome_ret : MRet outcome := @Returns.

(** A computation of the first part, used in the second. *)
Definition of_result {A} (r : result A) : outcome A :=
  match r with Ok a => Returns a | Raise e => Raises (Base e) end.

End Exc.

Module Str.

(** [s[n:]]. *)
Fixpoint drop (n : nat) (s : string) : string :=
  match n, s with
  | O, _ => s
  | S n', String _ s' => drop n' s'
  | S _, EmptyString => EmptyString
  end.

(** [needle in hay]. *)
Fixpoint contains (needle hay : string) : bool :=
  if String.prefix needle hay then true
  else match hay with
       | EmptyString => false
       | String _ hay' => contains needle hay'
       end.

(** [s.lstrip(c)], [s.rstrip(c)] and [s.strip(c)] for one character [c]. *)
Fixpoint lstrip (c : ascii) (s : string) : string :=
  match s with
  | EmptyString => EmptyString
  | String c' s' => if Ascii.eqb c' c then lstrip c s' else s
  end.

Fixpoint rstrip (c : ascii) (s : string) : string :=
  match s with
  | EmptyString => EmptyString
  | String c' s' =>
      match rstrip c s' with
      | EmptyString => if Ascii.eqb c' c then EmptyString else String c' EmptyString
      | r => String c' r
      end
  end.

Definition strip (c : ascii) (s : string) : string := rstrip c (lstrip c s).

(** [s.replace(c, new)] for one character [c]. *)
Fixpoint replace_char (c : ascii) (new : string) (s : string) : string :=
  match s with
  | EmptyString => EmptyString
  | String c' s' =>
      if Ascii.eqb c' c then new +:+ replace_char c new s'
      else String c' (replace_char c new s')
  end.

(** The last character of a string, if any. *)
Fixpoint last_char (s : string) : option ascii :=
  match s with
  | EmptyString => None
  | String c EmptyString => Some c
  | String _ s' => last_char s'
  end.

Definition first_char (s : string) : option ascii :=
  match s with
  | EmptyString => None
  | String c _ => Some c
  end.

End Str.

(** ** [sno/structure.py]: the rest of [DatasetStructure] *)

Module Dataset.

Import Structure Exc.

(** [DatasetStructure.__init__] for a subclass: the attributes [path] and
    [name] it sets from its [path] argument. *)
Definition init_path (path : string) : string := Str.strip "/" path.

Definition init_name (path : string) : string :=
  Str.replace_char "/" "__" (init_path path).

Section Paths.

Context {Tree : Type}.
Variable self : DatasetStructure (Tree := Tree).

(** [full_path(rel_path)]. *)
Definition full_path (rel_path : string) : string :=
  path self +:+ "/" +:+ rel_path.

(** [rel_path(full_path)]. *)
Definition rel_path (full_path : string) : outcome string :=
  if negb (startswith full_path (path self +:+ "/"))
  then Raises (ValueError (full_path +:+ " is not a descendant of " +:+ path self))
  else Returns (Str.drop (String.length (path self) + 1) full_path).

End Paths.

(** [cast_primary_key(pk_value)], where [pk_type] is
    [self.primary_key_type] and [int_] the builtin [int]. *)
Definition cast_primary_key (int_ : pyval -> outcome pyval) (pk_type : string)
    (pk_value : pyval) : outcome pyval :=
  match pk_value with
  | PyNone => Returns pk_value
  | _ =>
      if Str.contains "INT" pk_type then int_ pk_value
      else if Str.contains "TEXT" pk_type || Str.contains "CHAR" pk_type
              || Str.contains "CLOB" pk_type
      then Returns (PyStr (str pk_value))
      else Returns pk_value
  end.

(** A versioned subclass of [DatasetStructure], as far as [for_version]
    and [instantiate] look at it. *)
Record VersionClass := {
  class_name : string;
  VERSION_IMPORT : string;
  VERSION_PATH : string;
  VERSION_SPECIFIER : string;
}.




(** The values [source.build_meta_info()] yields: [None], a dictionary, or a
    list of such. *)
Inductive meta_item :=
| MetaNone
| MetaDict (d : dict pyval).

Inductive meta_value :=
| One (v : meta_item)
| Many (l : list meta_item).

(** [v["table_name"] = name] when [v and "table_name" in v]. *)
Definition rename_table (name : string) (v : meta_item) : meta_item :=
  match v with
  | MetaDict (e :: d) =>
      if dict_mem "table_name" (e :: d)
      then MetaDict (dict_set "table_name" (PyStr name) (e :: d))
      else v
  | _ => v
  end.

Definition rename_tables (name : string) (value : meta_value) : meta_value :=
  match value with
  | One v => One (rename_table name v)
  | Many l => Many (map (rename_table name) l)
  end.

(** The dictionaries of a value. *)
Definition dicts_of (value : meta_value) : list (dict pyval) :=
  match value with
  | One (MetaDict d) => [d]
  | One MetaNone => []
  | Many l => flat_map (fun v => match v with MetaDict d => [d] | MetaNone => [] end) l
  end.

(** A dictionary after [rename_table]: the same keys in the same order and
    the same values, except for ["table_name"]. *)
Definition renamed (name : string) (d' d : dict pyval) : Prop :=
  keys d' = keys d /\
  (forall k, k <> "table_name" -> dict_get k d' = dict_get k d) /\
  (dict_mem "table_name" d = true -> dict_get "table_name" d' = Some (PyStr name)).

(** The items [import_meta_items(source)] yields; the version item is the
    dictionary [{"version": VERSION_IMPORT}]. *)
Definition import_meta_items (version_import : string) (name : string)
    (build_meta_info : list (string * meta_value)) : list (string * meta_value) :=
  ("version", One (MetaDict [("version", PyStr version_import)]))
  :: map (fun item => (fst item, rename_tables name (snd item))) build_meta_info.

End Dataset.

(** ** What [write_index] keeps and what it may raise *)

Module WriteIndexSpec.

Import Py Structure ApplySpec.


(** A command that leaves the entry at [p] as it is, however it ends. *)
Definition keeps_entry {A} (p : string) (m : M A) : Prop :=
  forall s r s', m s = (r, s') -> index s' !! p = index s !! p.

Section Dataset.

Context {Tree : Type}.
Variable self : DatasetStructure (Tree := Tree).



(** The paths of the index that a diff names. *)
Definition names_path (d : Diff) (p : string) : Prop :=
  (exists item pk, item ∈ deletes d /\ snd item !! primary_key self = Some pk /\
                   p = encode_1pk_to_path self pk)
  \/ (exists f, f ∈ inserts d /\ p = fst (encode_feature self f))
  \/ (exists item, item ∈ updates d /\
        ((exists pk, fst (snd item) !! primary_key self = Some pk /\
                     p = encode_1pk_to_path self pk)
         \/ p = fst (encode_feature self (snd (snd item))))).

End Dataset.

End WriteIndexSpec.

(** ** [sno/structure.py]: [RepositoryStructure.create_tree_from_diff] and [commit] *)

Module Repository.

Import Py Structure.

Section Repository.

(** [pygit2] is external: trees, object ids and signatures are abstract, and
    the operations of the index and of the repository that the two methods
    call are parameters. *)
Context {Tree Oid Signature : Type}.

(** [git_index.read_tree(tree)] on a new [pygit2.Index()], and
    [git_index.write_tree(repo)]. *)
Variable read_tree : Tree -> gmap string IndexEntry.
Variable write_tree : gmap string IndexEntry -> Oid.

(** What [repo.create_commit] is called with. *)
Record CommitCall := {
  reference_name : string;
  call_author : Signature;
  call_committer : Signature;
  call_message : string;
  call_tree : Oid;
  call_parents : list Oid;
}.

(** A [RepositoryStructure] that has a tree: [self.tree], the datasets
    [self.iter_at(tree)] yields, and of [self.repo] the blob store, the
    default signature, [head.target] and [create_commit]. *)
Record RepositoryStructure := {
  rs_tree : Tree;
  iter_at : Tree -> list (DatasetStructure (Tree := Tree));
  rs_repo : Repo;
  default_signature : Signature;
  head_target : Oid;
  create_commit : CommitCall -> Oid;
}.

(** The loop [for ds in self.iter_at(orig_tree): ds.write_index(diff[ds],
    git_index, self.repo)]: all datasets write to the one index, and what they
    print adds up.  [diff[ds]] is a parameter; it may raise. *)
Fixpoint write_all (repo : Repo)
    (diff : DatasetStructure (Tree := Tree) -> result Diff)
    (datasets : list (DatasetStructure (Tree := Tree)))
    (git_index : gmap string IndexEntry) (out : list string)
  : result unit * gmap string IndexEntry * list string :=
  match datasets with
  | [] => (Ok tt, git_index, out)
  | ds :: datasets' =>
      match diff ds with
      | Raise e => (Raise e, git_index, out)
      | Ok dataset_diff =>
          match write_index ds dataset_diff git_index repo with
          | (Ok _, git_index', out') =>
              write_all repo diff datasets' git_index' (out ++ out')
          | (Raise e, git_index', out') => (Raise e, git_index', out ++ out')
          end
      end
  end.

(** [create_tree_from_diff(diff, orig_tree=None)]: the new tree id or the
    exception, and the lines printed. *)
Definition create_tree_from_diff (self : RepositoryStructure)
    (diff : DatasetStructure (Tree := Tree) -> result Diff) (orig_tree : option Tree)
  : result Oid * list string :=
  let orig_tree := match orig_tree with
                   | None => rs_tree self
                   | Some t => t
                   end in
  let git_index := read_tree orig_tree in
  match write_all (rs_repo self) diff (iter_at self orig_tree) git_index [] with
  | (Ok _, git_index, out) => (Ok (write_tree git_index), out)
  | (Raise e, _, out) => (Raise e, out)
  end.

(** [author or user]. *)
Definition or_default (given : option Signature) (user : Signature) : Signature :=
  match given with
  | Some s => s
  | None => user
  end.

(** [commit(wcdiff, message, author=None, committer=None, allow_empty=False)]:
    the new commit id or the exception, the lines printed, and the calls of
    [repo.create_commit] made. *)
Definition commit (self : RepositoryStructure)
    (wcdiff : DatasetStructure (Tree := Tree) -> result Diff) (message : string)
    (author committer : option Signature) (allow_empty : bool)
  : result Oid * list string * list CommitCall :=
  let tree := rs_tree self in
  let git_index := read_tree tree in
  match create_tree_from_diff self wcdiff None with
  | (Raise e, out) => (Raise e, out, [])
  | (Ok new_tree_oid, out) =>
      let user := default_signature self in
      let call := {| reference_name := "HEAD";
                     call_author := or_default author user;
                     call_committer := or_default committer user;
                     call_message := message;
                     call_tree := new_tree_oid;
                     call_parents := [head_target self] |} in
      let new_commit := create_commit self call in
      (Ok new_commit, out, [call])
  end.


End Repository.

End Repository.

Module Examples5.

Import Py Structure Repository.

(** A repository with the one dataset [points]; a tree id is the index the
    tree was written from. *)
Definition points_repository
  : RepositoryStructure (Tree := unit) (Oid := gmap string IndexEntry)
      (Signature := string) :=
  {| rs_tree := tt;
     iter_at := fun _ => [Examples2.points Examples2.stored_points];
     rs_repo := Examples2.blob_ids;
     default_signature := "user";
     head_target := ∅;
     create_commit := fun call => call_tree call |}.

Definition points_read_tree (t : unit) : gmap string IndexEntry := Examples2.points_index.

Definition unchanged (ds : DatasetStructure (Tree := unit)) : result Diff :=
  Ok Examples2.no_changes.

End Examples5.

(** ** [kart/diff.py]: the commit spec of a diff *)

Module CommitSpec.

Import Py Structure Exc.

Definition is_dot (c : ascii) : bool := Ascii.eqb c ".".

(** [re.split(r"(\.{2,3})", s)]: the text is cut at every run of two or three
    dots, found from the left and taking three where there are three; the
    runs are kept between the pieces.  [cur] is the piece read so far. *)
Fixpoint re_split_dots (cur s : string) : list string :=
  match s with
  | EmptyString => [cur]
  | String c1 s1 =>
      match s1 with
      | String c2 s2 =>
          if is_dot c1 && is_dot c2 then
            match s2 with
            | String c3 s3 =>
                if is_dot c3 then cur :: "..." :: re_split_dots "" s3
                else cur :: ".." :: re_split_dots "" s2
            | EmptyString => cur :: ".." :: re_split_dots "" s2
            end
          else re_split_dots (cur +:+ String c1 "") s1
      | EmptyString => re_split_dots (cur +:+ String c1 "") s1
      end
  end.

(** [s or "HEAD"]. *)
Definition or_HEAD (s : string) : string :=
  match s with
  | EmptyString => "HEAD"
  | _ => s
  end.

Section Repo.

(** The repository, its structures and its working copy are defined outside
    the sources: they are parameters, with the operations called on them. *)
Context {RepoStructure WorkingCopy Oid Tree : Type}.

(** What [repo.structure] is given: a name or an object id. *)
Inductive refish :=
| Ref (name : string)
| Id (id : Oid).

Record KartRepo := {
  structure : refish -> outcome RepoStructure;
  merge_base : Oid -> Oid -> option Oid;
  working_copy : option WorkingCopy;
}.

(** [rs.commit] (as far as it is tested), [rs.id] and [rs.tree]. *)
Variable has_commit : RepoStructure -> bool.
Variable rs_id : RepoStructure -> Oid.
Variable rs_tree : RepoStructure -> Tree.
(** The id as an f-string prints it. *)
Variable show_id : Oid -> string.
(** [working_copy.assert_db_tree_match(tree)]. *)
Variable assert_db_tree_match : WorkingCopy -> Tree -> outcome unit.

Definition not_a_commit (rs : RepoStructure) : exc :=
  UsageError ("The .. operator works on commits, not trees - " +:+ show_id (rs_id rs)
              +:+ " is a tree. (Perhaps try the ... operator)").

Definition no_common_ancestor : exc :=
  InvalidOperationX
    "The .. operator tries to find the common ancestor, but no common ancestor was found. Perhaps try the ... operator."
    None.

Definition get_common_ancestor (repo : KartRepo) (rs1 rs2 : RepoStructure)
  : outcome RepoStructure :=
  if negb (has_commit rs1) then Raises (not_a_commit rs1)
  else if negb (has_commit rs2) then Raises (not_a_commit rs2)
  else
    match merge_base repo (rs_id rs1) (rs_id rs2) with
    | None => Raises no_common_ancestor
    | Some ancestor_id => structure repo (Id ancestor_id)
    end.

(** The branch [else] of [_parse_diff_commit_spec]: one commit, against the
    working copy. *)
Definition against_working_copy (repo : KartRepo) (base : string)
  : outcome (RepoStructure * RepoStructure * option WorkingCopy) :=
  base_rs ← structure repo (Ref base);
  target_rs ← structure repo (Ref "HEAD");
  match working_copy repo with
  | None => Raises (NotFound "No working copy" NO_WORKING_COPY)
  | Some wc =>
      _ ← assert_db_tree_match wc (rs_tree target_rs);
      Returns (base_rs, target_rs, Some wc)
  end.

Definition _parse_diff_commit_spec (repo : KartRepo) (commit_spec : option string)
  : outcome (RepoStructure * RepoStructure * option WorkingCopy) :=
  let commit_spec := or_HEAD (default "" commit_spec) in
  let commit_parts := re_split_dots "" commit_spec in
  match commit_parts with
  | [part0; part1; part2] =>
      base_rs ← structure repo (Ref (or_HEAD part0));
      target_rs ← structure repo (Ref (or_HEAD part2));
      base_rs ← (if String.eqb part1 ".."
                 then get_common_ancestor repo base_rs target_rs
                 else Returns base_rs);
      Returns (base_rs, target_rs, None)
  | part0 :: _ => against_working_copy repo part0
  | [] => Raises (Base IndexError)
  end.

End Repo.

(** A commit name in which [re.split] finds nothing to cut, also when a
    separator is put before or after it. *)
Definition plain (s : string) : bool :=
  negb (Str.contains ".." s)
  && negb (bool_decide (Str.first_char s = Some "."%char))
  && negb (bool_decide (Str.last_char s = Some "."%char)).

Definition is_separator (s : string) : bool :=
  String.eqb s ".." || String.eqb s "...".

(** The pieces and the separators of a split, in turn. *)
Fixpoint pieces (parts : list string) : list string :=
  match parts with
  | [] => []
  | [p] => [p]
  | p :: _ :: rest => p :: pieces rest
  end.

Fixpoint separators (parts : list string) : list string :=
  match parts with
  | _ :: sep :: rest => sep :: separators rest
  | _ => []
  end.

(** The parts put together again. *)
Definition joined (parts : list string) : string :=
  fold_right String.append "" parts.

End CommitSpec.

Module Examples6.

Import Py Structure Exc CommitSpec.

(** A repository whose structures are named by what they were asked for,
    with a working copy, and where the common ancestor of two commits is the
    first. *)
Definition named_repo
  : KartRepo (RepoStructure := string) (WorkingCopy := unit) (Oid := string) :=
  {| structure := fun r => match r with Ref name => Returns name | Id id => Returns id end;
     merge_base := fun a b => Some a;
     working_copy := Some tt |}.

Definition always_commit (rs : string) : bool := true.

Definition the_tree (rs : string) : unit := tt.

Definition tree_matches (wc : unit) (t : unit) : outcome unit := Returns tt.

End Examples6.

(** ** Where the changes of a dataset diff come from *)

Module DiffProvenance.

Import Py Structure DiffSpec.

(** The bucket of [k] holds [x]. *)
Definition holds {V} (d : dict (list V)) (k : string) (x : V) : Prop :=
  exists l, dict_get k d = Some l /\ In x l.

Section Dataset.

Context {Tree : Type}.

(** The datasets [diff] reads the old and the new side from, the dataset it
    reads a modified feature's new value from, the key filter and the deltas
    of the tree diff. *)
Variables (old new other : option (DatasetStructure (Tree := Tree))).
Variable pk_filter : string -> bool.
Variable deltas : list DiffDelta.

(** A deleted path outside the meta namespace, whose key string [k] passes
    the filter, with the feature [f] the old dataset has for it. *)
Definition deleted_in (k : string) (f : Feature) : Prop :=
  exists d o p,
    In d deltas /\ touches_meta d = false /\ status d = GIT_DELTA_DELETED /\
    old = Some o /\ old_file d = Some p /\
    k = str (decode_path_to_1pk o (file_path p)) /\ pk_filter k = true /\
    f = get_feature o (decode_path_to_1pk o (file_path p)) (Some false).

(** The same for an added path and the new dataset. *)
Definition added_in (k : string) (f : Feature) : Prop :=
  exists d n q,
    In d deltas /\ touches_meta d = false /\ status d = GIT_DELTA_ADDED /\
    new = Some n /\ new_file d = Some q /\
    k = str (decode_path_to_1pk n (file_path q)) /\ pk_filter k = true /\
    f = get_feature n (decode_path_to_1pk n (file_path q)) (Some false).

(** A modified path outside the meta namespace, whose old or new key string
    passes the filter: [k] is the old key string, and [v] the old dataset's
    feature with the feature [other] has for the new key. *)
Definition modified_in (k : string) (v : Feature * Feature) : Prop :=
  exists d o n t p q,
    In d deltas /\ touches_meta d = false /\ status d = GIT_DELTA_MODIFIED /\
    old = Some o /\ new = Some n /\ other = Some t /\
    old_file d = Some p /\ new_file d = Some q /\
    k = str (decode_path_to_1pk o (file_path p)) /\
    (pk_filter (str (decode_path_to_1pk o (file_path p))) = true \/
     pk_filter (str (decode_path_to_1pk n (file_path q))) = true) /\
    v = (get_feature o (decode_path_to_1pk o (file_path p)) (Some false),
         get_feature t (decode_path_to_1pk n (file_path q)) (Some false)).

(** A deletion and an addition under the same key string, paired. *)
Definition moved_in (k : string) (v : Feature * Feature) : Prop :=
  deleted_in k (fst v) /\ added_in k (snd v).

(** Candidates that hold nothing but what the deltas say. *)
Definition sound_candidates (c : Candidates) : Prop :=
  (forall h l e, In (h, l) (candidates_del c) -> In e l -> deleted_in (fst e) (snd e)) /\
  (forall h l f, In (h, l) (candidates_ins c) -> In f l -> added_in h f) /\
  (forall k v, In (k, v) (candidates_upd c) -> modified_in k v \/ moved_in k v).

End Dataset.

Section OneSide.

Context {Tree : Type}.
Variable ds : DatasetStructure (Tree := Tree).
Variable pk_filter : string -> bool.

(** The features of the added paths outside the meta namespace whose key
    passes the filter, in the order of the deltas, each with its key string;
    and the same for the deleted paths. *)
Definition added_pairs (deltas : list DiffDelta) : list (string * Feature) :=
  flat_map (fun d =>
    if touches_meta d then []
    else match status d, new_file d with
         | GIT_DELTA_ADDED, Some q =>
             let pk := decode_path_to_1pk ds (file_path q) in
             if pk_filter (str pk) then [(str pk, get_feature ds pk (Some false))]
             else []
         | _, _ => []
         end) deltas.

Definition deleted_pairs (deltas : list DiffDelta) : list (string * Feature) :=
  flat_map (fun d =>
    if touches_meta d then []
    else match status d, old_file d with
         | GIT_DELTA_DELETED, Some p =>
             let pk := decode_path_to_1pk ds (file_path p) in
             if pk_filter (str pk) then [(str pk, get_feature ds pk (Some false))]
             else []
         | _, _ => []
         end) deltas.

(** Outside the meta namespace there are additions only, or deletions only,
    each with its file. *)
Definition only_added (deltas : list DiffDelta) : Prop :=
  Forall (fun d => touches_meta d = true \/
                   (status d = GIT_DELTA_ADDED /\ is_Some (new_file d))) deltas.

Definition only_deleted (deltas : list DiffDelta) : Prop :=
  Forall (fun d => touches_meta d = true \/
                   (status d = GIT_DELTA_DELETED /\ is_Some (old_file d))) deltas.

End OneSide.

End DiffProvenance.

Module Examples7.

Import Py Structure DiffStructs.

(** A dataset whose features are stored under a directory of their own:
    the key of a path is what follows the directory. *)
Definition filed (t : Examples.ex_tree) : DatasetStructure :=
  {| tree := t; path := "filed"; primary_key := "name";
     geom_column_name := None;
     decode_path_to_1pk := fun p => PyStr (substring 23 (String.length p) p);
     encode_1pk_to_path := fun pk => ".sno-table/features/aa/" +:+ str pk;
     encode_feature := fun f =>
       (".sno-table/features/aa/" +:+ str (default PyNone (f !! "name")),
        str (default PyNone (f !! "name")));
     get_feature := fun pk _ => {[ "name" := PyStr (default "" (snd <$> head t)) ]} |}.

Definition filed_before : Examples.ex_tree := [(".sno-table/features/aa/k", "C")].
Definition filed_after : Examples.ex_tree := [(".sno-table/features/bb/k", "D")].

(** The revisions of [Examples3], with a dataset [empty] whose diff is not
    supported. *)
Definition failing_dataset_diff (ds : string) (other : option string) (f : unit)
    (reverse : bool) : result DatasetDiff :=
  if String.eqb ds "empty" then Raise (NotImplementedError GIT_DELTA_TYPECHANGE)
  else Examples3.dataset_diff ds other f reverse.

End Examples7.

(** ** [kart/working_copy.py] *)

Module WC.

Import Py Structure Exc.

Definition nl : string := String (ascii_of_N 10) "".
Definition dq : string := String double_quote "".

Section WorkingCopy.

(** The parts of a working copy, the commits or trees it is reset to and the
    key filters are defined outside the sources. *)
Context {Part Target Filter : Type} `{EqDecision Part}.

(** The keyword arguments [reset] passes on to a part. *)
Record reset_options := {
  repo_key_filter : Filter;
  track_changes_as_dirty : bool;
  rewrite_full : bool;
}.

(** What a working copy does to the world: the lines it prints and the calls
    it makes on its parts, in order.  [PartReset p target None] is the call
    [p.reset(target)], without keyword arguments. *)
Inductive event :=
| Echo (line : string)
| CreateAndInitialise (t : Part)
| PartReset (p : Part) (target : Target) (options : option reset_options).

(** The operations of the repository and of the parts.  What they answer may
    depend on what was done before. *)
Record Externals := {
  (* [TableWorkingCopy.get(repo, allow_uncreated=.., allow_invalid_state=..,
     allow_unconnectable=..)] *)
  table_working_copy_get : bool -> bool -> bool -> list event -> outcome (option Part);
  (* [t.status() & TableWorkingCopyStatus.INITIALISED] *)
  status_initialised : Part -> list event -> bool;
  (* [t.create_and_initialise()] *)
  part_create_and_initialise : Part -> list event -> outcome unit;
  (* [p.reset(target, ...)] *)
  part_reset : Part -> Target -> option reset_options -> list event -> outcome unit;
  (* [p.is_dirty()] and [p.get_tree_id()] *)
  is_dirty : Part -> list event -> outcome bool;
  get_tree_id : Part -> list event -> outcome (option string);
  (* [bool(p)], [t.WORKING_COPY_TYPE_NAME] and [str(p)] *)
  truthy : Part -> bool;
  WORKING_COPY_TYPE_NAME : Part -> string;
  show : Part -> string;
  (* [repo.head_is_unborn] and [repo.is_bare] *)
  head_is_unborn : bool;
  is_bare : bool;
}.

Variable ext : Externals.

(** A [WorkingCopy] object: the attribute [_tabular] once it is set, and
    what was done so far. *)
Record State := {
  _tabular : option (option Part);
  history : list event;
}.

Definition W (A : Type) : Type := State -> outcome A * State.

Definition ret {A} (a : A) : W A := fun s => (Returns a, s).

Definition raise {A} (e : exc) : W A := fun s => (Raises e, s).

Definition seq {A B} (m : W A) (k : A -> W B) : W B :=
  fun s => match m s with
           | (Returns a, s') => k a s'
           | (Raises e, s') => (Raises e, s')
           end.

(** A call whose answer depends on what was done before. *)
Definition ask {A} (f : list event -> outcome A) : W A :=
  fun s => (f (history s), s).

(** A call that is recorded, and then answers. *)
Definition call {A} (ev : event) (f : list event -> outcome A) : W A :=
  fun s => (f (history s),
            {| _tabular := _tabular s; history := history s ++ [ev] |}).

Definition echo (line : string) : W unit :=
  fun s => (Returns tt, {| _tabular := _tabular s; history := history s ++ [Echo line] |}).

Definition set_tabular (t : option Part) : W unit :=
  fun s => (Returns tt, {| _tabular := Some t; history := history s |}).

Fixpoint for_each {A} (l : list A) (body : A -> W unit) : W unit :=
  match l with
  | [] => ret tt
  | x :: l' => seq (body x) (fun _ => for_each l' body)
  end.

(** [get_tabular(allow_uncreated=False, allow_invalid_state=False,
    allow_unconnectable=False)]. *)
Definition get_tabular (allow_uncreated allow_invalid_state allow_unconnectable : bool)
  : W (option Part) :=
  ask (table_working_copy_get ext allow_uncreated allow_invalid_state
         allow_unconnectable).

(** The property [tabular]. *)
Definition tabular : W (option Part) :=
  fun s => match _tabular s with
           | Some t => (Returns t, s)
           | None => seq (get_tabular false false false) (fun t =>
                     seq (set_tabular t) (fun _ => ret t)) s
           end.

(** [parts()]: the parts that are not [None]; there is one kind of part. *)
Definition parts : W (list Part) :=
  seq tabular (fun part =>
  ret (match part with
       | Some p => [p]
       | None => []
       end)).

Definition empty_repository (error_message : string) : string :=
  error_message +:+ "Empty repository." +:+ nl +:+ "  (use " +:+ dq +:+ "kart import"
  +:+ dq +:+ " to add some data)".

Definition bare_repository (error_message : string) : string :=
  error_message +:+ "Repository is " +:+ dq +:+ "bare" +:+ dq
  +:+ ": it has no working copy.".

Definition no_working_copy (error_message : string) : string :=
  error_message +:+ "Repository has no working copy." +:+ nl +:+ "  (use " +:+ dq
  +:+ "kart create-workingcopy" +:+ dq +:+ ")".

(** [assert_exists(error_message=None)]. *)
Definition assert_exists (error_message : option string) : W unit :=
  seq parts (fun ps =>
  if existsb (truthy ext) ps then ret tt
  else
    let error_message :=
      match error_message with
      | None | Some EmptyString => ""
      | Some m => m +:+ ":" +:+ nl
      end in
    if head_is_unborn ext
    then raise (NotFound (empty_repository error_message) NO_DATA)
    else if is_bare ext
    then raise (NotFound (bare_repository error_message) NO_WORKING_COPY)
    else raise (NotFound (no_working_copy error_message) NO_WORKING_COPY)).

Definition default_help_message : string :=
  "Commit these changes (`kart commit`) or discard these changes (`kart restore`) first.".

(** [WorkingCopyPart.check_not_dirty(help_message=None)]. *)
Definition part_check_not_dirty (p : Part) (help_message : option string) : W unit :=
  seq (ask (is_dirty ext p)) (fun dirty =>
  if negb dirty then ret tt
  else
    let help_message :=
      match help_message with
      | None | Some EmptyString => default_help_message
      | Some m => m
      end in
    raise (InvalidOperationX
             ("You have uncommitted changes in your working copy." +:+ nl
              +:+ help_message)
             (Some UNCOMMITTED_CHANGES))).

(** [WorkingCopy.check_not_dirty(help_message=None)]. *)
Definition check_not_dirty (help_message : option string) : W unit :=
  seq parts (fun ps =>
  for_each ps (fun p => part_check_not_dirty p help_message)).

(** The tree a working copy is compared with: [None], a tree id, or an
    object that is peeled to a tree. *)
Inductive expected :=
| NoTree
| TreeId (id : string)
| Object (peeled_hex : outcome string).

(** [WorkingCopyPart.assert_matches_tree(expected_tree)]. *)
Definition part_assert_matches_tree (p : Part) (expected_tree : expected) : W unit :=
  seq (match expected_tree with
       | NoTree => ret None
       | TreeId id => ret (Some id)
       | Object peeled_hex => fun s => (hex ← peeled_hex; Returns (Some hex), s)
       end) (fun expected_tree_id =>
  seq (ask (get_tree_id ext p)) (fun actual_tree_id =>
  if bool_decide (actual_tree_id <> expected_tree_id)
  then raise (WorkingCopyTreeMismatch actual_tree_id expected_tree_id)
  else ret tt)).

(** [WorkingCopy.assert_matches_tree(tree)]. *)
Definition assert_matches_tree (tree : expected) : W unit :=
  seq parts (fun ps =>
  for_each ps (fun p => part_assert_matches_tree p tree)).

(** [create_and_initialise_tabular()]. *)
Definition create_and_initialise_tabular : W bool :=
  seq (get_tabular true false false) (fun t =>
  match t with
  | Some t' =>
      seq (ask (fun h => Returns (status_initialised ext t' h))) (fun initialised =>
      if truthy ext t' && negb initialised then
        seq (echo ("Creating " +:+ WORKING_COPY_TYPE_NAME ext t' +:+ " working copy at "
                   +:+ show ext t' +:+ " ...")) (fun _ =>
        seq (call (CreateAndInitialise t') (part_create_and_initialise ext t')) (fun _ =>
        seq (set_tabular (Some t')) (fun _ =>
        ret true)))
      else ret false)
  | None => ret false
  end).

(** The loop [for part_type in parts_to_create] of [create_parts_if_missing]. *)
Fixpoint create_loop (parts_to_create : list string) (created_parts : list (option Part))
  : W (list (option Part)) :=
  match parts_to_create with
  | [] => ret created_parts
  | part_type :: rest =>
      if negb (String.eqb part_type "tabular") then raise AssertionError
      else
        seq create_and_initialise_tabular (fun created =>
        if created then
          seq tabular (fun t => create_loop rest (created_parts ++ [t]))
        else create_loop rest created_parts)
  end.

(** [p.reset(reset_to)] for a created part; a part that is [None] has no
    [reset]. *)
Definition reset_created (reset_to : Target) (p : option Part) : W unit :=
  match p with
  | Some p' => call (PartReset p' reset_to None) (part_reset ext p' reset_to None)
  | None => raise (Base AttributeError)
  end.

(** [create_parts_if_missing(parts_to_create, reset_to=DONT_RESET)];
    [reset_to] is [None] for [DONT_RESET]. *)
Definition create_parts_if_missing (parts_to_create : list string)
    (reset_to : option Target) : W (list (option Part)) :=
  seq (create_loop parts_to_create []) (fun created_parts =>
  seq (match reset_to with
       | Some target => for_each created_parts (reset_created target)
       | None => ret tt
       end) (fun _ =>
  ret created_parts)).

(** [reset(commit_or_tree, create_parts_if_missing=(), quiet=False,
    repo_key_filter=.., track_changes_as_dirty=False, rewrite_full=False)]. *)
Definition reset (commit_or_tree : Target) (create_parts : list string) (quiet : bool)
    (options : reset_options) : W unit :=
  seq (match create_parts with
       | [] => ret []
       | _ => create_parts_if_missing create_parts (Some commit_or_tree)
       end) (fun created_parts =>
  seq parts (fun ps =>
  for_each ps (fun p =>
    if bool_decide (Some p ∈ created_parts) then ret tt
    else
      seq (if negb quiet then echo ("Updating " +:+ show ext p +:+ " ...") else ret tt)
        (fun _ =>
      call (PartReset p commit_or_tree (Some options))
        (part_reset ext p commit_or_tree (Some options)))))).

End WorkingCopy.

(** The calls of [reset] on parts among some events. *)
Definition resets {Part Target Filter : Type}
    (events : list (event (Part := Part) (Target := Target) (Filter := Filter)))
  : list (event (Part := Part) (Target := Target) (Filter := Filter)) :=
  List.filter (fun ev => match ev with PartReset _ _ _ => true | _ => false end) events.

Definition creations {Part Target Filter : Type}
    (events : list (event (Part := Part) (Target := Target) (Filter := Filter)))
  : list Part :=
  flat_map (fun ev => match ev with CreateAndInitialise t => [t] | _ => [] end) events.

End WC.

Module Examples8.

Import Py Structure Exc WC.

Definition was_created (h : list (event (Part := string) (Target := string) (Filter := unit)))
  : bool :=
  existsb (fun ev => match ev with CreateAndInitialise _ => true | _ => false end) h.

(** A repository configured for a working copy [wc.gpkg], which exists once
    it has been created, is never dirty and has no tree id yet. *)
Definition configured : Externals (Part := string) (Target := string) (Filter := unit) :=
  {| table_working_copy_get := fun allow_uncreated _ _ h =>
       Returns (if allow_uncreated || was_created h then Some "wc.gpkg" else None);
     status_initialised := fun _ h => was_created h;
     part_create_and_initialise := fun _ _ => Returns tt;
     part_reset := fun _ _ _ _ => Returns tt;
     is_dirty := fun _ _ => Returns false;
     get_tree_id := fun _ _ => Returns None;
     truthy := fun _ => true;
     WORKING_COPY_TYPE_NAME := fun _ => "GPKG";
     show := fun p => p;
     head_is_unborn := false;
     is_bare := false |}.

Definition fresh : State (Part := string) (Target := string) (Filter := unit) :=
  {| _tabular := None; history := [] |}.

Definition match_all : reset_options (Filter := unit) :=
  {| repo_key_filter := tt; track_changes_as_dirty := false; rewrite_full := false |}.

End Examples8.

(** ** [sno/structure.py]: finding the datasets of a tree *)

Module Datasets.

Import Py Structure Exc Dataset.

(** The objects of a [pygit2.Tree]: blobs, trees with their named entries in
    order, and objects of another type. *)
#[local] Unset Elimination Schemes.
Inductive git_object :=
| Blob (data : string)
| Tree (entries : list (string * git_object))
| Other (type_str : string).
#[local] Set Elimination Schemes.

Definition type_str (o : git_object) : string :=
  match o with
  | Blob _ => "blob"
  | Tree _ => "tree"
  | Other t => t
  end.

(** The trees below an entry list, counted with their own trees. *)
Fixpoint trees_in (o : git_object) : nat :=
  match o with
  | Tree entries => S (list_sum (map (fun e => trees_in (snd e)) entries))
  | _ => 0
  end.

(** [path.split("/")]. *)
Fixpoint split_slash (cur s : string) : list string :=
  match s with
  | EmptyString => [cur]
  | String c s' =>
      if Ascii.eqb c "/" then cur :: split_slash "" s'
      else split_slash (cur +:+ String c "") s'
  end.

(** [tree[path]]: the entry at a path of names separated by slashes, [None]
    where [pygit2] raises [KeyError]. *)
Fixpoint descend (entries : list (string * git_object)) (names : list string)
  : option git_object :=
  match names with
  | [] => None
  | name :: rest =>
      match dict_get name entries, rest with
      | Some o, [] => Some o
      | Some (Tree entries'), _ => descend entries' rest
      | _, _ => None
      end
  end.

Definition tree_getitem (entries : list (string * git_object)) (path : string)
  : option git_object :=
  descend entries (split_slash "" path).

(** What [instantiate] and the loops around it raise.  [IntegrityError] and
    [UnicodeDecodeError] are subclasses of [ValueError]. *)
Inductive error :=
| TypeError_
| AttributeError_
| KeyError_ (message : string)
| IntegrityError (message : string)
| UnicodeDecodeError
| ValueError_ (message : string).

Definition is_IntegrityError (e : error) : bool :=
  match e with IntegrityError _ => true | _ => false end.

Definition is_ValueError (e : error) : bool :=
  match e with
  | IntegrityError _ | UnicodeDecodeError | ValueError_ _ => true
  | _ => false
  end.

(** A name as git has it: not empty, without a slash. *)
Definition good_name (name : string) : Prop :=
  name <> "" /\ string_mem "/" name = false.

(** A tree as git has it: within a tree and the trees below it, every entry
    has a good name and no two entries have the same name. *)
Fixpoint well_named (o : git_object) : Prop :=
  match o with
  | Tree entries =>
      NoDup (map fst entries) /\
      fold_right (fun e rest => good_name (fst e) /\ well_named (snd e) /\ rest)
        True entries
  | _ => True
  end.

(** ["/".join(names)]. *)
Fixpoint join_slash (names : list string) : string :=
  match names with
  | [] => ""
  | [name] => name
  | name :: names' => name +:+ "/" +:+ join_slash names'
  end.

(** The trees in the trees that wait to be examined. *)
Definition waiting (to_examine : list (string * list (string * git_object))) : nat :=
  list_sum (map (fun t => trees_in (Tree (snd t))) to_examine).

(** A dataset as [version_klass(tree, path)] makes it: its class, its tree
    and the path and name [__init__] sets. *)
Record Instance := {
  klass : VersionClass;
  instance_tree : list (string * git_object);
  instance_path : string;
  instance_name : string;
}.

Definition new_instance (version_klass : VersionClass)
    (tree : list (string * git_object)) (path : string) : Instance :=
  {| klass := version_klass; instance_tree := tree;
     instance_path := init_path path; instance_name := init_name path |}.

(** [version and version.startswith(specifier)]. *)
Definition version_matches (version : pyval) (specifier : string) : sum error bool :=
  match version with
  | PyNone => inr false
  | PyStr EmptyString | PyBytes EmptyString => inr false
  | PyStr s => inr (startswith s specifier)
  | PyInt n => if Z.eqb n 0 then inr false else inl AttributeError_
  | PyBytes _ => inl TypeError_
  end.

Section Versions.

(** [cls.all_versions()], [blob.data.decode("utf8")] ([None] where it raises
    [UnicodeDecodeError]) and [json.loads(blob.data).get("version", None)]
    ([None] where one of the two calls raises). *)
Variable all_versions : list VersionClass.
Variable decode_utf8 : string -> option string.
Variable json_version : string -> option pyval.

(** One round of the loop [for version_klass in cls.all_versions()]: the
    instance, an exception, or [None] after [continue]. *)
Definition try_version (tree : list (string * git_object)) (path : string)
    (version_klass : VersionClass) : option (sum error Instance) :=
  match tree_getitem tree (VERSION_PATH version_klass) with
  | None => None
  | Some (Blob data) =>
      let version :=
        if Nat.leb (String.length data) 3 then
          match decode_utf8 data with
          | Some s => inr (PyStr s)
          | None => inl UnicodeDecodeError
          end
        else
          match json_version data with
          | Some v => inr v
          | None =>
              inl (IntegrityError
                     (class_name version_klass
                      +:+ ": Couldn't load version file from: " +:+ path +:+ "/"
                      +:+ VERSION_PATH version_klass))
          end in
      match version with
      | inl e => Some (inl e)
      | inr v =>
          match version_matches v (VERSION_SPECIFIER version_klass) with
          | inl e => Some (inl e)
          | inr true => Some (inr (new_instance version_klass tree path))
          | inr false => None
          end
      end
  | Some blob =>
      Some (inl (IntegrityError
                   (class_name version_klass +:+ ": " +:+ path +:+ "/"
                    +:+ VERSION_PATH version_klass +:+ " isn't a blob ("
                    +:+ type_str blob +:+ ")")))
  end.

Fixpoint instantiate_loop (tree : list (string * git_object)) (path : string)
    (versions : list VersionClass) : sum error Instance :=
  match versions with
  | [] =>
      inl (ValueError_
             (path +:+ ": Couldn't find any Dataset Structure version that matched"))
  | version_klass :: versions' =>
      match try_version tree path version_klass with
      | Some r => r
      | None => instantiate_loop tree path versions'
      end
  end.

(** [DatasetStructure.instantiate(tree, path)]. *)
Definition instantiate (tree : git_object) (path : string) : sum error Instance :=
  match tree with
  | Tree entries => instantiate_loop entries path all_versions
  | _ => inl TypeError_
  end.

(** [get_at(path, tree)] and [get(path)] with [self.tree]. *)
Definition get_at (path : string) (tree : list (string * git_object))
  : sum error Instance :=
  match tree_getitem tree path with
  | None => inl (KeyError_ path)
  | Some (Tree entries) => instantiate (Tree entries) path
  | Some _ => inl (KeyError_ ("No valid dataset found at '" +:+ path +:+ "'"))
  end.

Definition get (self_tree : list (string * git_object)) (path : string)
  : sum error (option Instance) :=
  match get_at path self_tree with
  | inr ds => inr (Some ds)
  | inl (KeyError_ _) => inr None
  | inl e => inl e
  end.

(** [te_path]: the path of an entry of the tree at [path]. *)
Definition te_path (path name : string) : string :=
  match path with
  | EmptyString => name
  | _ => path +:+ "/" +:+ name
  end.

(** The loop [for o in tree] of [iter_at] on the tree at [path]: the datasets
    it yields, the trees it appends to [to_examine], and the exception that
    ends it, if any. *)
Fixpoint examine (path : string) (tree : list (string * git_object))
  : list Instance * list (string * list (string * git_object)) * option error :=
  match tree with
  | [] => ([], [], None)
  | (name, Tree entries) :: tree' =>
      match instantiate (Tree entries) (te_path path name) with
      | inr ds =>
          let '(yielded, more, e) := examine path tree' in (ds :: yielded, more, e)
      | inl e =>
          if is_IntegrityError e then examine path tree'
          else if is_ValueError e then
            let '(yielded, more, e') := examine path tree' in
            (yielded, (te_path path name, entries) :: more, e')
          else ([], [], Some e)
      end
  | _ :: tree' => examine path tree'
  end.

(** The loop [while to_examine] of [iter_at], for a number of rounds. *)
Fixpoint examine_all (rounds : nat)
    (to_examine : list (string * list (string * git_object)))
  : option (list Instance * option error) :=
  match to_examine with
  | [] => Some ([], None)
  | (path, tree) :: to_examine' =>
      match rounds with
      | O => None
      | S rounds' =>
          match examine path tree with
          | (yielded, _, Some e) => Some (yielded, Some e)
          | (yielded, more, None) =>
              match examine_all rounds' (to_examine' ++ more) with
              | Some (yielded', e) => Some (yielded ++ yielded', e)
              | None => None
              end
          end
      end
  end.

(** [iter_at(tree)]: the datasets yielded and the exception that ends the
    iteration, if any; there are no more rounds than trees. *)
Definition iter_at (tree : list (string * git_object))
  : option (list Instance * option error) :=
  examine_all (trees_in (Tree tree)) [("", tree)].

(** A dataset of a tree at [path]: a tree among the entries that
    [instantiate] accepts, or a dataset of a tree among them that
    [instantiate] rejects with a [ValueError] other than [IntegrityError]. *)
Inductive dataset_of : string -> list (string * git_object) -> Instance -> Prop :=
| dataset_here path tree name entries ds :
    In (name, Tree entries) tree ->
    instantiate (Tree entries) (te_path path name) = inr ds ->
    dataset_of path tree ds
| dataset_below path tree name entries e ds :
    In (name, Tree entries) tree ->
    instantiate (Tree entries) (te_path path name) = inl e ->
    is_IntegrityError e = false -> is_ValueError e = true ->
    dataset_of (te_path path name) entries ds ->
    dataset_of path tree ds.

End Versions.

End Datasets.

Module Examples9.

Import Py Structure Exc Dataset Datasets.

Definition Dataset1 : VersionClass :=
  {| class_name := "Dataset1"; VERSION_IMPORT := "1.0";
     VERSION_PATH := ".sno-table/version"; VERSION_SPECIFIER := "1." |}.

Definition versioned (version : string) : list (string * git_object) :=
  [(".sno-table", Tree [("version", Blob version)])].

(** A repository tree with a file, the dataset [points] and, in the
    directory [layers], the dataset [roads]. *)
Definition repository : list (string * git_object) :=
  [("README", Blob "hi");
   ("points", Tree (versioned "1.0"));
   ("layers", Tree [("roads", Tree (versioned "1.1"))])].

Definition roads : Instance := new_instance Dataset1 (versioned "1.1") "layers/roads".

Definition points_dataset : Instance := new_instance Dataset1 (versioned "1.0") "points".

Definition no_json (data : string) : option pyval := None.

End Examples9.

(** * Properties *)

(** ** Dictionaries *)

Module DictFacts.

Lemma eqb_refl' (k : string) : String.eqb k k = true.
Proof. apply String.eqb_refl. Qed.

Lemma eqb_ne (k k' : string) : k <> k' -> String.eqb k k' = false.
Proof. intros H. by apply String.eqb_neq. Qed.

Lemma dict_get_app {V} (k : string) (d1 d2 : dict V) :
  dict_get k (d1 ++ d2) =
  match dict_get k d1 with Some v => Some v | None => dict_get k d2 end.
Proof.
  induction d1 as [|[k' v] d1 IH]; simpl; [done|].
  destruct (String.eqb k k'); [done|apply IH].
Qed.

Lemma dict_get_None {V} (k : string) (d : dict V) :
  dict_get k d = None <-> ~ In k (keys d).
Proof.
  induction d as [|[k' v] d IH]; simpl; [tauto|].
  destruct (String.eqb_spec k k') as [->|Hne]; split; intros H.
  - discriminate.
  - exfalso. apply H. by left.
  - intros [Heq|Hin]; [congruence|]. by apply IH.
  - apply IH. intros Hin. apply H. by right.
Qed.

Lemma dict_get_Some_In {V} (k : string) (v : V) (d : dict V) :
  dict_get k d = Some v -> In (k, v) d.
Proof.
  induction d as [|[k' v'] d IH]; simpl; [done|].
  destruct (String.eqb_spec k k') as [->|Hne].
  - intros [= ->]. by left.
  - intros H. right. by apply IH.
Qed.

Lemma dict_mem_true {V} (k : string) (d : dict V) :
  dict_mem k d = true <-> In k (keys d).
Proof.
  unfold dict_mem. destruct (dict_get k d) eqn:E.
  - split; [|done]. intros _. apply dict_get_Some_In in E.
    apply in_map_iff. by exists (k, v).
  - apply dict_get_None in E. split; [done|tauto].
Qed.

Lemma dict_mem_false {V} (k : string) (d : dict V) :
  dict_mem k d = false <-> ~ In k (keys d).
Proof.
  rewrite <- dict_mem_true. destruct (dict_mem k d); split; congruence.
Qed.

Lemma dict_set_absent {V} (k : string) (v : V) (d : dict V) :
  ~ In k (keys d) -> dict_set k v d = d ++ [(k, v)].
Proof.
  induction d as [|[k' v'] d IH]; simpl; [done|]. intros H.
  rewrite eqb_ne by (intros ->; apply H; by left).
  f_equal. apply IH. intros Hin. apply H. by right.
Qed.

Lemma dict_set_middle {V} (k : string) (v v' : V) (d1 d2 : dict V) :
  ~ In k (keys d1) -> dict_set k v (d1 ++ (k, v') :: d2) = d1 ++ (k, v) :: d2.
Proof.
  induction d1 as [|[k1 v1] d1 IH]; simpl; intros H.
  - by rewrite eqb_refl'.
  - rewrite eqb_ne by (intros ->; apply H; by left).
    f_equal. apply IH. intros Hin. apply H. by right.
Qed.

Lemma dict_del_middle {V} (k : string) (v' : V) (d1 d2 : dict V) :
  ~ In k (keys d1) -> dict_del k (d1 ++ (k, v') :: d2) = d1 ++ d2.
Proof.
  induction d1 as [|[k1 v1] d1 IH]; simpl; intros H.
  - by rewrite eqb_refl'.
  - rewrite eqb_ne by (intros ->; apply H; by left).
    f_equal. apply IH. intros Hin. apply H. by right.
Qed.

Lemma dict_get_middle {V} (k : string) (v : V) (d1 d2 : dict V) :
  ~ In k (keys d1) -> dict_get k (d1 ++ (k, v) :: d2) = Some v.
Proof.
  intros H. rewrite dict_get_app. apply dict_get_None in H. rewrite H.
  simpl. by rewrite eqb_refl'.
Qed.

Lemma dict_get_set {V} (k k' : string) (v : V) (d : dict V) :
  dict_get k' (dict_set k v d) = if String.eqb k' k then Some v else dict_get k' d.
Proof.
  induction d as [|[k1 v1] d IH]; simpl.
  - done.
  - destruct (String.eqb_spec k k1) as [->|Hne]; simpl.
    + by destruct (String.eqb k' k1).
    + destruct (String.eqb_spec k' k1) as [->|Hne'].
      * by rewrite eqb_ne.
      * apply IH.
Qed.

Lemma keys_dict_set {V} (k : string) (v : V) (d : dict V) :
  keys (dict_set k v d) = if dict_mem k d then keys d else keys d ++ [k].
Proof.
  unfold dict_mem. induction d as [|[k1 v1] d IH]; simpl; [done|].
  destruct (String.eqb k k1) eqn:E; simpl; [done|].
  rewrite IH. by destruct (dict_get k d).
Qed.

Lemma NoDup_keys_set {V} (k : string) (v : V) (d : dict V) :
  NoDup (keys d) -> NoDup (keys (dict_set k v d)).
Proof.
  intros H. rewrite keys_dict_set. destruct (dict_mem k d) eqn:E; [done|].
  apply dict_mem_false in E. apply NoDup_app.
  split; [done|]. split; [|apply NoDup_singleton].
  intros x Hx ->%list_elem_of_singleton. apply E. by apply list_elem_of_In.
Qed.

End DictFacts.

(** ** [DatasetStructure.diff]: meta paths and unsupported change types *)

Module DiffFacts.

Import Structure DiffSpec DictFacts.

Section Dataset.

Context {Tree : Type}.
Variable diff_to_tree : Tree -> option Tree -> bool -> list DiffDelta.
Abbreviation DS := (DatasetStructure (Tree := Tree)).

Implicit Types (old new other : option DS) (c : Candidates) (d : DiffDelta).

Lemma diff_delta_meta old new other pk_filter c d :
  touches_meta d = true -> diff_delta old new other pk_filter c d = Ok c.
Proof.
  unfold touches_meta, diff_delta. intros H.
  destruct (file_under_meta (old_file d)); [done|].
  simpl in H. by rewrite H.
Qed.

Lemma diff_deltas_skip_meta old new other pk_filter ds c :
  diff_deltas old new other pk_filter ds c =
  diff_deltas old new other pk_filter
    (List.filter (fun d => negb (touches_meta d)) ds) c.
Proof.
  revert c. induction ds as [|d ds IH]; intros c; simpl; [done|].
  destruct (touches_meta d) eqn:E; simpl.
  - rewrite diff_delta_meta by done. simpl. apply IH.
  - destruct (diff_delta old new other pk_filter c d); simpl; [apply IH|done].
Qed.

(** A delta that is not under the meta namespace and has an unsupported
    status raises [NotImplementedError]. *)
Lemma diff_delta_unsupported old new other pk_filter c d :
  touches_meta d = false -> supported (status d) = false ->
  diff_delta old new other pk_filter c d = Raise (NotImplementedError (status d)).
Proof.
  unfold touches_meta, diff_delta. intros Hm Hs.
  apply orb_false_iff in Hm as [-> ->].
  by destruct (status d).
Qed.

(** What a single delta can raise. *)
Lemma diff_delta_raise old new other pk_filter c d e :
  diff_delta old new other pk_filter c d = Raise e ->
  (e = AttributeError /\
   (old = None \/ new = None \/ other = None \/ old_file d = None \/ new_file d = None))
  \/ (touches_meta d = false /\ supported (status d) = false
      /\ e = NotImplementedError (status d)).
Proof.
  unfold diff_delta, touches_meta.
  destruct (file_under_meta (old_file d)); [done|].
  destruct (file_under_meta (new_file d)); [done|].
  destruct (status d) eqn:Es; simpl;
    try (intros [= <-]; right; by repeat split).
  all: repeat match goal with
    | |- context [deref ?o] => destruct o; simpl
    | |- context [path_of ?o] => destruct o; simpl
    | |- context [if ?b then _ else _] => destruct b; simpl
    end; try done; intros [= <-]; left; naive_solver.
Qed.

Lemma diff_deltas_unsupported old new other pk_filter ds c d :
  In d ds -> touches_meta d = false -> supported (status d) = false ->
  exists e, diff_deltas old new other pk_filter ds c = Raise e.
Proof.
  revert c. induction ds as [|d' ds IH]; intros c; simpl; [done|].
  intros [->|Hin] Hm Hs.
  - rewrite diff_delta_unsupported by done. by eexists.
  - destruct (diff_delta old new other pk_filter c d') as [c'|e]; simpl.
    + by apply IH.
    + by eexists.
Qed.

Lemma diff_deltas_raise old new other pk_filter ds c e :
  diff_deltas old new other pk_filter ds c = Raise e ->
  exists d c', In d ds /\ diff_delta old new other pk_filter c' d = Raise e.
Proof.
  revert c. induction ds as [|d ds IH]; intros c; simpl; [done|].
  destruct (diff_delta old new other pk_filter c d) as [c'|e'] eqn:E; simpl.
  - intros H. destruct (IH _ H) as (d' & c'' & ? & ?). exists d', c''. auto.
  - intros [= ->]. exists d, c. auto.
Qed.

Lemma diff_raise_deltas (self : DS) other pk_filter (reverse : bool) e :
  diff_deltas (if reverse then other else Some self)
    (if reverse then Some self else other) other pk_filter
    (diff_to_tree (tree self) (tree <$> other) reverse) no_candidates = Raise e ->
  diff diff_to_tree self other pk_filter reverse = Raise e.
Proof.
  unfold diff, diff_candidates. destruct reverse; simpl; by intros ->.
Qed.

(** C6: every changed path whose old path or new path lies under the meta
    namespace is excluded from the feature diff: [diff] returns what it
    would return had the tree diff not reported these paths at all, so no
    meta path contributes an insert, an update or a delete. *)
Theorem meta_paths_excluded (self : DS) other pk_filter (reverse : bool) :
  diff diff_to_tree self other pk_filter reverse =
  diff (fun t o swap =>
          List.filter (fun d => negb (touches_meta d)) (diff_to_tree t o swap))
    self other pk_filter reverse.
Proof.
  unfold diff, diff_candidates.
  destruct reverse; by rewrite diff_deltas_skip_meta.
Qed.

(** C7, as amended: a delta that is not under the meta namespace and whose
    change type is not added, deleted or modified makes [diff] raise instead
    of returning a diff.  The exception is the [NotImplementedError] of such a
    delta; only a delta without a file, or a missing dataset, can raise
    something else ([AttributeError]) before it. *)
Theorem unsupported_change_type_fails (self : DS) other pk_filter (reverse : bool) d :
  In d (diff_to_tree (tree self) (tree <$> other) reverse) ->
  touches_meta d = false ->
  supported (status d) = false ->
  exists e,
    diff diff_to_tree self other pk_filter reverse = Raise e /\
    (e = AttributeError \/
     exists d', In d' (diff_to_tree (tree self) (tree <$> other) reverse) /\
       touches_meta d' = false /\ supported (status d') = false /\
       e = NotImplementedError (status d')) /\
    (is_Some other ->
     Forall (fun d' => is_Some (old_file d') /\ is_Some (new_file d'))
       (diff_to_tree (tree self) (tree <$> other) reverse) ->
     e <> AttributeError).
Proof.
  intros Hin Hm Hs.
  set (old := if reverse then other else Some self).
  set (new := if reverse then Some self else other).
  destruct (diff_deltas_unsupported old new other pk_filter _ no_candidates d Hin Hm Hs)
    as [e He].
  exists e. split; [by apply diff_raise_deltas|].
  destruct (diff_deltas_raise _ _ _ _ _ _ _ He) as (d' & c' & Hin' & Hd').
  apply diff_delta_raise in Hd'. split.
  - destruct Hd' as [[-> _]|(? & ? & ->)]; [by left|right; by exists d'].
  - intros [o ->] Hall. rewrite Forall_forall in Hall.
    destruct (Hall d') as [[f Hf] [g Hg]]; [by apply list_elem_of_In|].
    destruct Hd' as [[_ Hnone]|(_ & _ & ->)]; [|done].
    subst old new.
    destruct reverse, Hnone as [?|[?|[?|[?|?]]]]; congruence.
Qed.

End Dataset.

(** C7: a type change on a path under the meta namespace is skipped before
    the change type is looked at: [diff] returns an empty diff. *)
Lemma unsupported_change_type_under_meta_ignored :
  let d := Examples2.typechange ".sno-table/meta/schema.json" in
  In d (Examples2.report d tt None false) /\
  supported (status d) = false /\
  diff (Examples2.report d) (Examples2.points []) None UNFILTERED false
  = Ok Examples2.no_changes.
Proof. simpl. split; [by left|]. split; reflexivity. Qed.

Lemma unsupported_change_type_fails_witness :
  let d := Examples2.typechange ".sno-table/features/7" in
  exists e,
    diff (Examples2.report d) (Examples2.points []) (Some (Examples2.points []))
      UNFILTERED false = Raise e /\
    (e = AttributeError \/
     exists d', In d' [d] /\
       touches_meta d' = false /\ supported (status d') = false /\
       e = NotImplementedError (status d')) /\
    (is_Some (Some (Examples2.points [])) ->
     Forall (fun d' => is_Some (old_file d') /\ is_Some (new_file d')) [d] ->
     e <> AttributeError).
Proof.
  intros d.
  apply (unsupported_change_type_fails (Examples2.report d) (Examples2.points [])
           (Some (Examples2.points [])) UNFILTERED false d).
  - simpl. by left.
  - reflexivity.
  - reflexivity.
Defined.

End DiffFacts.

(** ** [DatasetStructure.write_index] *)

Module WriteIndexFacts.

Import Structure ApplySpec DictFacts.

Section Dataset.

Context {Tree : Type}.
Variable self : DatasetStructure (Tree := Tree).
Variable repo : Repo.

Abbreviation pk_field := (primary_key self).

Lemma after_after s idx out idx' out' :
  after (after s idx out) idx' out' = after s idx' (out ++ out').
Proof.
  unfold after; simpl. f_equal.
  - by rewrite app_assoc.
  - destruct out, out'; simpl; by rewrite ?orb_true_r, ?orb_false_r.
Qed.

Lemma after_nil s : after s (index s) [] = s.
Proof.
  destruct s. unfold after; simpl. by rewrite app_nil_r, orb_false_r.
Qed.

Lemma for_each_run {A} (body : A -> M unit) (mk : A -> delta) (items : list A) :
  Forall (steps self repo body mk) items ->
  forall s, exists idx' out,
    run self repo (index s) (map mk items) idx' out /\
    for_each items body s = (Ok tt, after s idx' out).
Proof.
  induction 1 as [|x items Hx _ IH]; intros s; simpl.
  - exists (index s), []. split; [constructor|]. by rewrite after_nil.
  - unfold seq. destruct (Hx s) as [(idx1 & Ha & ->)|(line & Hc & ->)].
    + destruct (IH (after s idx1 [])) as (idx' & out & Hrun & ->).
      exists idx', out. split; [by econstructor|]. by rewrite after_after.
    + destruct (IH (after s (index s) [line])) as (idx' & out & Hrun & ->).
      exists idx', (line :: out). split; [by econstructor|].
      by rewrite after_after.
Qed.

Lemma run_app idx ds idx' out ds' idx'' out' :
  run self repo idx ds idx' out -> run self repo idx' ds' idx'' out' ->
  run self repo idx (ds ++ ds') idx'' (out ++ out').
Proof.
  induction 1; simpl; intros H'; [done|..].
  - eapply run_applied; eauto.
  - eapply run_reported; eauto.
Qed.

Lemma write_delete_steps (item : string * Feature) :
  has_key self (snd item) ->
  steps self repo (write_delete self pk_field) (fun item => Delete (snd item)) item.
Proof.
  intros [pk Hpk] s. unfold write_delete, seq, lift, index_contains, getitem.
  rewrite Hpk. simpl.
  destruct (index s !! encode_1pk_to_path self pk) as [e|] eqn:E.
  - left. eexists. split; [by econstructor|].
    rewrite bool_decide_true by done. simpl. unfold index_remove, after.
    simpl. by rewrite app_nil_r, orb_false_r.
  - right. eexists. split; [by econstructor|].
    rewrite bool_decide_false by (by intros [? ?]). simpl.
    unfold set_conflicts, echo, after, says; simpl.
    by rewrite orb_true_r.
Qed.

Lemma write_insert_steps (new : Feature) :
  has_key self new ->
  steps self repo (write_insert self repo pk_field) Insert new.
Proof.
  intros [pk Hpk] s. unfold write_insert, seq, lift, index_contains, getitem.
  rewrite Hpk. simpl.
  destruct (encode_feature self new) as [p data] eqn:Eenc.
  destruct (index s !! p) as [e|] eqn:E.
  - right. eexists. split; [eapply insert_existing; [done|by rewrite Eenc]|].
    rewrite bool_decide_true by done. simpl.
    unfold set_conflicts, echo, after, says; simpl.
    by rewrite orb_true_r.
  - left. eexists. split; [eapply apply_insert; [done|by rewrite Eenc]|].
    rewrite bool_decide_false by (by intros [? ?]). simpl.
    unfold index_add, after, written. rewrite Eenc. simpl.
    by rewrite app_nil_r, orb_false_r.
Qed.

Lemma compared_features_ok (actual old : Feature) :
  has_geometry_of self actual -> has_geometry_of self old ->
  compared_features (geom_column_name self) actual old
  = Ok (without_geometry self actual, without_geometry self old).
Proof.
  unfold has_geometry_of, compared_features, without_geometry, pop.
  intros Ha Ho. destruct (truthy_name (geom_column_name self)) as [g|]; [|done].
  destruct (Ha g) as [va ->]; [done|]. destruct (Ho g) as [vo ->]; [done|]. done.
Qed.

Lemma write_update_steps (item : string * (Feature * Feature)) :
  has_key self (fst (snd item)) ->
  has_geometry_of self (fst (snd item)) ->
  (forall pk, fst (snd item) !! pk_field = Some pk ->
              has_geometry_of self (get_feature self pk None)) ->
  steps self repo (write_update self repo pk_field (geom_column_name self))
    (fun item => Update (fst (snd item)) (snd (snd item))) item.
Proof.
  destruct item as [k [old new]]; simpl. intros [pk Hpk] Hgo Hga s.
  unfold write_update, seq, lift, index_contains, getitem. simpl.
  rewrite Hpk. simpl.
  destruct (index s !! encode_1pk_to_path self pk) as [e|] eqn:E.
  - rewrite bool_decide_true by done. simpl.
    rewrite compared_features_ok by auto. simpl.
    destruct (decide (without_geometry self (get_feature self pk None)
                      = without_geometry self old)) as [Heq|Hne].
    + left. eexists. split; [by eapply apply_update|].
      rewrite bool_decide_false by (by intros ?). simpl.
      destruct (encode_feature self new) as [p data] eqn:Eenc.
      unfold index_add, after, written. rewrite Eenc. simpl.
      by rewrite app_nil_r, orb_false_r.
    + right. eexists. split; [by eapply update_changed|].
      rewrite bool_decide_true by done. simpl.
      unfold set_conflicts, echo, after, says; simpl.
      by rewrite orb_true_r.
  - right. eexists. split; [by eapply update_nonexistent|].
    rewrite bool_decide_false by (by intros [? ?]). simpl.
    unfold set_conflicts, echo, after, says; simpl.
    by rewrite orb_true_r.
Qed.

Lemma truthy_name_Some (g : string) : g <> "" -> truthy_name (Some g) = Some g.
Proof. by destruct g. Qed.

Lemma applies_conflict_exclusive idx d idx' line :
  applies self repo idx d idx' -> conflict self idx d line -> False.
Proof.
  destruct 1; inversion 1; simplify_eq; try congruence;
    repeat match goal with H : is_Some _ |- _ => destruct H end; congruence.
Qed.

Lemma applies_functional idx d idx1 idx2 :
  applies self repo idx d idx1 -> applies self repo idx d idx2 -> idx1 = idx2.
Proof. destruct 1; inversion 1; by simplify_eq. Qed.

Lemma conflict_functional idx d line1 line2 :
  conflict self idx d line1 -> conflict self idx d line2 -> line1 = line2.
Proof.
  destruct 1; inversion 1; simplify_eq; try done;
    repeat match goal with H : is_Some _ |- _ => destruct H end; congruence.
Qed.

Lemma run_deterministic idx ds idx1 out1 idx2 out2 :
  run self repo idx ds idx1 out1 -> run self repo idx ds idx2 out2 ->
  idx1 = idx2 /\ out1 = out2.
Proof.
  intros H. revert idx2 out2. induction H; inversion 1; subst.
  - done.
  - match goal with H1 : applies _ _ idx d _, H2 : applies _ _ idx d _ |- _ =>
      pose proof (applies_functional _ _ _ _ H1 H2) end. subst. by apply IHrun.
  - exfalso. eauto using applies_conflict_exclusive.
  - exfalso. eauto using applies_conflict_exclusive.
  - match goal with H1 : conflict _ idx d _, H2 : conflict _ idx d _ |- _ =>
      pose proof (conflict_functional _ _ _ _ H1 H2) end. subst.
    destruct (IHrun _ _ ltac:(eassumption)) as [-> ->]. done.
Qed.

(** C3: [write_index] goes through every delete, insert and update of the
    diff, whether or not earlier ones conflicted: each delta that conflicts
    (a delete or an update of a feature whose path is not in the index, an
    insert of a feature whose path is in the index, an update whose stored
    feature is not the expected old one) is reported with one line and leaves
    the index alone, each other delta is applied.  At the end
    [InvalidOperation] with [PATCH_DOES_NOT_APPLY] is raised, once, if and
    only if a conflict was reported.  The diff has no meta changes and its
    features have the columns that are read. *)
Theorem apply_conflicts_batched (d : Diff) (idx : gmap string IndexEntry) :
  meta d = [] ->
  well_formed self d ->
  exists idx' out,
    run self repo idx (deltas_of d) idx' out /\
    (forall idx'' out', run self repo idx (deltas_of d) idx'' out' ->
                        idx'' = idx' /\ out' = out) /\
    write_index self d idx repo =
      (if reported out then Raise (InvalidOperation PATCH_DOES_NOT_APPLY) else Ok tt,
       idx', out).
Proof.
  intros Hmeta (Hd & Hi & Hu).
  unfold write_index, write_index_body. rewrite Hmeta.
  set (s0 := {| index := idx; echoed := []; conflicts := false |}).
  destruct (for_each_run (write_delete self pk_field) (fun item => Delete (snd item))
              (deletes d)) with (s := s0) as (idx1 & out1 & Hrun1 & E1).
  { eapply Forall_impl; [exact Hd|]. intros item. apply write_delete_steps. }
  destruct (for_each_run (write_insert self repo pk_field) Insert (inserts d))
    with (s := after s0 idx1 out1) as (idx2 & out2 & Hrun2 & E2).
  { eapply Forall_impl; [exact Hi|]. intros f. apply write_insert_steps. }
  destruct (for_each_run (write_update self repo pk_field (geom_column_name self))
              (fun item => Update (fst (snd item)) (snd (snd item))) (updates d))
    with (s := after (after s0 idx1 out1) idx2 out2) as (idx3 & out3 & Hrun3 & E3).
  { eapply Forall_impl; [exact Hu|]. intros item (? & ? & ?).
    by apply write_update_steps. }
  assert (Hrun : run self repo idx (deltas_of d) idx3 (out1 ++ out2 ++ out3)).
  { unfold deltas_of. eapply run_app; [exact Hrun1|].
    eapply run_app; [exact Hrun2|exact Hrun3]. }
  exists idx3, (out1 ++ out2 ++ out3). split; [done|]. split.
  - intros idx'' out' Hrun'. by destruct (run_deterministic _ _ _ _ _ _ Hrun' Hrun).
  - unfold seq at 1. rewrite E1. unfold seq at 1. rewrite E2.
    unfold seq at 1. rewrite E3. unfold seq, get_conflicts. simpl.
    rewrite !after_after. simpl.
    by destruct out1, out2, out3.
Qed.

(** C10: a dataset diff whose meta part is not empty makes [write_index]
    raise [NotYetImplemented] before any feature delta is applied: the index
    is left as it was given and nothing is reported. *)
Theorem meta_changes_rejected (d : Diff) (idx : gmap string IndexEntry) :
  meta d <> [] ->
  write_index self d idx repo = (Raise NotYetImplemented, idx, []).
Proof.
  unfold write_index, write_index_body. by destruct (meta d).
Qed.

(** C9: when the dataset has a geometry column [g], the stored feature and
    the expected old value of an update are compared without [g]: the update
    is applied exactly when they agree on all other columns, and is a
    conflict otherwise.  In particular an update whose stored feature differs
    from the expected old value in the geometry column only is applied and no
    conflict is counted. *)
Theorem update_ignores_geometry (g k : string) (old new : Feature) (pk : pyval)
    (idx : gmap string IndexEntry) :
  geom_column_name self = Some g -> g <> "" ->
  old !! pk_field = Some pk ->
  is_Some (idx !! encode_1pk_to_path self pk) ->
  is_Some (old !! g) ->
  is_Some (get_feature self pk None !! g) ->
  let d := {| meta := []; inserts := []; deletes := [];
              updates := [(k, (old, new))] |} in
  let applied := (Ok tt,
                  <[fst (encode_feature self new) := written self repo new]>
                    (delete (encode_1pk_to_path self pk) idx),
                  @nil string) in
  (delete g (get_feature self pk None) = delete g old ->
   write_index self d idx repo = applied) /\
  (delete g (get_feature self pk None) <> delete g old ->
   write_index self d idx repo =
     (Raise (InvalidOperation PATCH_DOES_NOT_APPLY), idx,
      [says self ": Trying to update already-changed feature: " pk])) /\
  (forall geom, get_feature self pk None = <[g := geom]> old ->
   write_index self d idx repo = applied).
Proof.
  intros Hg Hne Hpk Hidx Hgo Hga d applied.
  assert (Ht : truthy_name (geom_column_name self) = Some g)
    by (rewrite Hg; by apply truthy_name_Some).
  assert (Hstep : steps self repo
            (write_update self repo pk_field (geom_column_name self))
            (fun item => Update (fst (snd item)) (snd (snd item))) (k, (old, new))).
  { apply write_update_steps; simpl.
    - by exists pk.
    - intros g'. rewrite Ht. by intros [= <-].
    - intros pk'. rewrite Hpk. intros [= <-] g'. rewrite Ht. by intros [= <-]. }
  pose proof (Hstep {| index := idx; echoed := []; conflicts := false |}) as H0.
  assert (Happly : delete g (get_feature self pk None) = delete g old ->
                   write_index self d idx repo = applied).
  { intros Heq. unfold write_index, write_index_body. subst d.
    cbn [meta deletes inserts updates for_each]. unfold seq, ret, get_conflicts.
    destruct H0 as [(idx' & Ha & ->)|(line & Hc & _)].
    - simpl. inversion Ha; simplify_eq. done.
    - exfalso. inversion Hc; simplify_eq.
      + simpl in *. destruct Hidx. congruence.
      + unfold without_geometry in *. rewrite Ht in *. done. }
  split; [done|]. split.
  - intros Hdiff. unfold write_index, write_index_body. subst d.
    cbn [meta deletes inserts updates for_each]. unfold seq, ret, get_conflicts.
    destruct H0 as [(idx' & Ha & _)|(line & Hc & ->)].
    + exfalso. inversion Ha; simplify_eq.
      unfold without_geometry in *. rewrite Ht in *. done.
    + simpl. inversion Hc; simplify_eq; [|done].
      simpl in *. destruct Hidx. congruence.
  - intros geom Hst. apply Happly. rewrite Hst. apply delete_insert_eq.
Qed.

End Dataset.

Lemma apply_conflicts_batched_witness :
  exists idx' out,
    run (Examples2.points Examples2.stored_points) Examples2.blob_ids Examples2.points_index
      (deltas_of Examples2.points_changes) idx' out /\
    (forall idx'' out',
        run (Examples2.points Examples2.stored_points) Examples2.blob_ids Examples2.points_index
          (deltas_of Examples2.points_changes) idx'' out' ->
        idx'' = idx' /\ out' = out) /\
    write_index (Examples2.points Examples2.stored_points) Examples2.points_changes Examples2.points_index
      Examples2.blob_ids =
      (if reported out then Raise (InvalidOperation PATCH_DOES_NOT_APPLY) else Ok tt,
       idx', out).
Proof.
  apply (apply_conflicts_batched (Examples2.points Examples2.stored_points) Examples2.blob_ids
           Examples2.points_changes Examples2.points_index).
  - reflexivity.
  - repeat split; repeat constructor; simpl;
      try (eexists; reflexivity);
      try (intros g [= <-]; eexists; reflexivity).
    intros pk [= <-] g [= <-]. eexists; reflexivity.
Defined.

Lemma meta_changes_rejected_witness :
  write_index (Examples2.points Examples2.stored_points)
    {| meta := [("schema.json", PyStr "{}")]; inserts := [];
       deletes := [("1", Examples2.point 1 "a" "g1")]; updates := [] |}
    Examples2.points_index Examples2.blob_ids
  = (Raise NotYetImplemented, Examples2.points_index, []).
Proof.
  apply (meta_changes_rejected (Examples2.points Examples2.stored_points) Examples2.blob_ids).
  simpl. discriminate.
Defined.

Lemma update_ignores_geometry_witness :
  let self := Examples2.points Examples2.stored_points in
  let old := Examples2.point 2 "b" "moved" in
  let new := Examples2.point 2 "bb" "g2" in
  let d := {| meta := []; inserts := []; deletes := [];
              updates := [("2", (old, new))] |} in
  let applied := (Ok tt,
                  <[fst (encode_feature self new) := written self Examples2.blob_ids new]>
                    (delete (encode_1pk_to_path self (PyInt 2)) Examples2.points_index),
                  @nil string) in
  (delete "geom" (get_feature self (PyInt 2) None) = delete "geom" old ->
   write_index self d Examples2.points_index Examples2.blob_ids = applied) /\
  (delete "geom" (get_feature self (PyInt 2) None) <> delete "geom" old ->
   write_index self d Examples2.points_index Examples2.blob_ids =
     (Raise (InvalidOperation PATCH_DOES_NOT_APPLY), Examples2.points_index,
      [says self ": Trying to update already-changed feature: " (PyInt 2)])) /\
  (forall geom, get_feature self (PyInt 2) None = <["geom" := geom]> old ->
   write_index self d Examples2.points_index Examples2.blob_ids = applied).
Proof.
  apply (update_ignores_geometry (Examples2.points Examples2.stored_points) Examples2.blob_ids
           "geom" "2" (Examples2.point 2 "b" "moved") (Examples2.point 2 "bb" "g2")
           (PyInt 2) Examples2.points_index).
  - reflexivity.
  - discriminate.
  - reflexivity.
  - eexists; reflexivity.
  - eexists; reflexivity.
  - eexists; reflexivity.
Defined.

End WriteIndexFacts.

(** ** The rename pass of [diff] in closed form *)

Module RenameFacts.

Import Structure DiffSpec DictFacts.

Lemma dict_get_del_ne {V} (k h : string) (d : dict V) :
  k <> h -> dict_get k (dict_del h d) = dict_get k d.
Proof.
  intros Hne. induction d as [|[k1 v1] d IH]; simpl; [done|].
  destruct (String.eqb_spec h k1) as [->|Hne1].
  - by rewrite eqb_ne.
  - simpl. by rewrite IH.
Qed.

Lemma dict_get_set_ne {V} (k h : string) (v : V) (d : dict V) :
  k <> h -> dict_get k (dict_set h v d) = dict_get k d.
Proof. intros Hne. rewrite dict_get_set. by rewrite eqb_ne. Qed.

Lemma dict_get_set_eq {V} (h : string) (v : V) (d : dict V) :
  dict_get h (dict_set h v d) = Some v.
Proof. rewrite dict_get_set. by rewrite eqb_refl'. Qed.

(** A key that is present splits the dictionary at its entry. *)
Lemma dict_get_split {V} (k : string) (v : V) (d : dict V) :
  dict_get k d = Some v ->
  exists d1 d2, d = d1 ++ (k, v) :: d2 /\ ~ In k (keys d1).
Proof.
  induction d as [|[k1 v1] d IH]; simpl; [done|].
  destruct (String.eqb_spec k k1) as [->|Hne].
  - intros [= ->]. exists [], d. split; [done|]. simpl. tauto.
  - intros H. destruct (IH H) as (d1 & d2 & -> & Hd1).
    exists ((k1, v1) :: d1), d2. split; [done|]. simpl. intros [?|?]; [congruence|done].
Qed.

Lemma keys_app {V} (d1 d2 : dict V) : keys (d1 ++ d2) = keys d1 ++ keys d2.
Proof. unfold keys. apply map_app. Qed.

Lemma NoDup_keys_middle {V} (k : string) (v : V) (d1 d2 : dict V) :
  NoDup (keys (d1 ++ (k, v) :: d2)) ->
  ~ In k (keys d1) /\ ~ In k (keys d2) /\ NoDup (keys (d1 ++ d2)).
Proof.
  rewrite !keys_app. simpl. intros H.
  apply NoDup_app in H as (H1 & H12 & H2).
  apply NoDup_cons in H2 as [Hk H2].
  repeat split.
  - intros Hin%list_elem_of_In. apply (H12 k Hin). by left.
  - by intros Hin%list_elem_of_In.
  - apply NoDup_app. repeat split; [done| |done].
    intros x Hx Hx2. apply (H12 x Hx). by right.
Qed.

Lemma unpair_ext {V} (p q : string -> bool) (d : dict (list V)) :
  (forall k, In k (keys d) -> p k = q k) -> unpair p d = unpair q d.
Proof.
  induction d as [|[k l] d IH]; simpl; [done|]. intros H.
  rewrite (H k) by (by left). f_equal. apply IH. intros k' Hk'. apply H. by right.
Qed.

Lemma unpair_app {V} (p : string -> bool) (d1 d2 : dict (list V)) :
  unpair p (d1 ++ d2) = unpair p d1 ++ unpair p d2.
Proof. unfold unpair. apply flat_map_app. Qed.

Lemma pairs_ext {V} (del : dict (list (string * V))) (ins ins' : dict (list V)) :
  (forall k, In k (keys del) -> dict_get k ins = dict_get k ins') ->
  pairs del ins = pairs del ins'.
Proof.
  induction del as [|[k l] del IH]; simpl; [done|]. intros H.
  rewrite (H k) by (by left). f_equal. apply IH. intros k' Hk'. apply H. by right.
Qed.

(** The state the insertion buckets are left in once the bucket of [h] lost
    its first entry. *)
Lemma unpair_popped {V} (p q : string -> bool) (h : string) (y : V) (li : list V)
    (ins : dict (list V)) :
  NoDup (keys ins) ->
  dict_get h ins = Some (y :: li) ->
  p h = true -> q h = false -> (forall k, k <> h -> p k = q k) ->
  unpair p ins =
  unpair q (match li with [] => dict_del h ins | _ => dict_set h li ins end).
Proof.
  intros Hnd Hget Hp Hq Hpq.
  destruct (dict_get_split _ _ _ Hget) as (i1 & i2 & -> & Hi1).
  destruct (NoDup_keys_middle _ _ _ _ Hnd) as (_ & Hi2 & _).
  assert (E1 : unpair p i1 = unpair q i1).
  { apply unpair_ext. intros k Hk. apply Hpq. by intros ->. }
  assert (E2 : unpair p i2 = unpair q i2).
  { apply unpair_ext. intros k Hk. apply Hpq. by intros ->. }
  rewrite unpair_app. simpl. rewrite Hp, E1, E2. simpl.
  destruct li as [|y' li].
  - rewrite dict_del_middle by done. by rewrite unpair_app.
  - rewrite dict_set_middle by done. rewrite unpair_app. simpl. by rewrite Hq.
Qed.

Lemma nonempty_buckets_app {V} (d1 d2 : dict (list V)) :
  nonempty_buckets (d1 ++ d2) <-> nonempty_buckets d1 /\ nonempty_buckets d2.
Proof. apply Forall_app. Qed.

Lemma dict_mem_cons_ne {V} (k h : string) (v : V) (d : dict V) :
  k <> h -> dict_mem k ((h, v) :: d) = dict_mem k d.
Proof. intros Hne. unfold dict_mem. simpl. by rewrite eqb_ne. Qed.

Lemma dict_del_set {V} (h : string) (v : V) (d : dict V) :
  dict_del h (dict_set h v d) = dict_del h d.
Proof.
  induction d as [|[k1 v1] d IH]; simpl.
  - by rewrite eqb_refl'.
  - destruct (String.eqb h k1) eqn:E; simpl; rewrite E; [done|by rewrite IH].
Qed.

Lemma popped_get_ne {V} (k h : string) (rest : list V) (d : dict (list V)) :
  k <> h -> dict_get k (popped h rest d) = dict_get k d.
Proof.
  intros Hne. unfold popped.
  destruct rest; [by apply dict_get_del_ne|by apply dict_get_set_ne].
Qed.

Lemma popped_split {V} (h : string) (x : V) (rest : list V) (d1 d2 : dict (list V)) :
  ~ In h (keys d1) ->
  popped h rest (d1 ++ (h, x :: rest) :: d2)
  = d1 ++ match rest with [] => [] | _ => [(h, rest)] end ++ d2.
Proof.
  intros H. unfold popped. destruct rest.
  - by apply dict_del_middle.
  - by apply dict_set_middle.
Qed.

Lemma popped_wf {V} (h : string) (x : V) (rest : list V) (d : dict (list V)) :
  NoDup (keys d) -> nonempty_buckets d -> dict_get h d = Some (x :: rest) ->
  NoDup (keys (popped h rest d)) /\ nonempty_buckets (popped h rest d).
Proof.
  intros Hnd Hne Hget.
  destruct (dict_get_split _ _ _ Hget) as (d1 & d2 & -> & Hd1).
  rewrite popped_split by done.
  destruct (NoDup_keys_middle _ _ _ _ Hnd) as (_ & _ & Hnd').
  apply nonempty_buckets_app in Hne as [Hne1 Hne2].
  apply Forall_cons in Hne2 as [_ Hne2].
  destruct rest as [|y rest]; simpl.
  - split; [done|]. by apply nonempty_buckets_app.
  - split.
    + rewrite keys_app in *. simpl. done.
    + apply nonempty_buckets_app. split; [done|]. by constructor.
Qed.

Lemma set_all_nil {V} (d : dict V) : set_all [] d = d.
Proof. done. Qed.

Lemma unpair_none {V} (d : dict (list V)) : unpair (fun _ => false) d = d.
Proof. induction d as [|[k l] d IH]; simpl; [done|]. by rewrite IH. Qed.

Lemma detect_renames_closed (todo : dict (list (string * Feature))) :
  forall (done : dict (list (string * Feature))) ins upd,
  NoDup (keys (done ++ todo)) ->
  NoDup (keys ins) ->
  nonempty_buckets todo ->
  nonempty_buckets ins ->
  detect_renames (keys todo)
    {| candidates_ins := ins; candidates_upd := upd; candidates_del := done ++ todo |}
  = Ok {| candidates_ins := unpair (fun k => dict_mem k todo) ins;
          candidates_upd := set_all (pairs todo ins) upd;
          candidates_del := done ++ unpair (fun k => dict_mem k ins) todo |}.
Proof.
  induction todo as [|[h b] todo IH]; intros done ins upd Hnd Hni Hne Hnei.
  - simpl. by rewrite unpair_none.
  - simpl. unfold detect_rename. simpl.
    destruct (NoDup_keys_middle _ _ _ _ Hnd) as (Hd1 & Hd2 & Hnd').
    apply Forall_cons in Hne as [Hb Hne]. simpl in Hb.
    assert (Hins_todo : forall ins' : dict (list Feature),
              (forall k, k <> h -> dict_get k ins' = dict_get k ins) ->
              unpair (fun k => dict_mem k ins') todo
              = unpair (fun k => dict_mem k ins) todo
              /\ pairs todo ins' = pairs todo ins).
    { intros ins' Hsame. split.
      - apply unpair_ext. intros k Hk. unfold dict_mem.
        rewrite Hsame; [done|]. by intros ->.
      - apply pairs_ext. intros k Hk. apply Hsame. by intros ->. }
    destruct (dict_mem h ins) eqn:Emem.
    + unfold dd_getitem at 1. rewrite dict_get_middle by done.
      destruct b as [|[track_pk my_obj] b']; [done|]. simpl.
      rewrite dict_set_middle by done.
      unfold dict_mem in Emem. destruct (dict_get h ins) as [li|] eqn:Eget; [|done].
      unfold dd_getitem at 1. rewrite Eget.
      destruct li as [|y li'].
      { exfalso. apply dict_get_Some_In in Eget.
        unfold nonempty_buckets in Hnei. rewrite Forall_forall in Hnei.
        apply (Hnei (h, [])); [by apply list_elem_of_In|done]. }
      simpl. unfold dd_getitem. rewrite dict_get_middle by done.
      rewrite dict_get_set_eq.
      replace (match li' with [] => dict_del h (dict_set h li' ins)
                            | _ :: _ => dict_set h li' ins end)
        with (popped h li' ins)
        by (unfold popped; destruct li'; [by rewrite dict_del_set|done]).
      replace (match b' with [] => dict_del h (done ++ (h, b') :: todo)
                           | _ :: _ => done ++ (h, b') :: todo end)
        with ((done ++ match b' with [] => [] | _ => [(h, b')] end) ++ todo)
        by (destruct b'; [by rewrite dict_del_middle, app_nil_r
                         |by rewrite <- app_assoc]).
      destruct (popped_wf _ _ _ _ Hni Hnei Eget) as [Hni' Hnei'].
      destruct (Hins_todo (popped h li' ins)) as [E1 E2].
      { intros k Hk. by apply popped_get_ne. }
      simpl. rewrite IH; [|by destruct b'; rewrite <- ?app_assoc, ?app_nil_r;
                             simpl; rewrite ?keys_app in *|done..].
      rewrite E1, E2. f_equal. f_equal.
      * symmetry. apply (unpair_popped _ _ h y li'); try done.
        -- unfold dict_mem. simpl. by rewrite eqb_refl'.
        -- by apply dict_mem_false.
        -- intros k Hk. by apply dict_mem_cons_ne.
      * rewrite <- app_assoc. by destruct b'.
    + apply dict_mem_false in Emem as Hnot.
      simpl. rewrite (app_assoc done [(h, b)] todo : done ++ (h, b) :: todo = _).
      rewrite IH; [|by rewrite <- app_assoc|done..].
      unfold dict_mem in Emem. destruct (dict_get h ins) eqn:Eget; [done|].
      simpl. rewrite <- app_assoc. simpl.
      replace (match b with [] => [] | (track_pk, x) :: _ => [] end)
        with (@nil (string * (Feature * Feature))) by (by destruct b as [|[? ?] ?]).
      f_equal. f_equal.
      apply unpair_ext. intros k Hk. symmetry.
      apply dict_mem_cons_ne. intros ->. apply Hnot. done.
Qed.

End RenameFacts.

(** ** Two runs of [diff] in opposite directions *)

Module MirrorFacts.

Import Structure DiffSpec DictFacts DiffFacts RenameFacts.

Lemma dd_append_spec {V} (k : string) (x : V) (d : dict (list V)) :
  dd_append k x d =
  match dict_get k d with
  | Some l => dict_set k (l ++ [x]) d
  | None => d ++ [(k, [x])]
  end.
Proof.
  unfold dd_append, dd_getitem. destruct (dict_get k d) as [l|] eqn:E; [done|].
  apply dict_get_None in E. rewrite (dict_set_absent k [] d) by done.
  rewrite dict_set_middle by done. done.
Qed.

Lemma dd_append_split {V} (k : string) (x : V) (d : dict (list V)) :
  (exists d1 l d2, d = d1 ++ (k, l) :: d2 /\ ~ In k (keys d1) /\
                   dd_append k x d = d1 ++ (k, l ++ [x]) :: d2)
  \/ (~ In k (keys d) /\ dd_append k x d = d ++ [(k, [x])]).
Proof.
  rewrite dd_append_spec. destruct (dict_get k d) as [l|] eqn:E.
  - left. destruct (dict_get_split _ _ _ E) as (d1 & d2 & -> & Hd1).
    exists d1, l, d2. by rewrite dict_set_middle.
  - right. by apply dict_get_None in E.
Qed.

Lemma keys_strip {V} (d : dict (list (string * V))) : keys (strip d) = keys d.
Proof. unfold keys, strip. rewrite map_map. done. Qed.

Lemma strip_app {V} (d1 d2 : dict (list (string * V))) :
  strip (d1 ++ d2) = strip d1 ++ strip d2.
Proof. unfold strip. apply map_app. Qed.

Lemma strip_dd_append {V} (k : string) (x : V) (d : dict (list (string * V))) :
  strip (dd_append k (k, x) d) = dd_append k x (strip d).
Proof.
  destruct (dd_append_split k (k, x) d) as [(d1 & l & d2 & -> & Hd1 & ->)|[Hd ->]].
  - rewrite !strip_app. simpl. rewrite map_app. simpl.
    rewrite dd_append_spec, dict_get_middle by (by rewrite keys_strip).
    by rewrite dict_set_middle by (by rewrite keys_strip).
  - rewrite strip_app. simpl. rewrite dd_append_spec.
    assert (E : dict_get k (strip d) = None)
      by (apply dict_get_None; by rewrite keys_strip).
    by rewrite E.
Qed.

Lemma dd_append_NoDup {V} (k : string) (x : V) (d : dict (list V)) :
  NoDup (keys d) -> NoDup (keys (dd_append k x d)).
Proof.
  intros H. destruct (dd_append_split k x d) as [(d1 & l & d2 & -> & Hd1 & ->)|[Hd ->]].
  - by rewrite keys_app in *.
  - rewrite keys_app. simpl. apply NoDup_app. split; [done|].
    split; [|apply NoDup_singleton].
    intros y Hy ->%list_elem_of_singleton. apply Hd. by apply list_elem_of_In.
Qed.

Lemma dd_append_nonempty {V} (k : string) (x : V) (d : dict (list V)) :
  nonempty_buckets d -> nonempty_buckets (dd_append k x d).
Proof.
  unfold nonempty_buckets. intros H.
  destruct (dd_append_split k x d) as [(d1 & l & d2 & -> & Hd1 & ->)|[Hd ->]].
  - apply Forall_app in H as [H1 H2]. apply Forall_cons in H2 as [_ H2].
    apply Forall_app. split; [done|]. constructor; [|done]. simpl. by destruct l.
  - apply Forall_app. split; [done|]. by repeat constructor.
Qed.

Lemma dd_append_tagged {V} (k : string) (x : V) (d : dict (list (string * V))) :
  tagged d -> tagged (dd_append k (k, x) d).
Proof.
  unfold tagged. intros H.
  destruct (dd_append_split k (k, x) d) as [(d1 & l & d2 & -> & Hd1 & ->)|[Hd ->]].
  - apply Forall_app in H as [H1 H2]. apply Forall_cons in H2 as [Hl H2].
    apply Forall_app. split; [done|]. constructor; [|done]. simpl in *.
    apply Forall_app. split; [done|]. by repeat constructor.
  - apply Forall_app. split; [done|]. by repeat constructor.
Qed.

Lemma map_swap_dict_set (k : string) (v : Feature * Feature) (d : dict (Feature * Feature)) :
  map (fun kv => (fst kv, swap_update (snd kv))) (dict_set k v d)
  = dict_set k (swap_update v) (map (fun kv => (fst kv, swap_update (snd kv))) d).
Proof.
  induction d as [|[k1 v1] d IH]; simpl; [done|].
  destruct (String.eqb k k1); simpl; [done|by rewrite IH].
Qed.

Lemma flip_touches_meta d : touches_meta (flip_delta d) = touches_meta d.
Proof. unfold touches_meta, flip_delta. simpl. apply orb_comm. Qed.

Section Dataset.

Context {Tree : Type}.
Abbreviation DS := (DatasetStructure (Tree := Tree)).

Variables (a b : DS) (pk_filter : string -> bool).

(** One delta, seen by the run from [a] to [b] and, flipped, by the run from
    [b] to [a]. *)
Lemma diff_delta_mirrored c c' d :
  mirror c c' -> wf_candidates c -> wf_candidates c' ->
  (forall f g, status d = GIT_DELTA_MODIFIED ->
     old_file d = Some f -> new_file d = Some g ->
     str (decode_path_to_1pk a (file_path f)) = str (decode_path_to_1pk b (file_path g))) ->
  mirrored (diff_delta (Some a) (Some b) (Some b) pk_filter c d)
           (diff_delta (Some b) (Some a) (Some a) pk_filter c' (flip_delta d)).
Proof.
  intros Hm Hwf Hwf' Hmod.
  destruct (touches_meta d) eqn:Emeta.
  { rewrite !diff_delta_meta by (by rewrite ?flip_touches_meta). by simpl. }
  pose proof Hm as (Hm1 & Hm2 & Hm3). pose proof Hwf as Hwf0. pose proof Hwf' as Hwf0'.
  unfold diff_delta. unfold touches_meta in Emeta.
  apply orb_false_iff in Emeta as [E1 E2]. simpl. rewrite E1, E2.
  destruct Hwf as (W1 & W2 & W3 & W4 & W5), Hwf' as (W1' & W2' & W3' & W4' & W5').
  destruct (status d) eqn:Es; simpl; try done.
  - (* added *)
    destruct (new_file d) as [g|]; simpl; [|done].
    destruct (pk_filter _); simpl; [|done].
    repeat split; simpl; try done; auto using dd_append_NoDup, dd_append_nonempty,
      dd_append_tagged.
    by rewrite strip_dd_append, Hm2.
  - (* deleted *)
    destruct (old_file d) as [f|]; simpl; [|done].
    destruct (pk_filter _); simpl; [|done].
    repeat split; simpl; try done; auto using dd_append_NoDup, dd_append_nonempty,
      dd_append_tagged.
    by rewrite strip_dd_append, Hm1.
  - (* modified *)
    destruct (old_file d) as [f|], (new_file d) as [g|]; simpl; try done.
    rewrite <- (Hmod f g) by done.
    destruct (pk_filter _); simpl; [|done].
    repeat split; simpl; try done.
    by rewrite map_swap_dict_set, Hm3.
Qed.

Lemma diff_deltas_mirrored ds c c' :
  mirror c c' -> wf_candidates c -> wf_candidates c' ->
  modified_keys_agree a b ds ->
  mirrored (diff_deltas (Some a) (Some b) (Some b) pk_filter ds c)
           (diff_deltas (Some b) (Some a) (Some a) pk_filter (map flip_delta ds) c').
Proof.
  revert c c'. induction ds as [|d ds IH]; intros c c' Hm Hwf Hwf' Hmod; simpl.
  - done.
  - assert (Hd : mirrored (diff_delta (Some a) (Some b) (Some b) pk_filter c d)
                   (diff_delta (Some b) (Some a) (Some a) pk_filter c' (flip_delta d))).
    { apply diff_delta_mirrored; try done.
      intros f g ? ? ?. apply (Hmod d); try done. by left. }
    destruct (diff_delta (Some a) (Some b) (Some b) pk_filter c d) as [c1|e],
      (diff_delta (Some b) (Some a) (Some a) pk_filter c' (flip_delta d)) as [c1'|e'];
      simpl in *; try done.
    destruct Hd as (? & ? & ?). apply IH; try done.
    intros d' f g Hin. apply Hmod. by right.
Qed.

End Dataset.

Section Keys.

Context {Tree : Type}.
Abbreviation DS := (DatasetStructure (Tree := Tree)).

Lemma concat_values_dd_append {V} (k : string) (x : V) (d : dict (list V)) :
  concat (values (dd_append k x d)) ≡ₚ concat (values d) ++ [x].
Proof.
  destruct (dd_append_split k x d) as [(d1 & l & d2 & -> & Hd1 & ->)|[Hd ->]];
    unfold values; rewrite !map_app, !concat_app; simpl.
  - rewrite <- !(assoc_L (++)). do 2 apply Permutation_app_head.
    apply Permutation_app_comm.
  - done.
Qed.

Lemma diff_delta_deleted_keys (a : DS) new other pk_filter c d c1 :
  diff_delta (Some a) new other pk_filter c d = Ok c1 ->
  map fst (concat (values (candidates_del c1)))
  ⊆+ map fst (concat (values (candidates_del c))) ++ deleted_keys a [d].
Proof.
  destruct (touches_meta d) eqn:Emeta.
  { rewrite diff_delta_meta by done. intros [= <-]. by apply submseteq_inserts_r. }
  unfold diff_delta, deleted_keys. simpl. rewrite Emeta.
  unfold touches_meta in Emeta. apply orb_false_iff in Emeta as [-> ->].
  destruct (status d) eqn:Es; simpl; try done.
  - destruct new as [n|]; simpl; [|done].
    destruct (new_file d); simpl; [|done].
    destruct (pk_filter _); simpl; intros [= <-]; simpl; by apply submseteq_inserts_r.
  - destruct (old_file d) as [f|]; simpl; [|done].
    destruct (pk_filter _); simpl; intros [= <-]; simpl.
    + rewrite concat_values_dd_append, map_app. done.
    + by apply submseteq_inserts_r.
  - destruct (old_file d) as [f|]; simpl; [|done].
    destruct new as [n|]; simpl; [|done].
    destruct (new_file d); simpl; [|done].
    destruct (_ && _); simpl; [intros [= <-]; by apply submseteq_inserts_r|].
    destruct other; simpl; [|done].
    intros [= <-]; simpl; by apply submseteq_inserts_r.
Qed.

Lemma deleted_keys_cons (a : DS) d ds :
  deleted_keys a (d :: ds) = deleted_keys a [d] ++ deleted_keys a ds.
Proof. unfold deleted_keys. simpl. by rewrite app_nil_r. Qed.

Lemma diff_deltas_deleted_keys (a : DS) new other pk_filter ds c c1 :
  diff_deltas (Some a) new other pk_filter ds c = Ok c1 ->
  map fst (concat (values (candidates_del c1)))
  ⊆+ map fst (concat (values (candidates_del c))) ++ deleted_keys a ds.
Proof.
  revert c. induction ds as [|d ds IH]; intros c.
  - simpl. intros [= <-]. by rewrite app_nil_r.
  - cbn [diff_deltas]. rewrite deleted_keys_cons, (assoc_L (++)).
    destruct (diff_delta (Some a) new other pk_filter c d) as [c'|] eqn:E; [|by simpl].
    intros H. apply IH in H. apply diff_delta_deleted_keys in E.
    etrans; [exact H|]. by apply submseteq_app.
Qed.

Lemma deleted_keys_flip (b : DS) ds :
  deleted_keys b (map flip_delta ds) = added_keys b ds.
Proof.
  unfold deleted_keys, added_keys. induction ds as [|d ds IH]; simpl; [done|].
  rewrite IH. f_equal. rewrite flip_touches_meta.
  by destruct (status d).
Qed.

End Keys.

End MirrorFacts.

(** ** The tree comparison of the examples *)

Module TreeDiffFacts.

Import Structure DiffSpec Examples.

Lemma tree_diff_nil_l b : tree_diff [] b = map (fun e => both GIT_DELTA_ADDED (fst e)) b.
Proof. by destruct b. Qed.

Lemma tree_diff_nil_r a : tree_diff a [] = map (fun e => both GIT_DELTA_DELETED (fst e)) a.
Proof. by destruct a as [|[p x] a]. Qed.

Lemma tree_diff_cons p x a q y b :
  tree_diff ((p, x) :: a) ((q, y) :: b) =
  match String.compare p q with
  | Lt => both GIT_DELTA_DELETED p :: tree_diff a ((q, y) :: b)
  | Gt => both GIT_DELTA_ADDED q :: tree_diff ((p, x) :: a) b
  | Eq => if String.eqb x y then tree_diff a b
          else both GIT_DELTA_MODIFIED p :: tree_diff a b
  end.
Proof. reflexivity. Qed.

Lemma flip_both s p : flip_delta (both s p) = both (flip_status s) p.
Proof. reflexivity. Qed.

(** The comparison of two trees the other way round reports the same
    changes, flipped. *)
Lemma tree_diff_flip a b : tree_diff b a = map flip_delta (tree_diff a b).
Proof.
  revert b. induction a as [|[p x] a IHa]; intros b.
  - rewrite tree_diff_nil_l, tree_diff_nil_r, map_map. done.
  - induction b as [|[q y] b IHb].
    + rewrite tree_diff_nil_l, tree_diff_nil_r, map_map. done.
    + rewrite !tree_diff_cons, String.compare_antisym.
      destruct (String.compare p q) eqn:E; cbn [CompOpp].
      * apply String.compare_eq_iff in E as ->.
        rewrite (String.eqb_sym y x).
        destruct (String.eqb x y); cbn [map]; by rewrite IHa.
      * cbn [map]. by rewrite IHa.
      * cbn [map]. by rewrite IHb.
Qed.

Lemma ex_diff_to_tree_flip a b :
  ex_diff_to_tree b (Some a) false = map flip_delta (ex_diff_to_tree a (Some b) false).
Proof. apply tree_diff_flip. Qed.

End TreeDiffFacts.

(** ** The inverse law of [diff] *)

Module InverseFacts.

Import Structure DiffSpec DictFacts DiffFacts RenameFacts MirrorFacts.

Lemma strip_unpair {V} (p : string -> bool) (d : dict (list (string * V))) :
  strip (unpair p d) = unpair p (strip d).
Proof.
  induction d as [|[k l] d IH]; simpl; [done|].
  rewrite strip_app, IH. f_equal.
  destruct (p k); [|done]. by destruct l as [|x [|y l]].
Qed.

Lemma tagged_unpair {V} (p : string -> bool) (d : dict (list (string * V))) :
  tagged d -> tagged (unpair p d).
Proof.
  unfold tagged. induction 1 as [|[k l] d Hl Hd IH]; simpl; [constructor|].
  apply Forall_app. split; [|done].
  destruct (p k); [|by repeat constructor].
  destruct l as [|x [|y l]]; simpl in *; try constructor; [|constructor].
  simpl. by apply Forall_cons in Hl as [_ Hl].
Qed.

Lemma unpair_values_sublist {V} (p : string -> bool) (d : dict (list V)) :
  concat (values (unpair p d)) `sublist_of` concat (values d).
Proof.
  induction d as [|[k l] d IH]; simpl; [constructor|].
  unfold values in *. rewrite map_app, concat_app.
  apply sublist_app; [|done].
  destruct (p k); simpl; [|by rewrite app_nil_r].
  destruct l as [|x [|y l]]; simpl.
  - constructor.
  - by apply sublist_cons, sublist_nil_l.
  - rewrite app_nil_r. by apply sublist_cons.
Qed.

Lemma sublist_map {A B} (f : A -> B) (l1 l2 : list A) :
  l1 `sublist_of` l2 -> map f l1 `sublist_of` map f l2.
Proof. induction 1; simpl; by constructor. Qed.

Lemma map_snd_keyed {V} (d : dict (list V)) : map snd (keyed d) = concat (values d).
Proof.
  unfold keyed, values. induction d as [|[k l] d IH]; simpl; [done|].
  rewrite map_app, IH. f_equal. rewrite map_map. simpl. apply map_id.
Qed.

Lemma tagged_keyed {V} (d : dict (list (string * V))) :
  tagged d -> concat (values d) = keyed (strip d).
Proof.
  unfold tagged, keyed, values, strip.
  induction 1 as [|[k l] d Hl Hd IH]; simpl; [done|].
  rewrite IH. f_equal. rewrite map_map. simpl in *.
  clear -Hl. induction Hl as [|[k' x] l Hx Hl IH]; simpl; [done|].
  simpl in Hx. by rewrite <- IH, Hx.
Qed.

Lemma set_all_app {V} (l : list (string * V)) (d : dict V) :
  NoDup (keys d ++ map fst l) -> set_all l d = d ++ l.
Proof.
  revert d. induction l as [|[k v] l IH]; intros d H; simpl.
  - by rewrite app_nil_r.
  - apply NoDup_app in H as H'. destruct H' as (Hd & Hdl & Hl).
    unfold set_all in *. simpl. rewrite dict_set_absent.
    + rewrite IH; [by rewrite <- app_assoc|].
      rewrite keys_app. simpl. by rewrite <- (assoc_L (++)).
    + intros Hin%list_elem_of_In. apply (Hdl k Hin). by left.
Qed.

Lemma dict_of_pairs_NoDup {V} (l : list (string * V)) :
  NoDup (map fst l) -> dict_of_pairs l = l.
Proof. intros H. apply (set_all_app l []). done. Qed.

Lemma dict_get_set_all {V} (k : string) (l : list (string * V)) (d : dict V) :
  NoDup (map fst l) ->
  dict_get k (set_all l d) =
  match dict_get k l with Some v => Some v | None => dict_get k d end.
Proof.
  revert d. induction l as [|[k1 v1] l IH]; intros d H; [done|].
  apply NoDup_cons in H as [Hk1 Hl].
  unfold set_all in *. simpl. rewrite IH by done.
  destruct (String.eqb_spec k k1) as [->|Hne].
  - assert (E : dict_get k1 l = None).
    { apply dict_get_None. by intros Hin%list_elem_of_In. }
    rewrite E. apply dict_get_set_eq.
  - destruct (dict_get k l); [done|]. by apply dict_get_set_ne.
Qed.

Lemma dict_get_strip {V} (k : string) (d : dict (list (string * V))) :
  dict_get k (strip d) = map snd <$> dict_get k d.
Proof.
  induction d as [|[k1 l] d IH]; simpl; [done|].
  by destruct (String.eqb k k1).
Qed.

Lemma dict_mem_strip {V} (k : string) (d : dict (list (string * V))) :
  dict_mem k (strip d) = dict_mem k d.
Proof. unfold dict_mem. rewrite dict_get_strip. by destruct (dict_get k d). Qed.

Lemma dict_get_map_values {V W} (f : V -> W) (k : string) (d : dict V) :
  dict_get k (map (fun kv => (fst kv, f (snd kv))) d) = f <$> dict_get k d.
Proof.
  induction d as [|[k1 v] d IH]; simpl; [done|].
  by destruct (String.eqb k k1).
Qed.

Lemma keys_pairs {V} (del : dict (list (string * V))) (ins : dict (list V)) :
  tagged del -> keys (pairs del ins) `sublist_of` keys del.
Proof.
  unfold tagged. induction 1 as [|[h b] del Hb Hdel IH]; simpl; [constructor|].
  unfold keys in *. rewrite map_app.
  destruct b as [|[tk x] b]; simpl; [by apply sublist_cons|].
  destruct (dict_get h ins) as [[|y li]|]; simpl; try by apply sublist_cons.
  apply Forall_cons in Hb as [Htk _]. simpl in Htk. subst tk.
  by apply sublist_skip.
Qed.

Lemma dict_get_pairs {V} (k : string) (del : dict (list (string * V)))
    (ins : dict (list V)) :
  NoDup (keys del) -> tagged del ->
  dict_get k (pairs del ins) =
  match dict_get k del, dict_get k ins with
  | Some ((_, x) :: _), Some (y :: _) => Some (x, y)
  | _, _ => None
  end.
Proof.
  intros Hnd Ht. induction Ht as [|[h b] del Hb Hdel IH]; simpl; [done|].
  simpl in Hnd. apply NoDup_cons in Hnd as [Hh Hnd].
  rewrite dict_get_app.
  destruct (String.eqb_spec k h) as [->|Hne].
  - assert (E : dict_get h (pairs del ins) = None).
    { apply dict_get_None. intros Hin%list_elem_of_In. apply Hh.
      eapply elem_of_sublist; [exact Hin|]. by apply keys_pairs. }
    rewrite E. destruct b as [|[tk x] b]; [done|].
    apply Forall_cons in Hb as [Htk _]. simpl in Htk. subst tk.
    destruct (dict_get h ins) as [[|y li]|]; simpl; by rewrite ?eqb_refl'.
  - rewrite IH by done.
    destruct b as [|[tk x] b]; [done|].
    apply Forall_cons in Hb as [Htk _]. simpl in Htk. subst tk.
    destruct (dict_get h ins) as [[|y li]|]; simpl; by rewrite ?eqb_ne.
Qed.

(** The updates recorded by the rename passes of two mirrored runs. *)
Lemma pairs_mirrored {V} (k : string) (del del' : dict (list (string * V))) :
  NoDup (keys del) -> tagged del -> NoDup (keys del') -> tagged del' ->
  dict_get k (pairs del' (strip del)) =
  (fun u => (snd u, fst u)) <$> dict_get k (pairs del (strip del')).
Proof.
  intros. rewrite !dict_get_pairs, !dict_get_strip by done.
  destruct (dict_get k del) as [[|[? x] ?]|], (dict_get k del') as [[|[? y] ?]|]; done.
Qed.

Lemma submseteq_NoDup {A} (l k : list A) : l ⊆+ k -> NoDup k -> NoDup l.
Proof.
  intros (k' & Hk)%submseteq_Permutation Hnd. rewrite Hk in Hnd.
  by apply NoDup_app in Hnd as (? & _ & _).
Qed.

Lemma wf_no_candidates : wf_candidates no_candidates.
Proof. repeat split; simpl; constructor. Qed.

Section Dataset.

Context {Tree : Type}.
Variable diff_to_tree : Tree -> option Tree -> bool -> list DiffDelta.
Abbreviation DS := (DatasetStructure (Tree := Tree)).

(** The deletions a run is left with are the keyed entries of its deletion
    buckets, when no identity was staged twice. *)
Lemma remaining_deletes (a : DS) new other pk_filter ds c p :
  diff_deltas (Some a) new other pk_filter ds no_candidates = Ok c ->
  NoDup (deleted_keys a ds) ->
  tagged (candidates_del c) ->
  dict_of_pairs (concat (values (unpair p (candidates_del c))))
  = keyed (unpair p (strip (candidates_del c))).
Proof.
  intros Hrun Hnd Ht. apply diff_deltas_deleted_keys in Hrun. simpl in Hrun.
  rewrite dict_of_pairs_NoDup.
  - rewrite <- strip_unpair. by apply tagged_keyed, tagged_unpair.
  - eapply sublist_NoDup; [|by apply sublist_map, unpair_values_sublist].
    by eapply submseteq_NoDup.
Qed.

(** C2: the diff from [a] to [b] and the diff from [b] to [a], under the same
    key filter, are inverse to each other: either both raise the same
    exception, or each insert of one is a delete of the other, under the
    identity it was staged with, and the updates of one are the updates of
    the other with old and new value exchanged, identity by identity.  The
    tree diff from [b] to [a] reports the changes of the tree diff from [a]
    to [b] the other way round, the two datasets name a modified path by the
    same identity, and within a dataset distinct changed paths decode to
    distinct identities. *)
Theorem diff_inverse_law (a b : DS) (pk_filter : string -> bool) :
  let ds := diff_to_tree (tree a) (Some (tree b)) false in
  diff_to_tree (tree b) (Some (tree a)) false = map flip_delta ds ->
  modified_keys_agree a b ds ->
  NoDup (deleted_keys a ds) ->
  NoDup (added_keys b ds) ->
  inverse_outcomes
    (diff diff_to_tree a (Some b) pk_filter false)
    (diff diff_to_tree b (Some a) pk_filter false)
    (diff_candidates (Some a) (Some b) (Some b) pk_filter ds)
    (diff_candidates (Some b) (Some a) (Some a) pk_filter (map flip_delta ds)).
Proof.
  intros ds Hrev Hmod Hdel Hadd.
  unfold inverse_outcomes, inverse_diffs, diff. simpl. rewrite Hrev. fold ds.
  unfold diff_candidates.
  assert (Hm : mirrored
            (diff_deltas (Some a) (Some b) (Some b) pk_filter ds no_candidates)
            (diff_deltas (Some b) (Some a) (Some a) pk_filter (map flip_delta ds)
               no_candidates)).
  { apply diff_deltas_mirrored; [done|apply wf_no_candidates..|done]. }
  rewrite <- deleted_keys_flip in Hadd.
  destruct (diff_deltas (Some a) (Some b) (Some b) pk_filter ds no_candidates)
    as [[ins upd del]|e] eqn:Ef,
    (diff_deltas (Some b) (Some a) (Some a) pk_filter (map flip_delta ds) no_candidates)
    as [[ins' upd' del']|e'] eqn:Er; simpl in Hm; try done.
  destruct Hm as ((Hm1 & Hm2 & Hm3) & (W1 & W2 & W3 & W4 & W5) & (W1' & W2' & W3' & W4' & W5')).
  simpl in *.
  pose proof (remaining_deletes _ _ _ _ _ _ (fun k => dict_mem k ins) Ef Hdel W5) as Rd.
  pose proof (remaining_deletes _ _ _ _ _ _ (fun k => dict_mem k ins') Er Hadd W5') as Rd'.
  simpl in Rd, Rd'.
  pose proof (detect_renames_closed del [] ins upd W2 W1 W4 W3) as Hc.
  pose proof (detect_renames_closed del' [] ins' upd' W2' W1' W4' W3') as Hc'.
  simpl in Hc, Hc'. rewrite Hc, Hc'.
  simpl. do 2 eexists. do 2 (split; [reflexivity|]). simpl.
  unfold staged_insertions. simpl. rewrite !map_snd_keyed.
  assert (Ed : dict_of_pairs (concat (values (unpair (fun k => dict_mem k ins) del)))
               = keyed (unpair (fun k => dict_mem k del') ins')).
  { rewrite Rd, Hm1. f_equal. apply unpair_ext. intros k _.
    by rewrite Hm2, dict_mem_strip. }
  assert (Ed' : dict_of_pairs (concat (values (unpair (fun k => dict_mem k ins') del')))
               = keyed (unpair (fun k => dict_mem k del) ins)).
  { rewrite Rd', Hm2. f_equal. apply unpair_ext. intros k _.
    by rewrite Hm1, dict_mem_strip. }
  rewrite Ed, Ed'. unfold values. rewrite !map_snd_keyed.
  repeat split; try done.
  intros k. rewrite Hm3.
  assert (Np : forall (d1 d2 : dict (list (string * Feature))),
             NoDup (keys d1) -> tagged d1 -> NoDup (map fst (pairs d1 (strip d2)))).
  { intros d1 d2 ? ?. eapply sublist_NoDup; [|by apply keys_pairs]. done. }
  rewrite Hm1, Hm2.
  rewrite !dict_get_set_all by (by apply Np).
  rewrite pairs_mirrored by done. rewrite dict_get_map_values.
  by destruct (dict_get k (pairs del (strip del'))) as [[? ?]|], (dict_get k upd) as [[? ?]|].
Qed.

End Dataset.

Lemma diff_inverse_law_witness :
  inverse_outcomes
    (diff Examples.ex_diff_to_tree (Examples.names Examples.names_before)
       (Some (Examples.names Examples.names_after)) UNFILTERED false)
    (diff Examples.ex_diff_to_tree (Examples.names Examples.names_after)
       (Some (Examples.names Examples.names_before)) UNFILTERED false)
    (diff_candidates (Some (Examples.names Examples.names_before))
       (Some (Examples.names Examples.names_after))
       (Some (Examples.names Examples.names_after)) UNFILTERED
       (Examples.ex_diff_to_tree Examples.names_before (Some Examples.names_after) false))
    (diff_candidates (Some (Examples.names Examples.names_after))
       (Some (Examples.names Examples.names_before))
       (Some (Examples.names Examples.names_before)) UNFILTERED
       (map flip_delta
          (Examples.ex_diff_to_tree Examples.names_before (Some Examples.names_after) false))).
Proof.
  apply (diff_inverse_law Examples.ex_diff_to_tree
           (Examples.names Examples.names_before) (Examples.names Examples.names_after)
           UNFILTERED).
  - reflexivity.
  - intros d f g Hin. simpl in Hin.
    destruct Hin as [<-|[<-|[<-|[]]]]; simpl; try discriminate.
    intros _ [= <-] [= <-]. reflexivity.
  - simpl. apply NoDup_singleton.
  - simpl. apply NoDup_singleton.
Defined.

(** With [reverse] set, the modified branch still reads the new value with
    [other.get_feature]: the diff of [self] against [other] in reverse has
    the value of [other] at both ends of the update, where the diff from
    [other] to [self] has the value of [other] as old and that of [self] as
    new. *)
Remark reverse_update_reads_other :
  let self := Examples.names Examples.name_y in
  let other := Examples.names Examples.name_z in
  diff Examples.ex_diff_to_tree self (Some other) UNFILTERED true
  = Ok {| meta := []; inserts := []; deletes := [];
          updates := [("k2", ({[ "name" := PyStr "z" ]}, {[ "name" := PyStr "z" ]}))] |}
  /\ diff Examples.ex_diff_to_tree other (Some self) UNFILTERED false
  = Ok {| meta := []; inserts := []; deletes := [];
          updates := [("k2", ({[ "name" := PyStr "z" ]}, {[ "name" := PyStr "y" ]}))] |}.
Proof. split; reflexivity. Qed.

End InverseFacts.

(** ** Move pairing *)

Module MoveFacts.

Import Structure DiffSpec DictFacts DiffFacts RenameFacts MirrorFacts InverseFacts.

Section Dataset.

Context {Tree : Type}.
Variable diff_to_tree : Tree -> option Tree -> bool -> list DiffDelta.
Abbreviation DS := (DatasetStructure (Tree := Tree)).

Lemma detect_rename_pairs_first h c tk x xs y ys :
  dict_get h (candidates_del c) = Some ((tk, x) :: xs) ->
  dict_get h (candidates_ins c) = Some (y :: ys) ->
  detect_rename h c =
  Ok {| candidates_ins := popped h ys (candidates_ins c);
        candidates_upd := dict_set tk (x, y) (candidates_upd c);
        candidates_del := popped h xs (candidates_del c) |}.
Proof.
  intros Hd Hi. unfold detect_rename, dict_mem, dd_getitem.
  rewrite Hi, Hd. simpl. rewrite !dict_get_set_eq.
  unfold popped. destruct xs, ys; by rewrite ?dict_del_set.
Qed.

Lemma detect_rename_unpaired h c :
  dict_mem h (candidates_ins c) = false -> detect_rename h c = Ok c.
Proof. unfold detect_rename. by intros ->. Qed.

(** C1, as amended: deletion and insertion candidates are bucketed by the
    key string of the decoded identity, not by content.  When the tree diff
    reports one deleted path (identity [k1]) and one added path (identity
    [k2]) and nothing else, [diff] returns exactly one update, keyed by [k1],
    if the two key strings are equal, and otherwise one delete of [k1] and one
    insert, whatever the two contents are.  Within a bucket the rename pass
    pairs the first staged deletion with the first staged insertion and
    records the update under the identity of the deleted item; a deletion
    bucket without an insertion bucket of the same key is left alone. *)
Theorem move_pairing_by_key (self other : DS) (pk_filter : string -> bool)
    (d1 d2 : DiffDelta) (p1 p2 : string) :
  let k1 := str (decode_path_to_1pk self p1) in
  let k2 := str (decode_path_to_1pk other p2) in
  let f1 := get_feature self (decode_path_to_1pk self p1) (Some false) in
  let f2 := get_feature other (decode_path_to_1pk other p2) (Some false) in
  status d1 = GIT_DELTA_DELETED -> old_file d1 = Some {| file_path := p1 |} ->
  status d2 = GIT_DELTA_ADDED -> new_file d2 = Some {| file_path := p2 |} ->
  touches_meta d1 = false -> touches_meta d2 = false ->
  pk_filter k1 = true -> pk_filter k2 = true ->
  (diff_to_tree (tree self) (Some (tree other)) false = [d1; d2] \/
   diff_to_tree (tree self) (Some (tree other)) false = [d2; d1]) ->
  diff diff_to_tree self (Some other) pk_filter false =
    Ok (if String.eqb k1 k2
        then {| meta := []; inserts := []; deletes := [];
                updates := [(k1, (f1, f2))] |}
        else {| meta := []; inserts := [f2]; deletes := [(k1, f1)];
                updates := [] |})
  /\ (forall h c tk x xs y ys,
        dict_get h (candidates_del c) = Some ((tk, x) :: xs) ->
        dict_get h (candidates_ins c) = Some (y :: ys) ->
        detect_rename h c =
        Ok {| candidates_ins := popped h ys (candidates_ins c);
              candidates_upd := dict_set tk (x, y) (candidates_upd c);
              candidates_del := popped h xs (candidates_del c) |})
  /\ (forall h c, dict_mem h (candidates_ins c) = false -> detect_rename h c = Ok c).
Proof.
  intros k1 k2 f1 f2 Hs1 Ho1 Hs2 Hn2 Hm1 Hm2 Hf1 Hf2 Hds.
  split; [|split; [apply detect_rename_pairs_first|apply detect_rename_unpaired]].
  unfold touches_meta in Hm1, Hm2.
  apply orb_false_iff in Hm1 as [Hm1 Hm1'], Hm2 as [Hm2 Hm2'].
  assert (Hd1 : forall c, diff_delta (Some self) (Some other) (Some other) pk_filter c d1
            = Ok {| candidates_ins := candidates_ins c;
                    candidates_upd := candidates_upd c;
                    candidates_del := dd_append k1 (k1, f1) (candidates_del c) |}).
  { intros c. unfold diff_delta. rewrite Hm1, Hm1', Hs1, Ho1. simpl.
    fold k1. by rewrite Hf1. }
  assert (Hd2 : forall c, diff_delta (Some self) (Some other) (Some other) pk_filter c d2
            = Ok {| candidates_ins := dd_append k2 f2 (candidates_ins c);
                    candidates_upd := candidates_upd c;
                    candidates_del := candidates_del c |}).
  { intros c. unfold diff_delta. rewrite Hm2, Hm2', Hs2, Hn2. simpl.
    fold k2. by rewrite Hf2. }
  unfold diff, diff_candidates. simpl.
  assert (Hdone : diff_deltas (Some self) (Some other) (Some other) pk_filter
                    (diff_to_tree (tree self) (Some (tree other)) false) no_candidates
                  = Ok {| candidates_ins := [(k2, [f2])]; candidates_upd := [];
                          candidates_del := [(k1, [(k1, f1)])] |}).
  { destruct Hds as [-> | ->]; simpl; rewrite ?Hd1, ?Hd2; simpl;
      rewrite ?Hd1, ?Hd2; simpl; by rewrite !dd_append_spec. }
  rewrite Hdone.
  change (Ok ?c ≫= ?f) with (f c). cbn beta.
  change (detect_renames _ ?c) with (c' ← detect_rename k1 c; Ok c').
  destruct (String.eqb k1 k2) eqn:E.
  - rewrite (detect_rename_pairs_first k1 _ k1 f1 [] f2 []);
      [|by simpl; rewrite ?eqb_refl', ?E..].
    simpl. by rewrite eqb_refl', E.
  - rewrite detect_rename_unpaired; [done|].
    unfold dict_mem. simpl. by rewrite E.
Qed.

End Dataset.

(** C1: the old tree holds content [C] under [k1], the new tree holds the
    same content under [k2], nothing else changed: [diff] returns a delete
    and an insert, and no update. *)
Lemma move_not_paired_by_content :
  let old := Examples.names Examples.old_names in
  let new := Examples.names Examples.new_names in
  get_feature old (PyStr "k1") (Some false) = Examples.content_C /\
  get_feature new (PyStr "k2") (Some false) = Examples.content_C /\
  Examples.ex_diff_to_tree (tree old) (Some (tree new)) false
  = [Examples.both GIT_DELTA_DELETED ".sno-table/features/k1";
     Examples.both GIT_DELTA_ADDED ".sno-table/features/k2"] /\
  diff Examples.ex_diff_to_tree old (Some new) UNFILTERED false
  = Ok {| meta := []; inserts := [Examples.content_C];
          deletes := [("k1", Examples.content_C)]; updates := [] |}.
Proof. repeat split; reflexivity. Qed.

Lemma move_pairing_by_key_witness :
  let self := Examples.names Examples.old_names in
  let other := Examples.names Examples.new_names in
  diff Examples.ex_diff_to_tree self (Some other) UNFILTERED false =
    Ok (if String.eqb "k1" "k2"
        then {| meta := []; inserts := []; deletes := [];
                updates := [("k1", (Examples.content_C, Examples.content_C))] |}
        else {| meta := []; inserts := [Examples.content_C];
                deletes := [("k1", Examples.content_C)]; updates := [] |})
  /\ (forall h c tk x xs y ys,
        dict_get h (candidates_del c) = Some ((tk, x) :: xs) ->
        dict_get h (candidates_ins c) = Some (y :: ys) ->
        detect_rename h c =
        Ok {| candidates_ins := popped h ys (candidates_ins c);
              candidates_upd := dict_set tk (x, y) (candidates_upd c);
              candidates_del := popped h xs (candidates_del c) |})
  /\ (forall h c, dict_mem h (candidates_ins c) = false -> detect_rename h c = Ok c).
Proof.
  apply (move_pairing_by_key Examples.ex_diff_to_tree
           (Examples.names Examples.old_names) (Examples.names Examples.new_names)
           UNFILTERED
           (Examples.both GIT_DELTA_DELETED ".sno-table/features/k1")
           (Examples.both GIT_DELTA_ADDED ".sno-table/features/k2")
           ".sno-table/features/k1" ".sno-table/features/k2");
    try reflexivity.
  left. reflexivity.
Defined.

End MoveFacts.

(** ** Pruning diffs *)

Module PruneFacts.

Import Py Structure DiffStructs KartDiff.

Lemma filter_idem {A} (P : A -> bool) (l : list A) :
  List.filter P (List.filter P l) = List.filter P l.
Proof.
  induction l as [|x l IH]; simpl; [done|].
  destruct (P x) eqn:E; simpl; by rewrite ?E, IH.
Qed.

Lemma prune_dataset_diff_idem (d : DatasetDiff) :
  prune_dataset_diff (prune_dataset_diff d) = prune_dataset_diff d.
Proof. apply filter_idem. Qed.

Lemma prune_dataset_diff_no_empty (d : DatasetDiff) :
  no_empty_entry (prune_dataset_diff d).
Proof.
  unfold no_empty_entry, prune_dataset_diff.
  induction d as [|[k v] d IH]; simpl; [constructor|].
  destruct v; simpl; [done|]. by constructor.
Qed.

Lemma prune_dataset_diff_deltas (d : DatasetDiff) :
  deltas_of_dataset_diff (prune_dataset_diff d) = deltas_of_dataset_diff d.
Proof.
  unfold deltas_of_dataset_diff, prune_dataset_diff.
  induction d as [|[k v] d IH]; simpl; [done|].
  destruct v; simpl; [done|]. by rewrite IH.
Qed.

Lemma prune_dataset_diff_fixed (d : DatasetDiff) :
  no_empty_entry d -> prune_dataset_diff d = d.
Proof.
  unfold no_empty_entry, prune_dataset_diff.
  induction 1 as [|[k v] d Hv Hd IH]; simpl; [done|].
  destruct v; simpl in *; [done|]. by rewrite IH.
Qed.

Lemma prune_repo_diff_no_empty (r : RepoDiff) :
  no_empty_dataset (prune_repo_diff r).
Proof.
  unfold no_empty_dataset, prune_repo_diff.
  induction r as [|[k v] r IH]; simpl; [constructor|].
  destruct (prune_dataset_diff v) eqn:E; simpl; [done|].
  constructor; [|done]. simpl. split; [done|].
  rewrite <- E. apply prune_dataset_diff_no_empty.
Qed.

Lemma prune_repo_diff_fixed (r : RepoDiff) :
  no_empty_dataset r -> prune_repo_diff r = r.
Proof.
  unfold no_empty_dataset, prune_repo_diff.
  induction 1 as [|[k v] r [Hv Hv'] Hr IH]; simpl; [done|].
  simpl in *. rewrite prune_dataset_diff_fixed by done.
  destruct v; simpl; [done|]. by rewrite IH.
Qed.

Lemma prune_repo_diff_idem (r : RepoDiff) :
  prune_repo_diff (prune_repo_diff r) = prune_repo_diff r.
Proof. apply prune_repo_diff_fixed, prune_repo_diff_no_empty. Qed.

Lemma deltas_of_empty_dataset_diff (d : DatasetDiff) :
  prune_dataset_diff d = [] -> deltas_of_dataset_diff d = [].
Proof. intros H. by rewrite <- prune_dataset_diff_deltas, H. Qed.

Lemma prune_repo_diff_deltas (r : RepoDiff) :
  deltas_of_repo_diff (prune_repo_diff r) = deltas_of_repo_diff r.
Proof.
  unfold deltas_of_repo_diff, prune_repo_diff.
  induction r as [|[k v] r IH]; simpl; [done|].
  rewrite <- (prune_dataset_diff_deltas v).
  destruct (prune_dataset_diff v) eqn:E; simpl; by rewrite IH.
Qed.

Lemma len_dataset_diff_deltas (d : DatasetDiff) :
  len_dataset_diff d = length (deltas_of_dataset_diff d).
Proof.
  unfold len_dataset_diff, deltas_of_dataset_diff.
  induction d as [|[k v] d IH]; simpl; [done|].
  by rewrite length_app, length_map, IH.
Qed.

Lemma len_repo_diff_deltas (r : RepoDiff) :
  len_repo_diff r = length (deltas_of_repo_diff r).
Proof.
  unfold len_repo_diff, deltas_of_repo_diff.
  induction r as [|[k v] r IH]; simpl; [done|].
  by rewrite length_app, length_map, IH, len_dataset_diff_deltas.
Qed.

Lemma no_empty_entry_deltas (d : DatasetDiff) :
  no_empty_entry d -> (d = [] <-> deltas_of_dataset_diff d = []).
Proof.
  destruct 1 as [|[k v] d Hv Hd]; [done|]. simpl in Hv.
  split; [done|]. unfold deltas_of_dataset_diff. simpl. by destruct v.
Qed.

Lemma no_empty_dataset_deltas (r : RepoDiff) :
  no_empty_dataset r -> (r = [] <-> deltas_of_repo_diff r = []).
Proof.
  destruct 1 as [|[k v] r [Hv Hv'] Hr]; [done|]. simpl in Hv, Hv'.
  split; [done|]. unfold deltas_of_repo_diff. simpl.
  destruct (deltas_of_dataset_diff v) eqn:E; [|done].
  apply no_empty_entry_deltas in E; done.
Qed.

Section Repo.

Context {RepoStructure Dataset WorkingCopy DatasetFilter : Type}.
Variable rs_ne : RepoStructure -> RepoStructure -> bool.
Variable datasets_get : RepoStructure -> string -> option Dataset.
Variable dataset_paths : RepoStructure -> list string.
Variable dataset_diff :
  Dataset -> option Dataset -> DatasetFilter -> bool -> result DatasetDiff.
Variable diff_db_to_tree :
  WorkingCopy -> option Dataset -> DatasetFilter -> result DatasetDiff.
Variable UNFILTERED : DatasetFilter.

Lemma get_dataset_diff_pruned base_rs target_rs working_copy dataset_path ds_filter d :
  get_dataset_diff rs_ne datasets_get dataset_diff diff_db_to_tree
    base_rs target_rs working_copy dataset_path ds_filter = Ok d ->
  exists d0, d = prune_dataset_diff d0.
Proof.
  unfold get_dataset_diff.
  destruct (if rs_ne base_rs target_rs then _ else _) as [d1|]; simpl; [|done].
  destruct (match working_copy with Some _ => _ | None => _ end) as [d2|]; simpl; [|done].
  intros [= <-]. by eexists.
Qed.

Lemma get_repo_diff_pruned base_rs target_rs feature_filter r :
  get_repo_diff rs_ne datasets_get dataset_paths dataset_diff diff_db_to_tree UNFILTERED
    base_rs target_rs feature_filter = Ok r ->
  exists r0, r = prune_repo_diff r0.
Proof.
  unfold get_repo_diff.
  destruct (repo_diff_loop _ _ _ _ _ _ _ _ _ _) as [r1|]; simpl; [|done].
  intros [= <-]. by eexists.
Qed.

(** C8: pruning a dataset diff or a repository diff twice is pruning it
    once; pruning keeps every delta where it was; after pruning no nested
    entry is empty, so the pruned diff is empty exactly when the diff has no
    delta; and what [get_dataset_diff] and [get_repo_diff] return has no empty
    entry. *)
Theorem prune_idempotent_and_lossless :
  (forall d : DatasetDiff,
      prune_dataset_diff (prune_dataset_diff d) = prune_dataset_diff d /\
      deltas_of_dataset_diff (prune_dataset_diff d) = deltas_of_dataset_diff d /\
      no_empty_entry (prune_dataset_diff d) /\
      (prune_dataset_diff d = [] <-> len_dataset_diff d = 0)) /\
  (forall r : RepoDiff,
      prune_repo_diff (prune_repo_diff r) = prune_repo_diff r /\
      deltas_of_repo_diff (prune_repo_diff r) = deltas_of_repo_diff r /\
      no_empty_dataset (prune_repo_diff r) /\
      (prune_repo_diff r = [] <-> len_repo_diff r = 0)) /\
  (forall base_rs target_rs working_copy dataset_path ds_filter d,
      get_dataset_diff rs_ne datasets_get dataset_diff diff_db_to_tree
        base_rs target_rs working_copy dataset_path ds_filter = Ok d ->
      no_empty_entry d) /\
  (forall base_rs target_rs feature_filter r,
      get_repo_diff rs_ne datasets_get dataset_paths dataset_diff diff_db_to_tree
        UNFILTERED base_rs target_rs feature_filter = Ok r ->
      no_empty_dataset r).
Proof.
  repeat split.
  - apply prune_dataset_diff_idem.
  - apply prune_dataset_diff_deltas.
  - apply prune_dataset_diff_no_empty.
  - intros H. rewrite len_dataset_diff_deltas, <- prune_dataset_diff_deltas, H. done.
  - intros H. rewrite len_dataset_diff_deltas, <- prune_dataset_diff_deltas in H.
    apply length_zero_iff_nil in H.
    by apply no_empty_entry_deltas in H; [|apply prune_dataset_diff_no_empty].
  - apply prune_repo_diff_idem.
  - apply prune_repo_diff_deltas.
  - apply prune_repo_diff_no_empty.
  - intros H. rewrite len_repo_diff_deltas, <- prune_repo_diff_deltas, H. done.
  - intros H. rewrite len_repo_diff_deltas, <- prune_repo_diff_deltas in H.
    apply length_zero_iff_nil in H.
    by apply no_empty_dataset_deltas in H; [|apply prune_repo_diff_no_empty].
  - intros ? ? ? ? ? d (d0 & ->)%get_dataset_diff_pruned.
    apply prune_dataset_diff_no_empty.
  - intros ? ? ? r (r0 & ->)%get_repo_diff_pruned.
    apply prune_repo_diff_no_empty.
Qed.

End Repo.

Lemma prune_idempotent_and_lossless_witness :
  no_empty_entry Examples3.feature_changes /\
  no_empty_dataset [("points", Examples3.feature_changes)].
Proof.
  pose proof (prune_idempotent_and_lossless Examples3.rs_ne Examples3.datasets_get
                Examples3.dataset_paths Examples3.dataset_diff
                Examples3.diff_db_to_tree tt) as (_ & _ & Hd & Hr).
  split.
  - apply (Hd 0 1 None "points" tt Examples3.feature_changes). reflexivity.
  - apply (Hr 0 1 Unfiltered [("points", Examples3.feature_changes)]). reflexivity.
Defined.

End PruneFacts.

(** ** Merge resolution *)

Module MergeFacts.

Import Py Merge.

Lemma lookup_set_eq {V} (k : ItemKey) (v : V) (l : list (ItemKey * V)) :
  lookup_key k (set_key k v l) = Some v.
Proof.
  induction l as [|[k' v'] l IH]; simpl.
  - by rewrite decide_True.
  - destruct (decide (k = k')) as [->|Hne]; simpl.
    + by rewrite decide_True.
    + by rewrite decide_False.
Qed.

Lemma lookup_set_ne {V} (x k : ItemKey) (v : V) (l : list (ItemKey * V)) :
  x <> k -> lookup_key x (set_key k v l) = lookup_key x l.
Proof.
  intros Hne. induction l as [|[k' v'] l IH]; simpl.
  - by rewrite decide_False.
  - destruct (decide (k = k')) as [->|Hne']; simpl.
    + by rewrite !decide_False.
    + destruct (decide (x = k')); [done|apply IH].
Qed.

Lemma lookup_delete_eq {V} (k : ItemKey) (l : list (ItemKey * V)) :
  lookup_key k (delete_key k l) = None.
Proof.
  induction l as [|[k' v'] l IH]; simpl; [done|].
  destruct (decide (k = k')) as [->|Hne]; simpl; [done|].
  by rewrite decide_False.
Qed.

Lemma lookup_delete_ne {V} (x k : ItemKey) (l : list (ItemKey * V)) :
  x <> k -> lookup_key x (delete_key k l) = lookup_key x l.
Proof.
  intros Hne. induction l as [|[k' v'] l IH]; simpl; [done|].
  destruct (decide (k = k')) as [->|Hne']; simpl.
  - by rewrite decide_False.
  - destruct (decide (x = k')); [done|apply IH].
Qed.

Lemma lookup_write_versions (x : ItemKey) (vs : list Version) (e : list (ItemKey * string)) :
  ~ In x (map version_key vs) ->
  lookup_key x (fold_left write_version vs e) = lookup_key x e.
Proof.
  revert e. induction vs as [|v vs IH]; intros e Hx; simpl; [done|].
  rewrite IH by (intros ?; apply Hx; by right).
  apply lookup_set_ne. intros ->. apply Hx. by left.
Qed.

Lemma lookup_apply_resolve_other x e k vs :
  x <> k -> ~ In x (map version_key vs) ->
  lookup_key x (apply_resolve e k vs) = lookup_key x e.
Proof.
  intros Hk Hvs. unfold apply_resolve.
  rewrite lookup_write_versions by done. by apply lookup_delete_ne.
Qed.

Lemma finalize_conflicts_app c1 c2 res e :
  finalize_conflicts (c1 ++ c2) res e =
  e1 ← finalize_conflicts c1 res e; finalize_conflicts c2 res e1.
Proof.
  revert e. induction c1 as [|[k c] c1 IH]; intros e; simpl; [done|].
  destruct (lookup_key k res); [apply IH|done].
Qed.

Lemma finalize_conflicts_succeeds cs res e :
  (forall k, In k (map fst cs) -> is_Some (lookup_key k res)) ->
  exists out, finalize_conflicts cs res e = Ok out.
Proof.
  revert e. induction cs as [|[k c] cs IH]; intros e H; simpl; [by eexists|].
  destruct (H k) as [vs ->]; [by left|].
  apply IH. intros k' Hk'. apply H. by right.
Qed.

(** An identity that no conflict of [cs] is about, and that none of their
    resolutions writes, is as it was. *)
Lemma finalize_conflicts_untouched x cs res e out :
  (forall k vs, In k (map fst cs) -> lookup_key k res = Some vs ->
                k <> x /\ ~ In x (map version_key vs)) ->
  finalize_conflicts cs res e = Ok out ->
  lookup_key x out = lookup_key x e.
Proof.
  revert e. induction cs as [|[k c] cs IH]; intros e H; simpl.
  - by intros [= <-].
  - destruct (lookup_key k res) as [vs|] eqn:E; [|done].
    intros Hout. rewrite (IH _ (fun k' vs' Hin => H k' vs' (or_intror Hin)) Hout).
    destruct (H k vs) as [Hne Hvs]; [by left|done|].
    by apply lookup_apply_resolve_other.
Qed.

Lemma conflicts_split {V} (k : ItemKey) (cs : list (ItemKey * V)) :
  In k (map fst cs) -> NoDup (map fst cs) ->
  exists c1 c c2, cs = c1 ++ (k, c) :: c2 /\
                  ~ In k (map fst c1) /\ ~ In k (map fst c2).
Proof.
  induction cs as [|[k' c'] cs IH]; simpl; [done|].
  intros Hin Hnd. apply NoDup_cons in Hnd as [Hk' Hnd].
  destruct (decide (k' = k)) as [->|Hne].
  - exists [], c', cs. repeat split; [tauto|].
    by intros ?%list_elem_of_In.
  - destruct Hin as [?|Hin]; [done|].
    destruct (IH Hin Hnd) as (c1 & c & c2 & -> & H1 & H2).
    exists ((k', c') :: c1), c, c2. repeat split; [|done].
    simpl. intros [?|?]; done.
Qed.

Lemma resolve_Ok mi k vs mi' :
  resolve mi k vs = Ok mi' ->
  mi' = {| entries := entries mi; conflicts := conflicts mi;
           resolves := set_key k vs (resolves mi) |}.
Proof.
  unfold resolve.
  destruct (key_kind k), (unresolved_meta_conflicts mi (key_dataset k));
    by intros [= <-].
Qed.

(** C5: resolving the conflict about [k] and finalizing the merge puts the
    resolution into the output tree.  With one version [v], exactly [v] is
    at the identity of [v] (the identity [k] itself when [v] keeps it, and
    then nothing else is left at [k]); with no version, the identity [k] is
    absent; with two versions of distinct identities, both are present.  All
    conflicts are resolved when the merge is finalized, and the other
    conflicts and their resolutions are about other identities. *)
Theorem resolution_round_trip mi k vs mi' :
  In k (map fst (conflicts mi)) ->
  NoDup (map fst (conflicts mi)) ->
  resolve mi k vs = Ok mi' ->
  all_resolved mi' ->
  independent mi k vs ->
  exists out,
    finalize mi' = Ok out /\
    (forall v, vs = [v] ->
       lookup_key (version_key v) out = Some (version_content v) /\
       (version_key v <> k -> lookup_key k out = None)) /\
    (vs = [] -> lookup_key k out = None) /\
    (forall v1 v2, vs = [v1; v2] -> version_key v1 <> version_key v2 ->
       lookup_key (version_key v1) out = Some (version_content v1) /\
       lookup_key (version_key v2) out = Some (version_content v2)).
Proof.
  intros Hin Hnd Hres Hall Hind. apply resolve_Ok in Hres. subst mi'.
  unfold finalize, all_resolved in *. simpl in *.
  destruct (finalize_conflicts_succeeds (conflicts mi)
              (set_key k vs (resolves mi)) (entries mi) Hall) as [out Hout].
  exists out. split; [done|].
  destruct (conflicts_split k (conflicts mi) Hin Hnd) as (c1 & c & c2 & Ecs & Hc1 & Hc2).
  rewrite Ecs, finalize_conflicts_app in Hout.
  destruct (finalize_conflicts c1 _ _) as [e1|] eqn:E1; simpl in Hout; [|done].
  rewrite lookup_set_eq in Hout.
  (* identities written or cleared by the resolution of [k] survive the rest *)
  assert (Hrest : forall x, In x (k :: map version_key vs) ->
            lookup_key x out = lookup_key x (apply_resolve e1 k vs)).
  { intros x Hx. eapply finalize_conflicts_untouched; [|exact Hout].
    intros k' vs' Hk' Hl.
    assert (Hne : k' <> k) by (by intros ->).
    rewrite lookup_set_ne in Hl by done.
    destruct (Hind k' vs') as [Hi1 Hi2]; [|done|done|].
    { rewrite Ecs, map_app, in_app_iff. right. by right. }
    split.
    - intros ->. destruct Hx as [?|Hx]; [done|]. by apply Hi1.
    - intros (v' & Hv' & Hin')%in_map_iff. apply (Hi2 v' Hin'). by rewrite Hv'. }
  split; [|split].
  - intros v ->. split.
    + rewrite Hrest by (simpl; auto).
      unfold apply_resolve. simpl. apply lookup_set_eq.
    + intros Hne. rewrite Hrest by (simpl; auto).
      unfold apply_resolve. simpl. unfold write_version.
      rewrite lookup_set_ne by done. apply lookup_delete_eq.
  - intros ->. rewrite Hrest by (simpl; auto).
    unfold apply_resolve. simpl. apply lookup_delete_eq.
  - intros v1 v2 -> Hne. split.
    + rewrite Hrest by (simpl; auto).
      unfold apply_resolve. simpl. unfold write_version at 1.
      rewrite lookup_set_ne by done. apply lookup_set_eq.
    + rewrite Hrest by (simpl; auto).
      unfold apply_resolve. simpl. apply lookup_set_eq.
Qed.

Lemma is_resolved_set mi k vs x :
  is_resolved {| entries := entries mi; conflicts := conflicts mi;
                 resolves := set_key k vs (resolves mi) |} x
  = if decide (x = k) then true else is_resolved mi x.
Proof.
  unfold is_resolved. simpl. destruct (decide (x = k)) as [->|Hne].
  - by rewrite lookup_set_eq.
  - by rewrite lookup_set_ne.
Qed.

Lemma filter_filter {A} (P Q : A -> bool) (l : list A) :
  List.filter (fun x => P x && Q x) l = List.filter Q (List.filter P l).
Proof.
  induction l as [|x l IH]; simpl; [done|].
  destruct (P x); simpl; [|done]. destruct (Q x); by rewrite IH.
Qed.

Lemma unresolved_after_resolve mi k vs dataset :
  unresolved_meta_conflicts
    {| entries := entries mi; conflicts := conflicts mi;
       resolves := set_key k vs (resolves mi) |} dataset
  = List.filter (fun x => negb (bool_decide (x = k)))
      (unresolved_meta_conflicts mi dataset).
Proof.
  unfold unresolved_meta_conflicts. simpl. rewrite <- filter_filter.
  apply filter_ext. intros x. rewrite is_resolved_set.
  destruct (decide (x = k)) as [->|Hne].
  - rewrite (bool_decide_true (k = k)) by done. simpl. by rewrite !andb_false_r.
  - rewrite (bool_decide_false (x = k)) by done. simpl. by rewrite andb_true_r.
Qed.

Lemma unresolved_is_meta mi dataset m :
  In m (unresolved_meta_conflicts mi dataset) -> key_kind m = MetaItem.
Proof.
  unfold unresolved_meta_conflicts. intros [_ H]%filter_In.
  apply andb_true_iff in H as [H _]. apply andb_true_iff in H as [_ H].
  by apply bool_decide_eq_true in H.
Qed.

(** C4: while a dataset has an unresolved meta-item conflict, resolving a
    feature conflict of that dataset fails with [InvalidOperation]; without
    one it succeeds and records the resolution, leaving the entries alone; and
    once the one unresolved meta conflict is resolved, resolving the same
    feature conflict succeeds. *)
Theorem meta_conflicts_gate_features mi k vs :
  key_kind k = FeatureItem ->
  (unresolved_meta_conflicts mi (key_dataset k) <> [] ->
   resolve mi k vs = Raise (InvalidOperation INVALID_OPERATION)) /\
  (unresolved_meta_conflicts mi (key_dataset k) = [] ->
   exists mi', resolve mi k vs = Ok mi' /\
               lookup_key k (resolves mi') = Some vs /\
               entries mi' = entries mi) /\
  (forall m vm,
     unresolved_meta_conflicts mi (key_dataset k) = [m] ->
     exists mi1 mi2,
       resolve mi m vm = Ok mi1 /\
       unresolved_meta_conflicts mi1 (key_dataset k) = [] /\
       resolve mi1 k vs = Ok mi2 /\
       lookup_key k (resolves mi2) = Some vs).
Proof.
  intros Hk. split; [|split].
  - unfold resolve. rewrite Hk.
    by destruct (unresolved_meta_conflicts mi (key_dataset k)).
  - intros Hnone. unfold resolve. rewrite Hk, Hnone.
    eexists. split; [done|]. simpl. by rewrite lookup_set_eq.
  - intros m vm Hm.
    assert (Hmeta : key_kind m = MetaItem).
    { apply (unresolved_is_meta mi (key_dataset k)). rewrite Hm. by left. }
    assert (Hnone : unresolved_meta_conflicts
              {| entries := entries mi; conflicts := conflicts mi;
                 resolves := set_key m vm (resolves mi) |} (key_dataset k) = []).
    { rewrite unresolved_after_resolve, Hm. simpl.
      by rewrite bool_decide_true. }
    do 2 eexists. split; [|split; [|split]].
    + unfold resolve. by rewrite Hmeta.
    + done.
    + unfold resolve. by rewrite Hk, Hnone.
    + simpl. by rewrite lookup_set_eq.
Qed.

Lemma meta_conflicts_gate_features_witness :
  let mi := Examples4.merging in
  let k := Examples4.feature "9999999" in
  let vs := [Examples4.version k "pink"] in
  (unresolved_meta_conflicts mi (key_dataset k) <> [] ->
   resolve mi k vs = Raise (InvalidOperation INVALID_OPERATION)) /\
  (unresolved_meta_conflicts mi (key_dataset k) = [] ->
   exists mi', resolve mi k vs = Ok mi' /\
               lookup_key k (resolves mi') = Some vs /\
               entries mi' = entries mi) /\
  (forall m vm,
     unresolved_meta_conflicts mi (key_dataset k) = [m] ->
     exists mi1 mi2,
       resolve mi m vm = Ok mi1 /\
       unresolved_meta_conflicts mi1 (key_dataset k) = [] /\
       resolve mi1 k vs = Ok mi2 /\
       lookup_key k (resolves mi2) = Some vs).
Proof.
  apply (meta_conflicts_gate_features Examples4.merging
           (Examples4.feature "9999999")
           [Examples4.version (Examples4.feature "9999999") "pink"]).
  reflexivity.
Defined.

Lemma resolution_round_trip_witness :
  let k := Examples4.feature "9999999" in
  let vs := [Examples4.version k "white"] in
  exists out,
    finalize {| entries := entries Examples4.schema_resolved;
                conflicts := conflicts Examples4.schema_resolved;
                resolves := set_key k vs (resolves Examples4.schema_resolved) |}
    = Ok out /\
    (forall v, vs = [v] ->
       lookup_key (version_key v) out = Some (version_content v) /\
       (version_key v <> k -> lookup_key k out = None)) /\
    (vs = [] -> lookup_key k out = None) /\
    (forall v1 v2, vs = [v1; v2] -> version_key v1 <> version_key v2 ->
       lookup_key (version_key v1) out = Some (version_content v1) /\
       lookup_key (version_key v2) out = Some (version_content v2)).
Proof.
  apply (resolution_round_trip Examples4.schema_resolved
           (Examples4.feature "9999999")
           [Examples4.version (Examples4.feature "9999999") "white"]).
  - simpl. right. by left.
  - simpl. apply NoDup_cons. split; [|apply NoDup_singleton].
    by intros ?%list_elem_of_singleton.
  - reflexivity.
  - intros k'. simpl. intros [<-|[<-|[]]]; by eexists.
  - intros k' vs'. simpl. intros [<-|[<-|[]]] Hne; [|done].
    intros [= <-]. split.
    + intros [?|[]]. done.
    + intros v' [<-|[]]. simpl. intros [?|[?|[]]]; done.
Defined.

End MergeFacts.

(** ** Paths, names and versions of a dataset *)

Module StrFacts.

Import Py Structure Exc DictFacts.

Lemma append_nil_l (s : string) : "" +:+ s = s.
Proof. reflexivity. Qed.

Lemma append_cons (x : ascii) (a b : string) : String x a +:+ b = String x (a +:+ b).
Proof. reflexivity. Qed.

Lemma append_assoc (a b c : string) : (a +:+ b) +:+ c = a +:+ (b +:+ c).
Proof.
  induction a as [|x a IH]; [done|]. by rewrite !append_cons, IH.
Qed.

Lemma length_append (a b : string) :
  String.length (a +:+ b) = String.length a + String.length b.
Proof.
  induction a as [|x a IH]; [done|]. rewrite append_cons. simpl. by rewrite IH.
Qed.

Lemma prefix_append (p s : string) : String.prefix p (p +:+ s) = true.
Proof.
  induction p as [|x p IH]; [by destruct s|].
  rewrite append_cons. simpl.
  destruct (ascii_dec x x); [done|congruence].
Qed.

Lemma drop_append (p s : string) : Str.drop (String.length p) (p +:+ s) = s.
Proof. induction p as [|x p IH]; [done|]. by rewrite append_cons. Qed.

Lemma prefix_split (p q : string) :
  String.prefix p q = true -> q = p +:+ Str.drop (String.length p) q.
Proof.
  revert q. induction p as [|x p IH]; intros q; simpl.
  { intros _. rewrite append_nil_l. by destruct q. }
  destruct q as [|y q]; simpl; [done|].
  destruct (ascii_dec x y) as [->|]; [|done].
  intros H. rewrite append_cons. by rewrite <- (IH q H).
Qed.

Lemma first_char_lstrip (c : ascii) (s : string) :
  Str.first_char (Str.lstrip c s) <> Some c.
Proof.
  induction s as [|x s IH]; simpl; [done|].
  destruct (Ascii.eqb_spec x c) as [->|Hne]; [done|]. simpl. congruence.
Qed.

Lemma last_char_rstrip (c : ascii) (s : string) :
  Str.last_char (Str.rstrip c s) <> Some c.
Proof.
  induction s as [|x s IH]; simpl; [done|].
  destruct (Str.rstrip c s) as [|y r] eqn:E.
  - destruct (Ascii.eqb_spec x c) as [->|Hne]; simpl; congruence.
  - simpl in *. done.
Qed.

Lemma first_char_rstrip (c : ascii) (s : string) :
  Str.rstrip c s = EmptyString \/ Str.first_char (Str.rstrip c s) = Str.first_char s.
Proof.
  destruct s as [|x s]; simpl; [by left|].
  destruct (Str.rstrip c s) as [|y r].
  - destruct (Ascii.eqb x c); [by left|by right].
  - by right.
Qed.

Lemma rstrip_fixed (c : ascii) (s : string) :
  Str.last_char s <> Some c -> Str.rstrip c s = s.
Proof.
  induction s as [|x s IH]; simpl; [done|].
  destruct s as [|y s].
  - simpl. intros H. destruct (Ascii.eqb_spec x c) as [->|]; [done|done].
  - intros H. rewrite IH by done. done.
Qed.

Lemma lstrip_fixed (c : ascii) (s : string) :
  Str.first_char s <> Some c -> Str.lstrip c s = s.
Proof.
  destruct s as [|x s]; simpl; [done|].
  destruct (Ascii.eqb_spec x c) as [->|]; done.
Qed.

Lemma string_mem_append (c : ascii) (a b : string) :
  string_mem c (a +:+ b) = string_mem c a || string_mem c b.
Proof.
  induction a as [|x a IH]; [done|]. rewrite append_cons. simpl.
  destruct (Ascii.eqb c x); [done|apply IH].
Qed.

Lemma string_mem_replace_char (c : ascii) (new s : string) :
  string_mem c new = false -> string_mem c (Str.replace_char c new s) = false.
Proof.
  intros Hnew. induction s as [|x s IH]; simpl; [done|].
  destruct (Ascii.eqb_spec x c) as [->|Hne].
  - by rewrite string_mem_append, Hnew, IH.
  - simpl. destruct (Ascii.eqb_spec c x) as [->|]; [done|apply IH].
Qed.

Lemma replace_char_absent (c : ascii) (new s : string) :
  string_mem c s = false -> Str.replace_char c new s = s.
Proof.
  induction s as [|x s IH]; simpl; [done|].
  destruct (Ascii.eqb_spec c x) as [->|Hne]; [done|].
  intros H. rewrite IH by done.
  destruct (Ascii.eqb_spec x c) as [->|]; done.
Qed.

Lemma first_char_absent (c : ascii) (s : string) :
  string_mem c s = false -> Str.first_char s <> Some c.
Proof.
  destruct s as [|x s]; simpl; [done|].
  destruct (Ascii.eqb_spec c x) as [->|]; [done|congruence].
Qed.

Lemma last_char_absent (c : ascii) (s : string) :
  string_mem c s = false -> Str.last_char s <> Some c.
Proof.
  induction s as [|x s IH]; simpl; [done|].
  destruct (Ascii.eqb_spec c x) as [->|Hne]; [done|].
  intros H. destruct s; [congruence|by apply IH].
Qed.

End StrFacts.

Module DatasetFacts.

Import Py Structure Exc Dataset StrFacts DictFacts.

(** X3: the path a dataset is constructed with is stored without leading
    and trailing slashes (stripping again changes nothing), and its name,
    where every slash is replaced by two underscores, contains no slash and
    is its own name. *)
Theorem init_path_and_name (p : string) :
  Str.first_char (init_path p) <> Some "/"%char /\
  Str.last_char (init_path p) <> Some "/"%char /\
  init_path (init_path p) = init_path p /\
  string_mem "/" (init_name p) = false /\
  init_name (init_name p) = init_name p.
Proof.
  assert (H1 : Str.first_char (init_path p) <> Some "/"%char).
  { unfold init_path, Str.strip.
    destruct (first_char_rstrip "/" (Str.lstrip "/" p)) as [->| ->]; [done|].
    apply first_char_lstrip. }
  assert (H2 : Str.last_char (init_path p) <> Some "/"%char)
    by apply last_char_rstrip.
  assert (H3 : string_mem "/" (init_name p) = false)
    by (by apply string_mem_replace_char).
  repeat split; try done.
  - unfold init_path at 1, Str.strip.
    by rewrite lstrip_fixed, rstrip_fixed.
  - unfold init_name at 1.
    assert (E : init_path (init_name p) = init_name p).
    { unfold init_path, Str.strip.
      rewrite lstrip_fixed, rstrip_fixed;
        [done|by apply last_char_absent|by apply first_char_absent]. }
    rewrite E. apply replace_char_absent. done.
Qed.

(** X1: [rel_path] undoes [full_path]: the relative path of the full path
    of [r] is [r]. *)
Theorem rel_path_full_path {Tree} (self : DatasetStructure (Tree := Tree)) (r : string) :
  rel_path self (full_path self r) = Returns r.
Proof.
  unfold rel_path, full_path, startswith.
  rewrite <- append_assoc, prefix_append. simpl.
  replace (String.length (path self) + 1) with (String.length (path self +:+ "/"))
    by (by rewrite length_append).
  by rewrite drop_append.
Qed.

(** X2: [rel_path] succeeds exactly on the full paths of the dataset, and
    then returns the relative path the full path was made of; on any other
    path it raises [ValueError]. *)
Theorem rel_path_inverts_full_path {Tree} (self : DatasetStructure (Tree := Tree))
    (q : string) :
  (exists r, q = full_path self r /\ rel_path self q = Returns r)
  \/ ((forall r, q <> full_path self r) /\
      rel_path self q
      = Raises (ValueError (q +:+ " is not a descendant of " +:+ path self))).
Proof.
  unfold rel_path, startswith.
  destruct (String.prefix (path self +:+ "/") q) eqn:E; simpl.
  - left. eexists. split; [|done]. apply prefix_split in E.
    rewrite length_append in E. simpl in E. unfold full_path.
    by rewrite <- append_assoc.
  - right. split; [|done]. intros r ->. unfold full_path in E.
    by rewrite <- append_assoc, prefix_append in E.
Qed.

Lemma str_PyStr_str (v : pyval) : str (PyStr (str v)) = str v.
Proof. done. Qed.

(** X4: for a primary key type without integer affinity, [cast_primary_key]
    returns a value with the same key string as its argument, casting the
    result again returns it unchanged, and [None] stays [None] (it is not
    turned into the string "None"). *)
Theorem cast_primary_key_keeps_key_string int_ (pk_type : string) (v : pyval) :
  Str.contains "INT" pk_type = false ->
  exists v', cast_primary_key int_ pk_type v = Returns v' /\
             str v' = str v /\
             cast_primary_key int_ pk_type v' = Returns v' /\
             (v = PyNone -> v' = PyNone).
Proof.
  intros Hint. unfold cast_primary_key. rewrite Hint.
  destruct (Str.contains "TEXT" pk_type || Str.contains "CHAR" pk_type
            || Str.contains "CLOB" pk_type) eqn:E.
  - destruct v; eexists; (split; [done|]); simpl; rewrite ?E; done.
  - destruct v; eexists; (split; [done|]); simpl; rewrite ?E; done.
Qed.

Lemma cast_primary_key_keeps_key_string_witness :
  exists v', cast_primary_key (fun v => Returns v) "VARCHAR(20)" (PyInt 7) = Returns v' /\
             str v' = str (PyInt 7) /\
             cast_primary_key (fun v => Returns v) "VARCHAR(20)" v' = Returns v' /\
             (PyInt 7 = PyNone -> v' = PyNone).
Proof.
  apply (cast_primary_key_keeps_key_string (fun v => Returns v) "VARCHAR(20)" (PyInt 7)).
  reflexivity.
Defined.





Lemma rename_table_spec name d :
  exists d', rename_table name (MetaDict d) = MetaDict d' /\
    keys d' = keys d /\
    (forall k, k <> "table_name" -> dict_get k d' = dict_get k d) /\
    (dict_mem "table_name" d = true -> dict_get "table_name" d' = Some (PyStr name)) /\
    (dict_mem "table_name" d = false -> d' = d).
Proof.
  unfold rename_table. destruct d as [|e d]; [by exists []|].
  destruct (dict_mem "table_name" (e :: d)) eqn:E.
  - eexists. split; [done|]. repeat split.
    + by rewrite keys_dict_set, E.
    + intros k Hk. rewrite dict_get_set. by rewrite eqb_ne.
    + intros _. rewrite dict_get_set. by rewrite eqb_refl'.
    + done.
  - by eexists.
Qed.

Lemma rename_table_dicts name (v : meta_item) :
  Forall2 (renamed name)
    (match rename_table name v with MetaDict d => [d] | MetaNone => [] end)
    (match v with MetaDict d => [d] | MetaNone => [] end).
Proof.
  destruct v as [|d]; [constructor|].
  destruct (rename_table_spec name d) as (d' & -> & ? & ? & ? & ?).
  by repeat constructor.
Qed.

Lemma rename_tables_dicts name (value : meta_value) :
  Forall2 (renamed name) (dicts_of (rename_tables name value)) (dicts_of value).
Proof.
  destruct value as [v|l]; simpl.
  - pose proof (rename_table_dicts name v) as H.
    destruct v as [|d]; [constructor|].
    by destruct (rename_table name (MetaDict d)).
  - induction l as [|v l IH]; simpl; [constructor|].
    apply Forall2_app; [apply rename_table_dicts|done].
Qed.

(** X7: [import_meta_items] yields the version item first and then the
    items of the source under their names and in their order; each
    dictionary among their values keeps its keys and values, except that a
    ["table_name"] entry it has is set to the name of the dataset. *)
Theorem import_meta_items_renames (version_import name : string)
    (source : list (string * meta_value)) :
  exists items,
    import_meta_items version_import name source
    = ("version", One (MetaDict [("version", PyStr version_import)])) :: items /\
    Forall2 (fun out item =>
               fst out = fst item /\
               Forall2 (renamed name) (dicts_of (snd out)) (dicts_of (snd item)))
            items source.
Proof.
  unfold import_meta_items. eexists. split; [done|].
  induction source as [|[n v] source IH]; simpl; constructor; [|done].
  simpl. split; [done|]. apply rename_tables_dicts.
Qed.

End DatasetFacts.

(** * More on [write_index] *)

Module WriteIndexMore.

Import Py Structure ApplySpec WriteIndexSpec DictFacts WriteIndexFacts.

Section Dataset.

Context {Tree : Type}.
Variable self : DatasetStructure (Tree := Tree).
Variable repo : Repo.

Abbreviation pk_field := (primary_key self).









(** [write_index] on a well-formed diff without meta changes is a run. *)
Lemma write_index_run (d : Diff) (idx : gmap string IndexEntry) :
  meta d = [] -> well_formed self d ->
  exists idx' out,
    run self repo idx (deltas_of d) idx' out /\
    write_index self d idx repo =
      (if reported out then Raise (InvalidOperation PATCH_DOES_NOT_APPLY) else Ok tt,
       idx', out).
Proof.
  intros Hmeta (Hd & Hi & Hu).
  unfold write_index, write_index_body. rewrite Hmeta.
  set (s0 := {| index := idx; echoed := []; conflicts := false |}).
  destruct (for_each_run self repo (write_delete self pk_field)
              (fun item => Delete (snd item)) (deletes d))
    with (s := s0) as (idx1 & out1 & Hrun1 & E1).
  { eapply Forall_impl; [exact Hd|]. intros item. apply write_delete_steps. }
  destruct (for_each_run self repo (write_insert self repo pk_field) Insert (inserts d))
    with (s := after s0 idx1 out1) as (idx2 & out2 & Hrun2 & E2).
  { eapply Forall_impl; [exact Hi|]. intros f. apply write_insert_steps. }
  destruct (for_each_run self repo
              (write_update self repo pk_field (geom_column_name self))
              (fun item => Update (fst (snd item)) (snd (snd item))) (updates d))
    with (s := after (after s0 idx1 out1) idx2 out2) as (idx3 & out3 & Hrun3 & E3).
  { eapply Forall_impl; [exact Hu|]. intros item (? & ? & ?).
    by apply write_update_steps. }
  exists idx3, (out1 ++ out2 ++ out3). split.
  - unfold deltas_of. eapply run_app; [exact Hrun1|].
    eapply run_app; [exact Hrun2|exact Hrun3].
  - unfold seq at 1. rewrite E1. unfold seq at 1. rewrite E2.
    unfold seq at 1. rewrite E3. unfold seq, get_conflicts. simpl.
    rewrite !after_after. simpl. by destruct out1, out2, out3.
Qed.

Lemma run_one_applied idx d idx1 idx' out :
  applies self repo idx d idx1 -> run self repo idx [d] idx' out ->
  idx' = idx1 /\ out = [].
Proof.
  intros Ha Hrun.
  assert (Hrun' : run self repo idx [d] idx1 []) by (econstructor; [done|constructor]).
  by destruct (run_deterministic _ _ _ _ _ _ _ _ Hrun Hrun').
Qed.

(** X9: inserting a feature and then deleting it gives the index back.  For
    a feature with the primary key, encoded at the path of its key, and an
    index without that path: the insert succeeds silently and stores the
    written entry; deleting the feature from the result returns the original
    index; inserting it a second time is a reported conflict that leaves the
    index as it is. *)
Theorem insert_then_delete (k : string) (f : Feature) (pk : pyval)
    (idx : gmap string IndexEntry) :
  f !! pk_field = Some pk ->
  fst (encode_feature self f) = encode_1pk_to_path self pk ->
  idx !! encode_1pk_to_path self pk = None ->
  exists idx1,
    write_index self {| meta := []; inserts := [f]; deletes := []; updates := [] |}
      idx repo = (Ok tt, idx1, []) /\
    idx1 !! encode_1pk_to_path self pk = Some (written self repo f) /\
    write_index self {| meta := []; inserts := []; deletes := [(k, f)]; updates := [] |}
      idx1 repo = (Ok tt, idx, []) /\
    write_index self {| meta := []; inserts := [f]; deletes := []; updates := [] |}
      idx1 repo
    = (Raise (InvalidOperation PATCH_DOES_NOT_APPLY), idx1,
       [says self ": Trying to create feature that already exists: " pk]).
Proof.
  intros Hpk Hpath Hfree.
  set (p := encode_1pk_to_path self pk) in *.
  exists (<[p := written self repo f]> idx).
  assert (Hkey : has_key self f) by (by exists pk).
  split; [|split; [|split]].
  - destruct (write_index_run {| meta := []; inserts := [f]; deletes := [];
                                 updates := [] |} idx) as (idx' & out & Hrun & ->);
      [done|by repeat constructor|].
    unfold deltas_of in Hrun. simpl in Hrun.
    destruct (run_one_applied idx (Insert f) (<[p := written self repo f]> idx) idx' out)
      as [-> ->]; [|done|done].
    rewrite <- Hpath. apply apply_insert with pk; [done|by rewrite Hpath].
  - apply lookup_insert_eq.
  - destruct (write_index_run {| meta := []; inserts := []; deletes := [(k, f)];
                                 updates := [] |} (<[p := written self repo f]> idx))
      as (idx' & out & Hrun & ->); [done|by repeat constructor|].
    unfold deltas_of in Hrun. simpl in Hrun.
    destruct (run_one_applied (<[p := written self repo f]> idx) (Delete f) idx idx' out)
      as [-> ->]; [|done|done].
    replace idx with (delete p (<[p := written self repo f]> idx)) at 2
      by (rewrite delete_insert_eq; by apply delete_id).
    apply apply_delete; [done|]. fold p. by rewrite lookup_insert_eq.
  - destruct (write_index_run {| meta := []; inserts := [f]; deletes := [];
                                 updates := [] |} (<[p := written self repo f]> idx))
      as (idx' & out & Hrun & ->); [done|by repeat constructor|].
    unfold deltas_of in Hrun. simpl in Hrun.
    assert (Hrun' : run self repo (<[p := written self repo f]> idx) [Insert f]
              (<[p := written self repo f]> idx)
              [says self ": Trying to create feature that already exists: " pk]).
    { eapply run_reported; [|constructor]. apply insert_existing; [done|].
      rewrite Hpath. fold p. by rewrite lookup_insert_eq. }
    by destruct (run_deterministic _ _ _ _ _ _ _ _ Hrun Hrun') as [-> ->].
Qed.

Lemma for_each_keeps_entry {A} p (body : A -> M unit) (items : list A) :
  (forall x, x ∈ items -> keeps_entry p (body x)) ->
  keeps_entry p (for_each items body).
Proof.
  induction items as [|x items IH]; intros Hbody s r s'; simpl.
  - by intros [= <- <-].
  - unfold seq. destruct (body x s) as [[[]|e] s1] eqn:E.
    + intros E'. apply IH in E'.
      * rewrite E'. eapply Hbody; [|exact E]. by left.
      * intros y Hy. apply Hbody. by right.
    + intros [= <- <-]. eapply Hbody; [|exact E]. by left.
Qed.

Lemma write_delete_keeps_entry p item :
  (forall pk, snd item !! pk_field = Some pk -> p <> encode_1pk_to_path self pk) ->
  keeps_entry p (write_delete self pk_field item).
Proof.
  intros Hp s r s'. unfold write_delete, seq, lift, getitem, index_contains.
  destruct (snd item !! pk_field) as [pk|]; simpl.
  - destruct (bool_decide _); simpl; intros [= <- <-]; simpl; [|done].
    apply lookup_delete_ne. intros Heq. by apply (Hp pk).
  - by intros [= <- <-].
Qed.

Lemma write_insert_keeps_entry p new :
  p <> fst (encode_feature self new) ->
  keeps_entry p (write_insert self repo pk_field new).
Proof.
  intros Hp s r s'. unfold write_insert, seq, lift, getitem, index_contains.
  destruct (new !! pk_field) as [pk|]; simpl.
  - destruct (encode_feature self new) as [q data]. simpl in Hp.
    destruct (bool_decide _); simpl; intros [= <- <-]; simpl; [done|].
    by apply lookup_insert_ne.
  - by intros [= <- <-].
Qed.

Lemma write_update_keeps_entry p item :
  (forall pk, fst (snd item) !! pk_field = Some pk -> p <> encode_1pk_to_path self pk) ->
  p <> fst (encode_feature self (snd (snd item))) ->
  keeps_entry p (write_update self repo pk_field (geom_column_name self) item).
Proof.
  intros Hold Hnew s r s'. destruct item as [k [old new]]. simpl in Hold, Hnew.
  unfold write_update, seq, lift, getitem, index_contains. simpl.
  destruct (old !! pk_field) as [pk|]; simpl.
  - destruct (bool_decide _); simpl.
    + destruct (compared_features _ _ _) as [cmp|e]; simpl.
      * destruct (bool_decide _); simpl.
        -- by intros [= <- <-].
        -- destruct (encode_feature self new) as [q data]. simpl in *.
           intros [= <- <-]. simpl.
           rewrite lookup_insert_ne by done.
           apply lookup_delete_ne. intros Heq. by apply (Hold pk).
      * by intros [= <- <-].
    + by intros [= <- <-].
  - by intros [= <- <-].
Qed.

(** [write_index] keeps the entries at the paths its diff does not name. *)
Lemma write_index_keeps_others (d : Diff) (idx : gmap string IndexEntry) (p : string) :
  ~ names_path self d p ->
  (write_index self d idx repo).1.2 !! p = idx !! p.
Proof.
  intros Hp. unfold write_index.
  destruct (write_index_body self d repo _) as [r s] eqn:E. simpl.
  revert E. unfold write_index_body.
  destruct (meta d); [|by intros [= <- <-]].
  set (s0 := {| index := idx; echoed := []; conflicts := false |}).
  change (idx !! p) with (index s0 !! p). generalize s0. clear s0. intros s0.
  assert (Hd : keeps_entry p (for_each (deletes d) (write_delete self pk_field))).
  { apply for_each_keeps_entry. intros item Hin. apply write_delete_keeps_entry.
    intros pk Hpk ->. apply Hp. left. by exists item, pk. }
  assert (Hi : keeps_entry p (for_each (inserts d) (write_insert self repo pk_field))).
  { apply for_each_keeps_entry. intros f Hin. apply write_insert_keeps_entry.
    intros ->. apply Hp. right. left. by exists f. }
  assert (Hu : keeps_entry p (for_each (updates d)
                 (write_update self repo pk_field (geom_column_name self)))).
  { apply for_each_keeps_entry. intros item Hin. apply write_update_keeps_entry.
    - intros pk Hpk ->. apply Hp. right. right. exists item. split; [done|].
      left. by exists pk.
    - intros ->. apply Hp. right. right. exists item. split; [done|]. by right. }
  unfold seq at 1.
  destruct (for_each (deletes d) _ s0) as [[[]|e] s1] eqn:E1;
    [|intros [= <- <-]; by apply Hd in E1].
  apply Hd in E1. rewrite <- E1.
  unfold seq at 1.
  destruct (for_each (inserts d) _ s1) as [[[]|e] s2] eqn:E2;
    [|intros [= <- <-]; by apply Hi in E2].
  apply Hi in E2. rewrite <- E2.
  unfold seq at 1.
  destruct (for_each (updates d) _ s2) as [[[]|e] s3] eqn:E3;
    [|intros [= <- <-]; by apply Hu in E3].
  apply Hu in E3. rewrite <- E3.
  unfold seq, get_conflicts, raise, ret.
  by destruct (conflicts s3); intros [= <- <-].
Qed.

(** X10: [write_index] changes the index only at paths the diff names (the
    paths of the keys of deleted and updated old features, and the encoded
    paths of inserted and updated new features).  Every other entry is as
    before, whether the call returns or raises. *)
Theorem write_index_frame (d : Diff) (idx : gmap string IndexEntry) (p : string) :
  ~ names_path self d p ->
  (write_index self d idx repo).1.2 !! p = idx !! p.
Proof. apply write_index_keeps_others. Qed.

Lemma for_each_app {A} (l1 l2 : list A) (body : A -> M unit) s :
  for_each (l1 ++ l2) body s = seq (for_each l1 body) (fun _ => for_each l2 body) s.
Proof.
  revert s. induction l1 as [|x l1 IH]; intros s; simpl; [reflexivity|].
  unfold seq. destruct (body x s) as [[[]|e] s1]; [|reflexivity].
  rewrite IH. reflexivity.
Qed.

(** X11: a feature to delete without the primary key column stops
    [write_index] with [KeyError] where it stands: the deletes before it
    have been gone through (applied to the index, or printed as conflicts),
    and the conflicts printed so far do not turn into [InvalidOperation]. *)
Theorem missing_key_aborts_midway (d : Diff) (idx : gmap string IndexEntry)
    (good rest : list (string * Feature)) (k : string) (f : Feature) :
  meta d = [] ->
  deletes d = good ++ (k, f) :: rest ->
  Forall (fun item => has_key self (snd item)) good ->
  f !! pk_field = None ->
  exists idx' out,
    run self repo idx (map (fun item => Delete (snd item)) good) idx' out /\
    write_index self d idx repo = (Raise (KeyError pk_field), idx', out).
Proof.
  intros Hmeta Hdel Hgood Hf.
  unfold write_index, write_index_body. rewrite Hmeta, Hdel.
  set (s0 := {| index := idx; echoed := []; conflicts := false |}).
  destruct (for_each_run self repo (write_delete self pk_field)
              (fun item => Delete (snd item)) good)
    with (s := s0) as (idx1 & out1 & Hrun1 & E1).
  { eapply Forall_impl; [exact Hgood|]. intros item. apply write_delete_steps. }
  exists idx1, out1. split; [done|].
  unfold seq at 1. rewrite for_each_app. unfold seq at 1. rewrite E1.
  simpl. unfold seq at 1. unfold write_delete at 1. simpl.
  unfold seq at 1, lift, getitem. rewrite Hf. done.
Qed.

(** X12: an update does not look at the path it writes to.  When the new
    feature's path is held by another entry, inserting the new feature is a
    reported conflict, while an update to it (from an unchanged old feature
    at another path) succeeds silently: the old path is removed, the entry
    at the new path is replaced by the new feature's, and all other paths are
    kept. *)
Theorem update_overwrites_new_path (k : string) (old new : Feature) (pk pk' : pyval)
    (other : IndexEntry) (idx : gmap string IndexEntry) :
  old !! pk_field = Some pk ->
  new !! pk_field = Some pk' ->
  has_geometry_of self old ->
  has_geometry_of self (get_feature self pk None) ->
  without_geometry self (get_feature self pk None) = without_geometry self old ->
  is_Some (idx !! encode_1pk_to_path self pk) ->
  fst (encode_feature self new) <> encode_1pk_to_path self pk ->
  idx !! fst (encode_feature self new) = Some other ->
  write_index self {| meta := []; inserts := [new]; deletes := []; updates := [] |}
    idx repo
  = (Raise (InvalidOperation PATCH_DOES_NOT_APPLY), idx,
     [says self ": Trying to create feature that already exists: " pk'])
  /\ exists idx',
    write_index self
      {| meta := []; inserts := []; deletes := []; updates := [(k, (old, new))] |}
      idx repo = (Ok tt, idx', []) /\
    idx' !! fst (encode_feature self new) = Some (written self repo new) /\
    idx' !! encode_1pk_to_path self pk = None /\
    forall p, p <> fst (encode_feature self new) -> p <> encode_1pk_to_path self pk ->
              idx' !! p = idx !! p.
Proof.
  intros Hpk Hpk' Hg Hg' Hsame Hin Hne Hocc. split.
  - destruct (write_index_run {| meta := []; inserts := [new]; deletes := [];
                                 updates := [] |} idx) as (idx' & out & Hrun & ->);
      [done| |].
    { repeat constructor. by exists pk'. }
    unfold deltas_of in Hrun. simpl in Hrun.
    assert (Hrun' : run self repo idx [Insert new] idx
              [says self ": Trying to create feature that already exists: " pk']).
    { eapply run_reported; [|constructor]. apply insert_existing; [done|].
      by rewrite Hocc. }
    by destruct (run_deterministic _ _ _ _ _ _ _ _ Hrun Hrun') as [-> ->].
  - exists (<[fst (encode_feature self new) := written self repo new]>
              (delete (encode_1pk_to_path self pk) idx)).
    split; [|split; [|split]].
    + destruct (write_index_run {| meta := []; inserts := []; deletes := [];
                                   updates := [(k, (old, new))] |} idx)
        as (idx' & out & Hrun & ->); [done| |].
      { split; [constructor|]. split; [constructor|]. constructor; [|constructor].
        simpl. split; [by exists pk|]. split; [done|].
        intros pk0 Hpk0. rewrite Hpk in Hpk0. by injection Hpk0 as <-. }
      unfold deltas_of in Hrun. simpl in Hrun.
      destruct (run_one_applied idx (Update old new)
                  (<[fst (encode_feature self new) := written self repo new]>
                     (delete (encode_1pk_to_path self pk) idx)) idx' out)
        as [-> ->]; [|done|done].
      by apply apply_update.
    + apply lookup_insert_eq.
    + rewrite lookup_insert_ne by done. apply lookup_delete_eq.
    + intros p Hp1 Hp2. rewrite lookup_insert_ne by done. by apply lookup_delete_ne.
Qed.

(** X13: deletes are applied before inserts, and a delete looks at the key
    only.  A diff that deletes a feature and inserts one at the same path
    succeeds silently and leaves the new feature's entry at that path,
    whatever the old feature's other columns say. *)
Theorem delete_then_insert_replaces (k : string) (old new : Feature) (pk pk' : pyval)
    (idx : gmap string IndexEntry) :
  old !! pk_field = Some pk ->
  new !! pk_field = Some pk' ->
  fst (encode_feature self new) = encode_1pk_to_path self pk ->
  is_Some (idx !! encode_1pk_to_path self pk) ->
  write_index self
    {| meta := []; inserts := [new]; deletes := [(k, old)]; updates := [] |} idx repo
  = (Ok tt, <[encode_1pk_to_path self pk := written self repo new]> idx, []).
Proof.
  intros Hpk Hpk' Hpath Hin.
  destruct (write_index_run {| meta := []; inserts := [new]; deletes := [(k, old)];
                               updates := [] |} idx) as (idx' & out & Hrun & ->);
    [done| |].
  { split; [|split]; repeat constructor; simpl; [by exists pk|by exists pk']. }
  unfold deltas_of in Hrun. simpl in Hrun.
  assert (Hrun' : run self repo idx [Delete old; Insert new]
            (<[encode_1pk_to_path self pk := written self repo new]> idx) []).
  { eapply run_applied; [by apply apply_delete|].
    eapply run_applied; [|constructor].
    rewrite <- (insert_delete_eq idx). rewrite <- Hpath.
    apply apply_insert with pk'; [done|]. rewrite Hpath. apply lookup_delete_eq. }
  by destruct (run_deterministic _ _ _ _ _ _ _ _ Hrun Hrun') as [-> ->].
Qed.

End Dataset.

Lemma insert_then_delete_witness :
  let self := Examples2.points Examples2.stored_points in
  let f := Examples2.point 3 "c" "g3" in
  exists idx1,
    write_index self {| meta := []; inserts := [f]; deletes := []; updates := [] |}
      Examples2.points_index Examples2.blob_ids = (Ok tt, idx1, []) /\
    idx1 !! encode_1pk_to_path self (PyInt 3) = Some (written self Examples2.blob_ids f) /\
    write_index self {| meta := []; inserts := []; deletes := [("3", f)]; updates := [] |}
      idx1 Examples2.blob_ids = (Ok tt, Examples2.points_index, []) /\
    write_index self {| meta := []; inserts := [f]; deletes := []; updates := [] |}
      idx1 Examples2.blob_ids
    = (Raise (InvalidOperation PATCH_DOES_NOT_APPLY), idx1,
       [says self ": Trying to create feature that already exists: " (PyInt 3)]).
Proof.
  apply (insert_then_delete (Examples2.points Examples2.stored_points) Examples2.blob_ids
           "3" (Examples2.point 3 "c" "g3") (PyInt 3) Examples2.points_index).
  - reflexivity.
  - reflexivity.
  - reflexivity.
Defined.

Lemma write_index_frame_witness :
  (write_index (Examples2.points Examples2.stored_points)
     {| meta := []; inserts := [Examples2.point 3 "c" "g3"]; deletes := [];
        updates := [] |}
     Examples2.points_index Examples2.blob_ids).1.2 !! Examples2.points_path (PyInt 1)
  = Examples2.points_index !! Examples2.points_path (PyInt 1).
Proof.
  apply (write_index_frame (Examples2.points Examples2.stored_points) Examples2.blob_ids).
  intros [(item & pk & Hin & _)|[(f & Hin & Heq)|(item & Hin & _)]].
  - by apply elem_of_nil in Hin.
  - apply list_elem_of_singleton in Hin. subst f. vm_compute in Heq. discriminate.
  - by apply elem_of_nil in Hin.
Defined.

Lemma missing_key_aborts_midway_witness :
  let self := Examples2.points Examples2.stored_points in
  let good := [("1", Examples2.point 1 "a" "g1"); ("3", Examples2.point 3 "c" "g3")] in
  let f : Feature := {[ "name" := PyStr "keyless" ]} in
  let d := {| meta := []; inserts := [];
              deletes := good ++ ("?", f) :: [("2", Examples2.point 2 "b" "g2")];
              updates := [] |} in
  exists idx' out,
    run self Examples2.blob_ids Examples2.points_index
      (map (fun item => Delete (snd item)) good) idx' out /\
    write_index self d Examples2.points_index Examples2.blob_ids
    = (Raise (KeyError (primary_key self)), idx', out).
Proof.
  apply (missing_key_aborts_midway (Examples2.points Examples2.stored_points)
           Examples2.blob_ids _ Examples2.points_index
           [("1", Examples2.point 1 "a" "g1"); ("3", Examples2.point 3 "c" "g3")]
           [("2", Examples2.point 2 "b" "g2")] "?" {[ "name" := PyStr "keyless" ]}).
  - reflexivity.
  - reflexivity.
  - repeat constructor; eexists; reflexivity.
  - reflexivity.
Defined.

Lemma update_overwrites_new_path_witness :
  let self := Examples2.points Examples2.stored_points in
  let old := Examples2.point 1 "a" "g1" in
  let new := Examples2.point 2 "x" "g" in
  write_index self {| meta := []; inserts := [new]; deletes := []; updates := [] |}
    Examples2.points_index Examples2.blob_ids
  = (Raise (InvalidOperation PATCH_DOES_NOT_APPLY), Examples2.points_index,
     [says self ": Trying to create feature that already exists: " (PyInt 2)])
  /\ exists idx',
    write_index self
      {| meta := []; inserts := []; deletes := []; updates := [("1", (old, new))] |}
      Examples2.points_index Examples2.blob_ids = (Ok tt, idx', []) /\
    idx' !! fst (encode_feature self new) = Some (written self Examples2.blob_ids new) /\
    idx' !! encode_1pk_to_path self (PyInt 1) = None /\
    forall p, p <> fst (encode_feature self new) ->
              p <> encode_1pk_to_path self (PyInt 1) ->
              idx' !! p = Examples2.points_index !! p.
Proof.
  apply (update_overwrites_new_path (Examples2.points Examples2.stored_points)
           Examples2.blob_ids "1" (Examples2.point 1 "a" "g1")
           (Examples2.point 2 "x" "g") (PyInt 1) (PyInt 2)
           (Examples2.entry (Examples2.points_path (PyInt 2)) "b")
           Examples2.points_index).
  - reflexivity.
  - reflexivity.
  - intros g [= <-]. eexists; reflexivity.
  - intros g [= <-]. eexists; reflexivity.
  - reflexivity.
  - eexists; reflexivity.
  - intros H. vm_compute in H. discriminate.
  - reflexivity.
Defined.

Lemma delete_then_insert_replaces_witness :
  let self := Examples2.points Examples2.stored_points in
  let old := Examples2.point 1 "not the stored name" "g" in
  let new := Examples2.point 1 "z" "g9" in
  write_index self
    {| meta := []; inserts := [new]; deletes := [("1", old)]; updates := [] |}
    Examples2.points_index Examples2.blob_ids
  = (Ok tt,
     <[encode_1pk_to_path self (PyInt 1) := written self Examples2.blob_ids new]>
       Examples2.points_index, []).
Proof.
  apply (delete_then_insert_replaces (Examples2.points Examples2.stored_points)
           Examples2.blob_ids "1" (Examples2.point 1 "not the stored name" "g")
           (Examples2.point 1 "z" "g9") (PyInt 1) (PyInt 1) Examples2.points_index).
  - reflexivity.
  - reflexivity.
  - reflexivity.
  - eexists; reflexivity.
Defined.

End WriteIndexMore.

(** * Applying a diff to a repository: [create_tree_from_diff] and [commit] *)

Module RepositoryFacts.

Import Py Structure ApplySpec WriteIndexSpec Repository WriteIndexMore.

Section Repository.

Context {Tree Oid Signature : Type}.
Variable read_tree : Tree -> gmap string IndexEntry.
Variable write_tree : gmap string IndexEntry -> Oid.

Abbreviation DS := (DatasetStructure (Tree := Tree)).
Abbreviation RS := (RepositoryStructure (Tree := Tree) (Oid := Oid) (Signature := Signature)).




Lemma write_all_no_changes (repo : Repo) (diff : DS -> result Diff) (datasets : list DS)
    idx out :
  Forall (fun ds => diff ds = Ok {| meta := []; inserts := []; deletes := [];
                                    updates := [] |}) datasets ->
  write_all repo diff datasets idx out = (Ok tt, idx, out).
Proof.
  induction 1 as [|ds datasets Hd _ IH]; simpl; [done|].
  rewrite Hd. unfold write_index. simpl. by rewrite app_nil_r.
Qed.

(** X16: [commit] does not look at [allow_empty]: with a diff that holds no
    change for any dataset it still creates a commit, whose tree is written
    from the unchanged index of the current tree. *)
Theorem commit_without_changes (self : RS) (wcdiff : DS -> result Diff) (message : string)
    (author committer : option Signature) (allow_empty : bool) :
  Forall (fun ds => wcdiff ds = Ok {| meta := []; inserts := []; deletes := [];
                                      updates := [] |})
         (iter_at self (rs_tree self)) ->
  let call := {| reference_name := "HEAD";
                 call_author := default (default_signature self) author;
                 call_committer := default (default_signature self) committer;
                 call_message := message;
                 call_tree := write_tree (read_tree (rs_tree self));
                 call_parents := [head_target self] |} in
  commit read_tree write_tree self wcdiff message author committer allow_empty
  = (Ok (create_commit self call), [], [call]).
Proof.
  intros Hd. unfold commit, create_tree_from_diff.
  rewrite write_all_no_changes by done. by destruct author, committer.
Qed.

End Repository.

Lemma commit_without_changes_witness :
  let call := {| reference_name := "HEAD";
                 call_author := "author";
                 call_committer := "user";
                 call_message := "nothing";
                 call_tree := Examples2.points_index;
                 call_parents := [∅] |} in
  commit Examples5.points_read_tree id Examples5.points_repository Examples5.unchanged
    "nothing" (Some "author") None false
  = (Ok Examples2.points_index, [], [call]).
Proof.
  apply (commit_without_changes Examples5.points_read_tree id
           Examples5.points_repository Examples5.unchanged "nothing"
           (Some "author") None false).
  repeat constructor.
Defined.

End RepositoryFacts.

(** * The commit spec of [kart diff] *)

Module CommitSpecFacts.

Import Py Structure Exc CommitSpec StrFacts.

Lemma re_split_dots_nil cur : re_split_dots cur "" = [cur].
Proof. reflexivity. Qed.

Lemma append_nil_r (s : string) : s +:+ "" = s.
Proof. induction s as [|c s IH]; [done|]. by rewrite append_cons, IH. Qed.

Lemma append_snoc (cur : string) (c : ascii) (s : string) :
  (cur +:+ String c "") +:+ s = cur +:+ String c s.
Proof. by rewrite append_assoc, append_cons, append_nil_l. Qed.

(** One step of the scan, by what the text starts with. *)
Lemma re_split_dots_step cur c1 s1 :
  re_split_dots cur (String c1 s1)
  = match s1 with
    | String c2 s2 =>
        if is_dot c1 && is_dot c2 then
          match s2 with
          | String c3 s3 =>
              if is_dot c3 then cur :: "..." :: re_split_dots "" s3
              else cur :: ".." :: re_split_dots "" s2
          | EmptyString => cur :: ".." :: re_split_dots "" s2
          end
        else re_split_dots (cur +:+ String c1 "") s1
    | EmptyString => re_split_dots (cur +:+ String c1 "") s1
    end.
Proof. by destruct s1 as [|c2 [|c3 s3]]. Qed.

Lemma is_dot_eq c : is_dot c = true -> c = "."%char.
Proof. unfold is_dot. by intros ?%Ascii.eqb_eq. Qed.

Lemma re_split_dots_facts n :
  forall s cur, String.length s <= n ->
    joined (re_split_dots cur s) = cur +:+ s /\
    Forall (fun sep => is_separator sep = true) (separators (re_split_dots cur s)) /\
    length (re_split_dots cur s) = S (2 * length (separators (re_split_dots cur s))).
Proof.
  induction n as [|n IH]; intros s cur Hn.
  - destruct s; [|simpl in Hn; lia]. by repeat split.
  - destruct s as [|c1 s1]; [by repeat split|].
    rewrite re_split_dots_step. simpl in Hn.
    destruct s1 as [|c2 s2].
    + rewrite re_split_dots_nil. cbn [joined fold_right separators length].
      rewrite append_nil_r. by repeat split.
    + destruct (is_dot c1 && is_dot c2) eqn:E.
      * apply andb_prop in E as [->%is_dot_eq ->%is_dot_eq].
        destruct s2 as [|c3 s3].
        -- rewrite re_split_dots_nil. cbn [joined fold_right separators length].
           split; [done|]. split; [by repeat constructor|done].
        -- simpl in Hn. destruct (is_dot c3) eqn:E3.
           ++ apply is_dot_eq in E3 as ->.
              destruct (IH s3 "" ltac:(lia)) as (H1 & H2 & H3).
              cbn [joined fold_right separators length] in *.
              fold (joined (re_split_dots "" s3)).
              rewrite H1, H3. split; [by rewrite append_nil_l|].
              split; [by constructor|lia].
           ++ destruct (IH (String c3 s3) "" ltac:(simpl; lia)) as (H1 & H2 & H3).
              cbn [joined fold_right separators length] in *.
              fold (joined (re_split_dots "" (String c3 s3))).
              rewrite H1, H3. split; [by rewrite append_nil_l|].
              split; [by constructor|lia].
      * destruct (IH (String c2 s2) (cur +:+ String c1 "") ltac:(simpl in *; lia))
          as (H1 & H2 & H3).
        rewrite H1. by rewrite append_snoc.
Qed.

Lemma is_dot_spec c : is_dot c = bool_decide (c = "."%char).
Proof.
  unfold is_dot. destruct (Ascii.eqb_spec c ".") as [->|Hne].
  - by rewrite bool_decide_true.
  - by rewrite bool_decide_false.
Qed.

Lemma prefix_two_dots c1 c2 s :
  String.prefix ".." (String c1 (String c2 s)) = is_dot c1 && is_dot c2.
Proof.
  rewrite !is_dot_spec.
  cbn [String.prefix].
  destruct (ascii_dec "." c1) as [<-|H1].
  - destruct (ascii_dec "." c2) as [<-|H2]; [by destruct s|].
    rewrite (bool_decide_false (c2 = _)) by done. done.
  - rewrite (bool_decide_false (c1 = _)) by done. done.
Qed.

(** A text without two dots in a row and without a dot at its end is read
    into the current piece as it is. *)
Lemma re_split_dots_plain a :
  Str.contains ".." a = false -> Str.last_char a <> Some "."%char ->
  forall cur rest, re_split_dots cur (a +:+ rest) = re_split_dots (cur +:+ a) rest.
Proof.
  induction a as [|c1 a1 IH]; intros Hc Hl cur rest.
  - by rewrite append_nil_l, append_nil_r.
  - rewrite append_cons, re_split_dots_step.
    destruct a1 as [|c2 a2].
    + rewrite append_nil_l.
      assert (E : is_dot c1 = false).
      { rewrite is_dot_spec. apply bool_decide_false. intros ->. by apply Hl. }
      rewrite E. simpl. by destruct rest.
    + rewrite append_cons.
      cbn [Str.contains] in Hc. rewrite prefix_two_dots in Hc.
      destruct (is_dot c1 && is_dot c2) eqn:E; [done|].
      rewrite <- append_cons, IH by done.
      by rewrite append_snoc.
Qed.

Lemma plain_parts a :
  plain a = true ->
  Str.contains ".." a = false /\ Str.first_char a <> Some "."%char /\
  Str.last_char a <> Some "."%char.
Proof.
  unfold plain. intros [[H1 H2]%andb_prop H3]%andb_prop.
  apply negb_true_iff in H1, H2, H3.
  apply bool_decide_eq_false in H2, H3. done.
Qed.

(** A separator before a text that does not start with a dot is found as it
    is. *)
Lemma re_split_dots_separator cur sep rest :
  sep = ".." \/ sep = "..." ->
  Str.first_char rest <> Some "."%char ->
  re_split_dots cur (sep +:+ rest) = cur :: sep :: re_split_dots "" rest.
Proof.
  intros [->| ->] Hr.
  - destruct rest as [|c rest]; [done|].
    assert (E : is_dot c = false).
    { rewrite is_dot_spec. apply bool_decide_false. intros ->. by apply Hr. }
    change (".." +:+ String c rest) with (String "." (String "." (String c rest))).
    rewrite re_split_dots_step. simpl. by rewrite E.
  - change ("..." +:+ rest) with (String "." (String "." (String "." rest))).
    by rewrite re_split_dots_step.
Qed.

(** A separator before any text is found, perhaps with a dot more. *)
Lemma re_split_dots_separator_any cur sep rest :
  sep = ".." \/ sep = "..." ->
  exists sep' rest', re_split_dots cur (sep +:+ rest) = cur :: sep' :: re_split_dots "" rest'.
Proof.
  intros [->| ->].
  - destruct rest as [|c rest]; [exists "..", ""; reflexivity|].
    change (".." +:+ String c rest) with (String "." (String "." (String c rest))).
    rewrite re_split_dots_step. cbn [is_dot Ascii.eqb Bool.eqb andb].
    destruct (is_dot c); eexists _, _; reflexivity.
  - change ("..." +:+ rest) with (String "." (String "." (String "." rest))).
    rewrite re_split_dots_step. eexists _, _; reflexivity.
Qed.

Lemma re_split_dots_nonempty cur s : exists p parts, re_split_dots cur s = p :: parts.
Proof.
  destruct (re_split_dots cur s) eqn:E; [|by eexists _, _].
  destruct (re_split_dots_facts (String.length s) s cur ltac:(done)) as (_ & _ & H).
  by rewrite E in H.
Qed.

Lemma re_split_dots_two a sep b :
  plain a = true -> plain b = true -> sep = ".." \/ sep = "..." ->
  re_split_dots "" (a +:+ sep +:+ b) = [a; sep; b].
Proof.
  intros (Ha1 & _ & Ha3)%plain_parts (Hb1 & Hb2 & Hb3)%plain_parts Hsep.
  rewrite re_split_dots_plain, append_nil_l by done.
  rewrite re_split_dots_separator by done.
  rewrite <- (append_nil_r b) at 1.
  by rewrite re_split_dots_plain, append_nil_l by done.
Qed.

Lemma re_split_dots_one a : plain a = true -> re_split_dots "" a = [a].
Proof.
  intros (Ha1 & _ & Ha3)%plain_parts.
  rewrite <- (append_nil_r a) at 1.
  by rewrite re_split_dots_plain, append_nil_l by done.
Qed.

Section Repo.

Context {RepoStructure WorkingCopy Oid Tree : Type}.
Variable has_commit : RepoStructure -> bool.
Variable rs_id : RepoStructure -> Oid.
Variable rs_tree : RepoStructure -> Tree.
Variable show_id : Oid -> string.
Variable assert_db_tree_match : WorkingCopy -> Tree -> outcome unit.

Abbreviation KR := (KartRepo (RepoStructure := RepoStructure)
                      (WorkingCopy := WorkingCopy) (Oid := Oid)).
Abbreviation parse :=
  (_parse_diff_commit_spec has_commit rs_id rs_tree show_id assert_db_tree_match).

(** X17: a commit spec made of two commit names and one separator is parsed
    into the two structures, without a working copy.  For names [a] and [b]
    in which there is nothing to cut (no two dots in a row, no dot at either
    end; they may be empty), the spec [a..b] or [a...b] gives the structure
    of [a] as base and that of [b] as target, each name defaulting to
    ["HEAD"] when empty; with [..] the base is replaced by the common
    ancestor of the two; the working copy is not consulted. *)
Theorem parse_two_commits (repo : KR) (a sep b : string) :
  plain a = true -> plain b = true -> sep = ".." \/ sep = "..." ->
  parse repo (Some (a +:+ sep +:+ b))
  = (base_rs ← structure repo (Ref (or_HEAD a));
     target_rs ← structure repo (Ref (or_HEAD b));
     base_rs ← (if String.eqb sep ".."
                then get_common_ancestor has_commit rs_id show_id repo base_rs target_rs
                else Returns base_rs);
     Returns (base_rs, target_rs, None)).
Proof.
  intros Ha Hb Hsep. unfold _parse_diff_commit_spec.
  assert (Hne : or_HEAD (default "" (Some (a +:+ sep +:+ b))) = a +:+ sep +:+ b).
  { simpl. destruct Hsep as [->| ->]; by destruct a. }
  rewrite Hne, re_split_dots_two by done. done.
Qed.

(** X18: a commit spec with more than one separator is not rejected: it is
    read as its first commit name alone, diffed against the working copy.
    For plain names [a] and [b] ([b] not empty) and any text [rest], the
    spec [a..b..rest] (each separator of two or three dots) is parsed as
    the one-commit spec with base [a]; when [a] is not empty, exactly as
    the spec [a]. *)
Theorem parse_more_separators (repo : KR) (a sep1 b sep2 rest : string) :
  plain a = true -> plain b = true -> b <> "" ->
  sep1 = ".." \/ sep1 = "..." -> sep2 = ".." \/ sep2 = "..." ->
  parse repo (Some (a +:+ sep1 +:+ b +:+ sep2 +:+ rest))
  = against_working_copy rs_tree assert_db_tree_match repo a
  /\ (a <> "" ->
      parse repo (Some (a +:+ sep1 +:+ b +:+ sep2 +:+ rest)) = parse repo (Some a)).
Proof.
  intros Ha Hb Hbne Hsep1 Hsep2.
  assert (H : parse repo (Some (a +:+ sep1 +:+ b +:+ sep2 +:+ rest))
              = against_working_copy rs_tree assert_db_tree_match repo a).
  { unfold _parse_diff_commit_spec.
    assert (Hne : or_HEAD (default "" (Some (a +:+ sep1 +:+ b +:+ sep2 +:+ rest)))
                  = a +:+ sep1 +:+ b +:+ sep2 +:+ rest).
    { simpl. destruct Hsep1 as [->| ->]; by destruct a. }
    rewrite Hne.
    destruct (plain_parts _ Ha) as (Ha1 & _ & Ha3).
    destruct (plain_parts _ Hb) as (Hb1 & Hb2 & Hb3).
    rewrite re_split_dots_plain, append_nil_l by done.
    rewrite re_split_dots_separator; [|done|].
    2: { by destruct b. }
    rewrite re_split_dots_plain, append_nil_l by done.
    destruct (re_split_dots_separator_any b sep2 rest Hsep2) as (sep' & rest' & E).
    destruct (re_split_dots_nonempty "" rest') as (p & parts & E').
    rewrite E' in E. by rewrite E. }
  split; [done|]. intros Hne. rewrite H.
  unfold _parse_diff_commit_spec.
  replace (or_HEAD (default "" (Some a))) with a by (by destruct a).
  by rewrite re_split_dots_one.
Qed.

End Repo.

Lemma parse_two_commits_witness :
  _parse_diff_commit_spec Examples6.always_commit id Examples6.the_tree id
    Examples6.tree_matches Examples6.named_repo (Some ("main" +:+ ".." +:+ "feature"))
  = (base_rs ← structure Examples6.named_repo (Ref (or_HEAD "main"));
     target_rs ← structure Examples6.named_repo (Ref (or_HEAD "feature"));
     base_rs ← (if String.eqb ".." ".."
                then get_common_ancestor Examples6.always_commit id id
                       Examples6.named_repo base_rs target_rs
                else Returns base_rs);
     Returns (base_rs, target_rs, None)).
Proof.
  apply (parse_two_commits Examples6.always_commit id Examples6.the_tree id
           Examples6.tree_matches Examples6.named_repo "main" ".." "feature").
  - reflexivity.
  - reflexivity.
  - by left.
Defined.

Lemma parse_more_separators_witness :
  _parse_diff_commit_spec Examples6.always_commit id Examples6.the_tree id
    Examples6.tree_matches Examples6.named_repo
    (Some ("a" +:+ ".." +:+ "b" +:+ "..." +:+ "c"))
  = against_working_copy Examples6.the_tree Examples6.tree_matches
      Examples6.named_repo "a"
  /\ ("a" <> "" ->
      _parse_diff_commit_spec Examples6.always_commit id Examples6.the_tree id
        Examples6.tree_matches Examples6.named_repo
        (Some ("a" +:+ ".." +:+ "b" +:+ "..." +:+ "c"))
      = _parse_diff_commit_spec Examples6.always_commit id Examples6.the_tree id
          Examples6.tree_matches Examples6.named_repo (Some "a")).
Proof.
  apply (parse_more_separators Examples6.always_commit id Examples6.the_tree id
           Examples6.tree_matches Examples6.named_repo "a" ".." "b" "..." "c").
  - reflexivity.
  - reflexivity.
  - discriminate.
  - by left.
  - by right.
Defined.

End CommitSpecFacts.

(** * More on [DatasetStructure.diff] *)

Module DiffMore.

Import Py Structure DiffSpec DiffProvenance DictFacts DiffFacts RenameFacts MirrorFacts InverseFacts.

Lemma In_dict_set {V} (k k0 : string) (v v0 : V) (d : dict V) :
  In (k, v) (dict_set k0 v0 d) -> (k, v) = (k0, v0) \/ In (k, v) d.
Proof.
  induction d as [|[k1 v1] d IH]; simpl.
  - intros [[= <- <-]|[]]. by left.
  - destruct (String.eqb k0 k1) eqn:E; simpl.
    + apply String.eqb_eq in E as ->. intros [[= <- <-]|H]; auto.
    + intros [H|H]; auto. destruct (IH H); auto.
Qed.

Lemma In_set_all {V} (k : string) (v : V) (l : list (string * V)) :
  forall d, In (k, v) (set_all l d) -> In (k, v) l \/ In (k, v) d.
Proof.
  induction l as [|[k1 v1] l IH]; intros d; simpl; [auto|].
  intros [H|[[= <- <-]|H]%In_dict_set]%IH; auto.
Qed.

Lemma In_dict_of_pairs {V} (k : string) (v : V) (l : list (string * V)) :
  In (k, v) (dict_of_pairs l) -> In (k, v) l.
Proof. intros [H|[]]%In_set_all. done. Qed.

Lemma In_dd_append {V} (h k : string) (l : list V) (x : V) (d : dict (list V)) :
  In (h, l) (dd_append k x d) ->
  In (h, l) d \/
  (h = k /\ exists l0, l = l0 ++ [x] /\ (In (k, l0) d \/ l0 = [])).
Proof.
  rewrite dd_append_spec. destruct (dict_get k d) as [l0|] eqn:E.
  - intros [[= -> ->]|H]%In_dict_set; [right|by left].
    split; [done|]. exists l0. split; [done|]. left. by apply dict_get_Some_In.
  - intros [H|[[= -> ->]|[]]]%in_app_or; [by left|right].
    split; [done|]. exists []. auto.
Qed.

Lemma In_unpair {V} (p : string -> bool) (h : string) (t : list V) (d : dict (list V)) :
  In (h, t) (unpair p d) -> exists l, In (h, l) d /\ forall x, In x t -> In x l.
Proof.
  induction d as [|[k l] d IH]; simpl; [done|].
  intros [H|H]%in_app_or.
  - destruct (p k).
    + destruct l as [|x [|y l]]; simpl in H; try done.
      destruct H as [[= <- <-]|[]]. eexists. split; [by left|]. intros z Hz. by right.
    + destruct H as [[= <- <-]|[]]. eexists. split; [by left|done].
  - destruct (IH H) as (l' & ? & ?). exists l'. split; [by right|done].
Qed.

Lemma In_pairs {V} (k : string) (x y : V) (del : dict (list (string * V)))
    (ins : dict (list V)) :
  In (k, (x, y)) (pairs del ins) ->
  exists h rest l, In (h, (k, x) :: rest) del /\ In (h, y :: l) ins.
Proof.
  induction del as [|[h b] del IH]; simpl; [done|].
  intros [H|H]%in_app_or.
  - destruct b as [|[k' x'] rest]; [done|].
    destruct (dict_get h ins) as [[|y' l]|] eqn:E; try done.
    destruct H as [[= <- <- <-]|[]].
    exists h, rest, l. split; [by left|]. by apply dict_get_Some_In.
  - destruct (IH H) as (h' & rest & l & ? & ?). exists h', rest, l. auto.
Qed.

Lemma In_concat_values {V} (x : V) (d : dict (list V)) :
  In x (concat (values d)) -> exists h l, In (h, l) d /\ In x l.
Proof.
  induction d as [|[h l] d IH]; simpl; [done|].
  intros [H|H]%in_app_or.
  - exists h, l. auto.
  - destruct (IH H) as (h' & l' & ? & ?). exists h', l'. auto.
Qed.

Section Dataset.

Context {Tree : Type}.
Variable diff_to_tree : Tree -> option Tree -> bool -> list DiffDelta.
Abbreviation DS := (DatasetStructure (Tree := Tree)).

Implicit Types (old new other : option DS) (c : Candidates) (d : DiffDelta).

(** The delta loop keeps the candidates well formed. *)
Lemma diff_delta_wf old new other pk_filter c d c' :
  wf_candidates c -> diff_delta old new other pk_filter c d = Ok c' -> wf_candidates c'.
Proof.
  intros Hwf. pose proof Hwf as (W1 & W2 & W3 & W4 & W5).
  unfold diff_delta.
  destruct (file_under_meta (old_file d)); [by intros [= <-]|].
  destruct (file_under_meta (new_file d)); [by intros [= <-]|].
  destruct (status d); try done.
  all: repeat match goal with
    | |- context [deref ?o] => destruct o; simpl
    | |- context [path_of ?o] => destruct o; simpl
    | |- context [if ?b then _ else _] => destruct b; simpl
    end; try done; intros [= <-]; try done.
  all: repeat split; simpl; auto using dd_append_NoDup, dd_append_nonempty,
    dd_append_tagged.
Qed.

Lemma diff_deltas_wf old new other pk_filter ds :
  forall c c', wf_candidates c ->
    diff_deltas old new other pk_filter ds c = Ok c' -> wf_candidates c'.
Proof.
  induction ds as [|d ds IH]; intros c c' Hwf; simpl; [by intros [= <-]|].
  destruct (diff_delta old new other pk_filter c d) as [c1|e] eqn:E; simpl; [|done].
  apply IH. by eapply diff_delta_wf.
Qed.

(** The rename pass does not fail on well-formed candidates. *)
Lemma detect_renames_wf c :
  wf_candidates c ->
  detect_renames (keys (candidates_del c)) c
  = Ok {| candidates_ins :=
            unpair (fun k => dict_mem k (candidates_del c)) (candidates_ins c);
          candidates_upd :=
            set_all (pairs (candidates_del c) (candidates_ins c)) (candidates_upd c);
          candidates_del :=
            unpair (fun k => dict_mem k (candidates_ins c)) (candidates_del c) |}.
Proof.
  intros (W1 & W2 & W3 & W4 & W5). destruct c as [ins upd del]. simpl in *.
  by apply (detect_renames_closed del [] ins upd).
Qed.



(** One delta keeps the candidates sound. *)
Lemma diff_delta_sound old new other pk_filter deltas c d c' :
  In d deltas ->
  sound_candidates old new other pk_filter deltas c ->
  diff_delta old new other pk_filter c d = Ok c' ->
  sound_candidates old new other pk_filter deltas c'.
Proof.
  intros Hin (Sd & Si & Su).
  destruct (touches_meta d) eqn:Em.
  { rewrite diff_delta_meta by done. by intros [= <-]. }
  unfold diff_delta. pose proof Em as Em'. unfold touches_meta in Em'.
  apply orb_false_iff in Em' as [-> ->].
  destruct (status d) eqn:Es; try done.
  - (* added *)
    destruct new as [n|]; simpl; [|done].
    destruct (new_file d) as [q|] eqn:Eq; simpl; [|done].
    destruct (pk_filter _) eqn:Ef; simpl; intros [= <-]; [|done].
    split; [done|]. split; [|done]. simpl.
    intros h l f [H|(-> & l0 & -> & H)]%In_dd_append Hf; [by eapply Si|].
    apply in_app_or in Hf as [Hf|[<-|[]]].
    + destruct H as [H| ->]; [by eapply Si|done].
    + by exists d, n, q.
  - (* deleted *)
    destruct old as [o|]; simpl; [|done].
    destruct (old_file d) as [p|] eqn:Ep; simpl; [|done].
    destruct (pk_filter _) eqn:Ef; simpl; intros [= <-]; [|done].
    split; [|done]. simpl.
    intros h l e [H|(-> & l0 & -> & H)]%In_dd_append He; [by eapply Sd|].
    apply in_app_or in He as [He|[<-|[]]].
    + destruct H as [H| ->]; [by eapply Sd|done].
    + by exists d, o, p.
  - (* modified *)
    destruct old as [o|]; simpl; [|done].
    destruct (old_file d) as [p|] eqn:Ep; simpl; [|done].
    destruct new as [n|]; simpl; [|done].
    destruct (new_file d) as [q|] eqn:Eq; simpl; [|done].
    destruct (pk_filter (str (decode_path_to_1pk o (file_path p)))) eqn:Ef1,
             (pk_filter (str (decode_path_to_1pk n (file_path q)))) eqn:Ef2; simpl.
    4: by intros [= <-].
    all: destruct other as [t|]; simpl; [|done]; intros [= <-].
    all: split; [done|]; split; [done|]; simpl.
    all: intros k v [[= -> ->]|H]%In_dict_set; [|by apply Su].
    all: left; exists d, o, n, t, p, q; rewrite ?Ef1, ?Ef2; repeat split; auto.
Qed.

Lemma diff_deltas_sound old new other pk_filter deltas ds :
  forall c c',
  (forall d, In d ds -> In d deltas) ->
  sound_candidates old new other pk_filter deltas c ->
  diff_deltas old new other pk_filter ds c = Ok c' ->
  sound_candidates old new other pk_filter deltas c'.
Proof.
  induction ds as [|d ds IH]; intros c c' Hsub Hs; simpl; [by intros [= <-]|].
  destruct (diff_delta old new other pk_filter c d) as [c1|e] eqn:E; simpl; [|done].
  apply IH.
  - intros d' Hd'. apply Hsub. by right.
  - eapply diff_delta_sound; [|done|done]. apply Hsub. by left.
Qed.

(** X20: [diff] reports nothing but what the tree diff says.  Every delete
    of the result is a deleted path outside the meta namespace whose key
    passes the filter, with the old dataset's feature; every insert is such
    an added path with the new dataset's feature; every update is a modified
    path whose old or new key passes the filter, or a deletion and an
    addition under the same key string, paired. *)
Theorem diff_changes_from_deltas (self : DS) other pk_filter (reverse : bool) r :
  let old := if reverse then other else Some self in
  let new := if reverse then Some self else other in
  let deltas := diff_to_tree (tree self) (tree <$> other) reverse in
  diff diff_to_tree self other pk_filter reverse = Ok r ->
  meta r = [] /\
  (forall k f, In (k, f) (deletes r) -> deleted_in old pk_filter deltas k f) /\
  (forall f, In f (inserts r) -> exists k, added_in new pk_filter deltas k f) /\
  (forall k v, In (k, v) (updates r) ->
     modified_in old new other pk_filter deltas k v \/
     moved_in old new pk_filter deltas k v).
Proof.
  intros old new deltas. unfold diff, diff_candidates. fold deltas.
  replace (if reverse then (other, Some self) else (Some self, other))
    with (old, new) by (by destruct reverse).
  cbv beta iota.
  destruct (diff_deltas old new other pk_filter deltas no_candidates)
    as [c|e] eqn:E; simpl; [|done].
  assert (Hwf : wf_candidates c)
    by (eapply diff_deltas_wf; [apply wf_no_candidates|done]).
  assert (Hs : sound_candidates old new other pk_filter deltas c).
  { eapply diff_deltas_sound; [|split; [|split]; simpl|exact E]; done. }
  rewrite detect_renames_wf by done. simpl. intros [= <-]. simpl.
  destruct Hs as (Sd & Si & Su). destruct Hwf as (_ & _ & _ & _ & Ht).
  split; [done|]. split; [|split].
  - intros k f Hin%In_dict_of_pairs.
    apply In_concat_values in Hin as (h & t & (l & Hl & Hsub)%In_unpair & Hin).
    by apply (Sd h l (k, f) Hl), Hsub.
  - intros f (h & t & (l & Hl & Hsub)%In_unpair & Hin)%In_concat_values.
    exists h. by apply (Si h l f Hl), Hsub.
  - intros k v [Hin|Hin]%In_set_all; [|by apply Su].
    right. destruct v as [x y].
    apply In_pairs in Hin as (h & rest & l & Hd & Hi).
    assert (k = h) as ->.
    { unfold tagged in Ht. rewrite Forall_forall in Ht.
      specialize (Ht _ ltac:(by apply list_elem_of_In)). simpl in Ht.
      by apply Forall_cons in Ht as [Ht _]. }
    split; simpl.
    + apply (Sd h _ (h, x) Hd). by left.
    + apply (Si h _ y Hi). by left.
Qed.

Lemma diff_deltas_only_added (self : DS) pk_filter ds :
  only_added ds ->
  forall c, exists c',
    diff_deltas None (Some self) None pk_filter ds c = Ok c' /\
    candidates_del c' = candidates_del c /\
    candidates_upd c' = candidates_upd c /\
    concat (values (candidates_ins c'))
    ≡ₚ concat (values (candidates_ins c)) ++ map snd (added_pairs self pk_filter ds).
Proof.
  induction 1 as [|d ds Hd _ IH]; intros c; simpl.
  - exists c. by rewrite app_nil_r.
  - destruct Hd as [Hm|[Hs [q Hq]]].
    + rewrite diff_delta_meta by done. simpl. rewrite Hm. apply IH.
    + destruct (touches_meta d) eqn:Em.
      { rewrite diff_delta_meta by done. simpl. apply IH. }
      unfold diff_delta. pose proof Em as Em'. unfold touches_meta in Em'.
      apply orb_false_iff in Em' as [-> ->]. rewrite Hs, Hq. simpl.
      destruct (pk_filter _); simpl; [|apply IH].
      destruct (IH {| candidates_ins :=
                        dd_append (str (decode_path_to_1pk self (file_path q)))
                          (get_feature self (decode_path_to_1pk self (file_path q))
                             (Some false)) (candidates_ins c);
                      candidates_upd := candidates_upd c;
                      candidates_del := candidates_del c |})
        as (c' & -> & Hdel & Hupd & Hins).
      exists c'. simpl in *. split; [done|]. split; [done|]. split; [done|].
      rewrite Hins, concat_values_dd_append. by rewrite <- (assoc_L (++)).
Qed.

Lemma diff_deltas_only_deleted (self : DS) pk_filter ds :
  only_deleted ds ->
  forall c, exists c',
    diff_deltas (Some self) None None pk_filter ds c = Ok c' /\
    candidates_ins c' = candidates_ins c /\
    candidates_upd c' = candidates_upd c /\
    concat (values (candidates_del c'))
    ≡ₚ concat (values (candidates_del c)) ++ deleted_pairs self pk_filter ds.
Proof.
  induction 1 as [|d ds Hd _ IH]; intros c; simpl.
  - exists c. by rewrite app_nil_r.
  - destruct Hd as [Hm|[Hs [p Hp]]].
    + rewrite diff_delta_meta by done. simpl. rewrite Hm. apply IH.
    + destruct (touches_meta d) eqn:Em.
      { rewrite diff_delta_meta by done. simpl. apply IH. }
      unfold diff_delta. pose proof Em as Em'. unfold touches_meta in Em'.
      apply orb_false_iff in Em' as [-> ->]. rewrite Hs, Hp. simpl.
      destruct (pk_filter _); simpl; [|apply IH].
      destruct (IH {| candidates_ins := candidates_ins c;
                      candidates_upd := candidates_upd c;
                      candidates_del :=
                        dd_append (str (decode_path_to_1pk self (file_path p)))
                          (str (decode_path_to_1pk self (file_path p)),
                           get_feature self (decode_path_to_1pk self (file_path p))
                             (Some false)) (candidates_del c) |})
        as (c' & -> & Hins & Hupd & Hdel).
      exists c'. simpl in *. split; [done|]. split; [done|]. split; [done|].
      rewrite Hdel, concat_values_dd_append. by rewrite <- (assoc_L (++)).
Qed.

Lemma pairs_no_insertions {V} (del : dict (list (string * V))) : pairs del [] = [].
Proof.
  induction del as [|[h b] del IH]; simpl; [done|].
  rewrite IH. by destruct b as [|[? ?] ?].
Qed.

Lemma unpair_nothing {V} (p : string -> bool) (d : dict (list V)) :
  (forall k, p k = false) -> unpair p d = d.
Proof.
  intros Hp. rewrite (unpair_ext p (fun _ => false)) by done. apply unpair_none.
Qed.

(** X21: the diff of a dataset that exists on the new side only, as
    [get_dataset_diff] asks for it ([other] is [None], [reverse] is set).
    When the tree diff reports additions only outside the meta namespace,
    [diff] returns a diff without deletes and updates, whose inserts are the
    features of the added paths that pass the filter. *)
Theorem diff_of_added_dataset (self : DS) pk_filter :
  only_added (diff_to_tree (tree self) None true) ->
  exists r,
    diff diff_to_tree self None pk_filter true = Ok r /\
    meta r = [] /\ deletes r = [] /\ updates r = [] /\
    inserts r ≡ₚ map snd (added_pairs self pk_filter (diff_to_tree (tree self) None true)).
Proof.
  intros Hadd. unfold diff, diff_candidates. simpl.
  destruct (diff_deltas_only_added self pk_filter _ Hadd no_candidates)
    as (c & -> & Hdel & Hupd & Hins).
  simpl in *. rewrite Hdel. simpl. eexists. split; [done|]. simpl.
  rewrite Hdel, Hupd. by repeat split.
Qed.

(** X22: the diff of a dataset against no dataset.  When the tree diff
    reports deletions only outside the meta namespace, and the deleted paths
    that pass the filter have distinct key strings, [diff] returns a diff
    without inserts and updates, whose deletes are the features of these
    paths under their key strings. *)
Theorem diff_of_deleted_dataset (self : DS) pk_filter :
  only_deleted (diff_to_tree (tree self) None false) ->
  NoDup (map fst (deleted_pairs self pk_filter (diff_to_tree (tree self) None false))) ->
  exists r,
    diff diff_to_tree self None pk_filter false = Ok r /\
    meta r = [] /\ inserts r = [] /\ updates r = [] /\
    deletes r ≡ₚ deleted_pairs self pk_filter (diff_to_tree (tree self) None false).
Proof.
  intros Hdel Hnd. unfold diff, diff_candidates. simpl.
  destruct (diff_deltas_only_deleted self pk_filter _ Hdel no_candidates)
    as (c & E & Hins & Hupd & Hd).
  rewrite E. simpl in *.
  rewrite detect_renames_wf by (eapply diff_deltas_wf; [apply wf_no_candidates|done]).
  simpl. rewrite Hins, Hupd. simpl. eexists. split; [done|]. simpl.
  split; [done|]. split; [done|]. split; [by rewrite pairs_no_insertions|].
  rewrite unpair_nothing by done.
  rewrite dict_of_pairs_NoDup; [done|]. by rewrite Hd.
Qed.

End Dataset.

Lemma diff_changes_from_deltas_witness :
  let self := Examples.names Examples.names_before in
  let other := Examples.names Examples.names_after in
  let deltas := Examples.ex_diff_to_tree Examples.names_before
                  (Some Examples.names_after) false in
  exists r,
    diff Examples.ex_diff_to_tree self (Some other) UNFILTERED false = Ok r /\
    meta r = [] /\
    (forall k f, In (k, f) (deletes r) -> deleted_in (Some self) UNFILTERED deltas k f) /\
    (forall f, In f (inserts r) -> exists k, added_in (Some other) UNFILTERED deltas k f) /\
    (forall k v, In (k, v) (updates r) ->
       modified_in (Some self) (Some other) (Some other) UNFILTERED deltas k v \/
       moved_in (Some self) (Some other) UNFILTERED deltas k v).
Proof.
  eexists. split; [reflexivity|].
  apply (diff_changes_from_deltas Examples.ex_diff_to_tree
           (Examples.names Examples.names_before)
           (Some (Examples.names Examples.names_after)) UNFILTERED false).
  reflexivity.
Defined.

Lemma diff_of_added_dataset_witness :
  exists r,
    diff Examples.ex_diff_to_tree (Examples.names Examples.names_after) None
      UNFILTERED true = Ok r /\
    meta r = [] /\ deletes r = [] /\ updates r = [] /\
    inserts r ≡ₚ map snd (added_pairs (Examples.names Examples.names_after) UNFILTERED
                            (Examples.ex_diff_to_tree Examples.names_after None true)).
Proof.
  apply (diff_of_added_dataset Examples.ex_diff_to_tree
           (Examples.names Examples.names_after) UNFILTERED).
  repeat (apply Forall_cons; split;
          [right; split; [reflexivity|eexists; reflexivity]|]).
  by apply Forall_nil.
Defined.

Lemma diff_of_deleted_dataset_witness :
  exists r,
    diff Examples.ex_diff_to_tree (Examples.names Examples.names_before) None
      UNFILTERED false = Ok r /\
    meta r = [] /\ inserts r = [] /\ updates r = [] /\
    deletes r ≡ₚ deleted_pairs (Examples.names Examples.names_before) UNFILTERED
                   (Examples.ex_diff_to_tree Examples.names_before None false).
Proof.
  apply (diff_of_deleted_dataset Examples.ex_diff_to_tree
           (Examples.names Examples.names_before) UNFILTERED).
  - repeat (apply Forall_cons; split;
            [right; split; [reflexivity|eexists; reflexivity]|]).
    by apply Forall_nil.
  - apply (bool_decide_unpack _). vm_compute. reflexivity.
Defined.

End DiffMore.

(** * [get_repo_diff] *)

Module RepoDiffFacts.

Import Py Structure DiffStructs KartDiff.

Lemma elem_of_insert_path (p q : string) (l : list string) :
  q ∈ insert_path p l -> q = p \/ q ∈ l.
Proof.
  induction l as [|x l IH]; simpl.
  - intros ->%list_elem_of_singleton. by left.
  - destruct (String.compare p x).
    + by right.
    + intros [->|H]%elem_of_cons; [by left|by right].
    + intros [->|H]%elem_of_cons; [right; by left|].
      destruct (IH H) as [->|?]; [by left|right; by right].
Qed.

Lemma elem_of_sorted_set (q : string) (l : list string) : q ∈ sorted_set l -> q ∈ l.
Proof.
  induction l as [|x l IH]; simpl; [done|].
  intros [->|H]%elem_of_insert_path; [by left|right; by apply IH].
Qed.

Section Repo.

Context {RepoStructure Dataset WorkingCopy DatasetFilter : Type}.
Variable rs_ne : RepoStructure -> RepoStructure -> bool.
Variable datasets_get : RepoStructure -> string -> option Dataset.
Variable dataset_paths : RepoStructure -> list string.
Variable dataset_diff :
  Dataset -> option Dataset -> DatasetFilter -> bool -> result DatasetDiff.
Variable diff_db_to_tree :
  WorkingCopy -> option Dataset -> DatasetFilter -> result DatasetDiff.
Variable UNFILTERED : DatasetFilter.

Lemma repo_diff_loop_raise base_rs target_rs feature_filter paths e :
  forall result,
  repo_diff_loop rs_ne datasets_get dataset_diff diff_db_to_tree UNFILTERED
    base_rs target_rs feature_filter paths result = Raise e ->
  exists p, p ∈ paths /\
    (filter_getitem UNFILTERED feature_filter p = Raise e \/
     exists flt, filter_getitem UNFILTERED feature_filter p = Ok flt /\
       get_dataset_diff rs_ne datasets_get dataset_diff diff_db_to_tree
         base_rs target_rs None p flt = Raise e).
Proof.
  induction paths as [|p paths IH]; intros result; simpl; [done|].
  destruct (filter_getitem UNFILTERED feature_filter p) as [flt|e'] eqn:Ef; simpl.
  - destruct (get_dataset_diff _ _ _ _ _ _ _ _ _) as [d|e'] eqn:Ed; simpl.
    + intros (q & Hq & H)%IH. exists q. split; [by right|done].
    + intros [= <-]. exists p. split; [by left|]. right. by exists flt.
  - intros [= <-]. exists p. split; [by left|]. by left.
Qed.

(** X23: [get_repo_diff] fails only where a dataset's diff fails.  When
    every path among [rs.datasets] is one [rs.datasets.get] finds, an
    exception of [get_repo_diff] is the exception of [ds.diff] for a dataset
    path of the base or of the target that the filter has: called on the
    base's dataset with the target's, or, when the base has none, on the
    target's dataset with no other and [reverse] set.  Neither the filter
    lookup nor a missing dataset raises, and nothing is raised when the two
    structures are equal. *)
Theorem get_repo_diff_fails_in_dataset_diff base_rs target_rs feature_filter e :
  (forall rs p, p ∈ dataset_paths rs -> is_Some (datasets_get rs p)) ->
  get_repo_diff rs_ne datasets_get dataset_paths dataset_diff diff_db_to_tree UNFILTERED
    base_rs target_rs feature_filter = Raise e ->
  rs_ne base_rs target_rs = true /\
  exists p flt,
    p ∈ dataset_paths base_rs ++ dataset_paths target_rs /\
    filter_getitem UNFILTERED feature_filter p = Ok flt /\
    match datasets_get base_rs p with
    | Some ds => dataset_diff ds (datasets_get target_rs p) flt false = Raise e
    | None => exists ds, datasets_get target_rs p = Some ds /\
                         dataset_diff ds None flt true = Raise e
    end.
Proof.
  intros Hpaths. unfold get_repo_diff.
  destruct (repo_diff_loop _ _ _ _ _ _ _ _ _ _) as [r|e'] eqn:E; simpl; [done|].
  intros [= ->]. apply repo_diff_loop_raise in E as (p & Hp & H).
  apply elem_of_sorted_set in Hp.
  assert (Hin : p ∈ dataset_paths base_rs ++ dataset_paths target_rs /\
                exists flt, filter_getitem UNFILTERED feature_filter p = Ok flt).
  { destruct feature_filter as [|by_dataset]; simpl in *.
    - split; [done|]. by eexists.
    - apply list_elem_of_In, filter_In in Hp as [Hp Hmem].
      apply list_elem_of_In in Hp. split; [done|].
      unfold dict_mem in Hmem. destruct (dict_get p by_dataset); [by eexists|done]. }
  destruct Hin as (Hin & flt & Ef).
  destruct H as [H|(flt' & Ef' & H)]; [congruence|].
  assert (flt' = flt) as -> by congruence.
  unfold get_dataset_diff in H.
  destruct (rs_ne base_rs target_rs) eqn:Ene; [|done].
  split; [done|]. exists p, flt. split; [done|]. split; [done|].
  destruct (datasets_get base_rs p) as [b|] eqn:Eb; simpl in H.
  - by destruct (dataset_diff b (datasets_get target_rs p) flt false).
  - destruct (datasets_get target_rs p) as [t|] eqn:Et; simpl in H.
    + exists t. split; [done|]. by destruct (dataset_diff t None flt true).
    + apply elem_of_app in Hin as [Hin|Hin]; apply Hpaths in Hin as [? Hin]; congruence.
Qed.

End Repo.

Lemma get_repo_diff_fails_in_dataset_diff_witness :
  Examples3.rs_ne 0 1 = true /\
  exists p flt,
    p ∈ Examples3.dataset_paths 0 ++ Examples3.dataset_paths 1 /\
    filter_getitem tt Unfiltered p = Ok flt /\
    match Examples3.datasets_get 0 p with
    | Some ds =>
        Examples7.failing_dataset_diff ds (Examples3.datasets_get 1 p) flt false
        = Raise (NotImplementedError GIT_DELTA_TYPECHANGE)
    | None =>
        exists ds, Examples3.datasets_get 1 p = Some ds /\
                   Examples7.failing_dataset_diff ds None flt true
                   = Raise (NotImplementedError GIT_DELTA_TYPECHANGE)
    end.
Proof.
  apply (get_repo_diff_fails_in_dataset_diff Examples3.rs_ne Examples3.datasets_get
           Examples3.dataset_paths Examples7.failing_dataset_diff
           Examples3.diff_db_to_tree tt 0 1 Unfiltered).
  - intros rs p. unfold Examples3.dataset_paths, Examples3.datasets_get.
    destruct (Nat.eqb rs 1).
    + intros [->|[->|[]%elem_of_nil]%elem_of_cons]%elem_of_cons; by eexists.
    + intros [->|[]%elem_of_nil]%elem_of_cons; by eexists.
  - reflexivity.
Defined.

End RepoDiffFacts.

(** * The working copy *)

Module WCFacts.

Import Py Structure Exc WC.

Section WorkingCopy.

Context {Part Target Filter : Type} `{EqDecision Part}.

Abbreviation Ext := (Externals (Part := Part) (Target := Target) (Filter := Filter)).
Abbreviation St := (State (Part := Part) (Target := Target) (Filter := Filter)).
Abbreviation Ev := (event (Part := Part) (Target := Target) (Filter := Filter)).

Variable ext : Ext.

Lemma tabular_history (s : St) r s' :
  tabular ext s = (r, s') -> history s' = history s.
Proof.
  unfold tabular, seq, get_tabular, ask, set_tabular, ret.
  destruct (_tabular s); [by intros [= <- <-]|].
  destruct (table_working_copy_get ext false false false (history s));
    by intros [= <- <-].
Qed.

Ltac split_cases :=
  repeat (simpl; unfold seq, ret, raise, call, echo, ask, set_tabular; simpl;
          match goal with
          | |- context [match ?x with _ => _ end] =>
              lazymatch x with
              | context [match _ with _ => _ end] => fail
              | _ => destruct x eqn:?
              end
          end).

Ltac shape :=
  simpl; rewrite <- ?(assoc_L (++)); simpl;
  first [ by eexists []; rewrite app_nil_r; split; [|left; split; [|simpl; lia]]
        | eexists; split; [reflexivity|]; simpl;
          first [ left; split; [done|simpl; lia]
                | right; left; eexists; by split
                | right; right; eexists; by split ] ].

(** X24: [reset] resets no part twice.  For no parts to create or the one
    part ["tabular"], whatever the parts and the repository answer and
    however the call ends, it makes at most one [reset] call on a part, to
    the given commit or tree: either on a part it found, with the given
    options and without creating anything, or on the part it has just
    created, without options (a full reset); and it creates at most one
    part. *)
Theorem reset_resets_once (commit_or_tree : Target) (create_parts : list string)
    (quiet : bool) (options : reset_options) (s : St) :
  create_parts = [] \/ create_parts = ["tabular"] ->
  exists new,
    history (reset ext commit_or_tree create_parts quiet options s).2
    = history s ++ new /\
    ((resets new = [] /\ length (creations new) <= 1)
     \/ (exists p, resets new = [PartReset p commit_or_tree (Some options)] /\
                   creations new = [])
     \/ (exists t, resets new = [PartReset t commit_or_tree None] /\
                   creations new = [t])).
Proof.
  intros [->| ->].
  - unfold reset, parts, tabular, seq, get_tabular, ask, set_tabular, ret, echo, call.
    split_cases; simplify_eq/=; shape.
  - unfold reset, create_parts_if_missing, create_loop, create_and_initialise_tabular,
      reset_created, for_each.
    unfold parts, tabular, seq, get_tabular, ask, set_tabular, ret, echo, call, raise.
    split_cases; simplify_eq/=.
    all: try (exfalso;
              match goal with
              | H : bool_decide (_ ∈ _) = false |- _ =>
                  apply bool_decide_eq_false in H; apply H; by left
              end).
    all: shape.
Qed.

(** X25: when [reset] returns, the part of the working copy has been reset.
    The part the working copy then holds, if any, was reset exactly once by
    the call: without options if the call created it, with the given options
    otherwise; when it holds none, nothing was created or reset. *)
Theorem reset_resets_the_part (commit_or_tree : Target) (create_parts : list string)
    (quiet : bool) (options : reset_options) (s s' : St) :
  create_parts = [] \/ create_parts = ["tabular"] ->
  reset ext commit_or_tree create_parts quiet options s = (Returns tt, s') ->
  exists new,
    history s' = history s ++ new /\
    match _tabular s' with
    | Some (Some p) =>
        exists how, resets new = [PartReset p commit_or_tree how] /\
                    (how = None /\ creations new = [p]
                     \/ how = Some options /\ creations new = [])
    | Some None => resets new = [] /\ creations new = []
    | None => False
    end.
Proof.
  intros [->| ->].
  - unfold reset, parts, tabular, seq, get_tabular, ask, set_tabular, ret, echo, call.
    split_cases; intros; simplify_eq/=.
    all: simpl; rewrite <- ?(assoc_L (++)); simpl.
    all: try (by eexists []; rewrite app_nil_r).
    all: eexists; (split; [reflexivity|]); simpl.
    all: eexists; split; [done|]; by right.
  - unfold reset, create_parts_if_missing, create_loop, create_and_initialise_tabular,
      reset_created, for_each.
    unfold parts, tabular, seq, get_tabular, ask, set_tabular, ret, echo, call, raise.
    split_cases; intros; simplify_eq/=.
    all: try (exfalso;
              match goal with
              | H : bool_decide (_ ∈ _) = false |- _ =>
                  apply bool_decide_eq_false in H; apply H; by left
              end).
    all: simpl; rewrite <- ?(assoc_L (++)); simpl.
    all: try (by eexists []; rewrite app_nil_r).
    all: eexists; (split; [reflexivity|]); simpl.
    all: try (eexists; split; [done|]; by right).
    all: try (eexists; split; [done|]; by left).
Qed.

(** X26: a working copy without parts is taken as clean and as matching
    every tree.  When [tabular] finds no part, [check_not_dirty] and
    [assert_matches_tree] return whatever they are asked; only
    [assert_exists] raises, [NotFound] with [NO_DATA] when the head is unborn
    and with [NO_WORKING_COPY] otherwise.  None of the three prints or calls
    anything. *)
Theorem checks_without_parts (s : St) (help_message error_message : option string)
    (tree : expected) :
  (tabular ext s).1 = Returns None ->
  (check_not_dirty ext help_message s).1 = Returns tt /\
  (assert_matches_tree ext tree s).1 = Returns tt /\
  (exists message,
     (assert_exists ext error_message s).1
     = Raises (NotFound message
                 (if head_is_unborn ext then NO_DATA else NO_WORKING_COPY))) /\
  history (check_not_dirty ext help_message s).2 = history s /\
  history (assert_matches_tree ext tree s).2 = history s /\
  history (assert_exists ext error_message s).2 = history s.
Proof.
  unfold check_not_dirty, assert_matches_tree, assert_exists, parts, seq, ret, raise.
  destruct (tabular ext s) as [[[p|]|e] s1] eqn:E; simpl; try done. intros _.
  apply tabular_history in E.
  repeat split; try done.
  - destruct (head_is_unborn ext); [by eexists|].
    destruct (is_bare ext); by eexists.
  - by destruct (head_is_unborn ext), (is_bare ext).
Qed.

End WorkingCopy.

Lemma reset_resets_once_witness :
  exists new,
    history (reset Examples8.configured "HEAD" ["tabular"] false Examples8.match_all
               Examples8.fresh).2
    = history Examples8.fresh ++ new /\
    ((resets new = [] /\ length (creations new) <= 1)
     \/ (exists p, resets new = [PartReset p "HEAD" (Some Examples8.match_all)] /\
                   creations new = [])
     \/ (exists t, resets new = [PartReset t "HEAD" None] /\ creations new = [t])).
Proof.
  apply (reset_resets_once Examples8.configured "HEAD" ["tabular"] false
           Examples8.match_all Examples8.fresh).
  by right.
Defined.

Lemma reset_resets_the_part_witness :
  let s' := (reset Examples8.configured "HEAD" ["tabular"] false Examples8.match_all
               Examples8.fresh).2 in
  exists new,
    history s' = history Examples8.fresh ++ new /\
    match _tabular s' with
    | Some (Some p) =>
        exists how, resets new = [PartReset p "HEAD" how] /\
                    (how = None /\ creations new = [p]
                     \/ how = Some Examples8.match_all /\ creations new = [])
    | Some None => resets new = [] /\ creations new = []
    | None => False
    end.
Proof.
  apply (reset_resets_the_part Examples8.configured "HEAD" ["tabular"] false
           Examples8.match_all Examples8.fresh).
  - by right.
  - reflexivity.
Defined.

Lemma checks_without_parts_witness :
  (check_not_dirty Examples8.configured None Examples8.fresh).1 = Returns tt /\
  (assert_matches_tree Examples8.configured (TreeId "abc") Examples8.fresh).1
  = Returns tt /\
  (exists message,
     (assert_exists Examples8.configured (Some "kart status") Examples8.fresh).1
     = Raises (NotFound message
                 (if head_is_unborn Examples8.configured
                  then NO_DATA else NO_WORKING_COPY))) /\
  history (check_not_dirty Examples8.configured None Examples8.fresh).2
  = history Examples8.fresh /\
  history (assert_matches_tree Examples8.configured (TreeId "abc") Examples8.fresh).2
  = history Examples8.fresh /\
  history (assert_exists Examples8.configured (Some "kart status") Examples8.fresh).2
  = history Examples8.fresh.
Proof.
  apply (checks_without_parts Examples8.configured Examples8.fresh None
           (Some "kart status") (TreeId "abc")).
  reflexivity.
Defined.

End WCFacts.

(** * The datasets of a repository tree *)

Module DatasetsFacts.

Import Py Structure Exc Dataset Datasets DictFacts StrFacts CommitSpecFacts.

Lemma split_slash_name (n : string) :
  string_mem "/" n = false ->
  forall cur rest, split_slash cur (n +:+ rest) = split_slash (cur +:+ n) rest.
Proof.
  induction n as [|c n IH]; intros Hn cur rest.
  - by rewrite append_nil_l, append_nil_r.
  - cbn [string_mem] in Hn. rewrite append_cons. cbn [split_slash].
    rewrite Ascii.eqb_sym. destruct (Ascii.eqb "/" c) eqn:E; [done|].
    rewrite IH by done. by rewrite append_snoc.
Qed.

Lemma split_slash_join (names : list string) :
  names <> [] -> Forall (fun n => string_mem "/" n = false) names ->
  split_slash "" (join_slash names) = names.
Proof.
  induction names as [|n names IH]; [done|]. intros _ Hn.
  apply Forall_cons in Hn as [Hn Hns].
  destruct names as [|n2 names].
  - simpl. rewrite <- (append_nil_r n) at 1.
    by rewrite split_slash_name, append_nil_l.
  - change (join_slash (n :: n2 :: names))
      with (n +:+ "/" +:+ join_slash (n2 :: names)).
    rewrite split_slash_name, append_nil_l by done.
    rewrite append_cons, append_nil_l. cbn [split_slash].
    rewrite Ascii.eqb_refl. by rewrite IH.
Qed.

Lemma join_slash_nonempty (n : string) (names : list string) :
  n <> "" -> join_slash (n :: names) <> "".
Proof. destruct n; [done|]. by destruct names. Qed.

Lemma join_slash_snoc (names : list string) (n : string) :
  names <> [] -> join_slash (names ++ [n]) = join_slash names +:+ "/" +:+ n.
Proof.
  induction names as [|c names IH]; [done|]. intros _.
  destruct names as [|c2 names]; [done|].
  change (join_slash ((c :: c2 :: names) ++ [n]))
    with (c +:+ "/" +:+ join_slash ((c2 :: names) ++ [n])).
  rewrite IH by done.
  change (join_slash (c :: c2 :: names)) with (c +:+ "/" +:+ join_slash (c2 :: names)).
  by rewrite !append_assoc.
Qed.

Lemma te_path_join (names : list string) (n : string) :
  Forall good_name names -> te_path (join_slash names) n = join_slash (names ++ [n]).
Proof.
  destruct names as [|c names]; [done|]. intros [[Hc _] _]%Forall_cons.
  rewrite join_slash_snoc by done. unfold te_path.
  pose proof (join_slash_nonempty c names Hc).
  by destruct (join_slash (c :: names)).
Qed.

Lemma first_char_append (a b : string) :
  a <> "" -> Str.first_char (a +:+ b) = Str.first_char a.
Proof. by destruct a. Qed.

Lemma last_char_append (a b : string) :
  b <> "" -> Str.last_char (a +:+ b) = Str.last_char b.
Proof.
  intros Hb. induction a as [|c a IH]; [done|].
  rewrite append_cons. simpl. rewrite IH.
  destruct (a +:+ b) eqn:E; [|done].
  destruct a, b; done.
Qed.

Lemma good_name_ends (n : string) :
  good_name n ->
  Str.first_char n <> Some "/"%char /\ Str.last_char n <> Some "/"%char.
Proof.
  intros [_ Hn]. split; [by apply first_char_absent|by apply last_char_absent].
Qed.

Lemma join_slash_ends (names : list string) :
  Forall good_name names ->
  Str.first_char (join_slash names) <> Some "/"%char /\
  Str.last_char (join_slash names) <> Some "/"%char.
Proof.
  induction names as [|n names IH]; [done|].
  intros [Hn Hns]%Forall_cons. destruct names as [|n2 names].
  - by apply good_name_ends.
  - change (join_slash (n :: n2 :: names))
      with (n +:+ "/" +:+ join_slash (n2 :: names)).
    destruct (IH Hns) as [_ IH2]. split.
    + rewrite first_char_append by apply Hn. by apply good_name_ends.
    + rewrite last_char_append; [|by destruct (join_slash (n2 :: names))].
      rewrite last_char_append; [done|].
      apply join_slash_nonempty. by apply Forall_cons in Hns as [[? _] _].
Qed.

Lemma init_path_join (names : list string) :
  Forall good_name names -> init_path (join_slash names) = join_slash names.
Proof.
  intros [H1 H2]%join_slash_ends. unfold init_path, Str.strip.
  by rewrite lstrip_fixed, rstrip_fixed.
Qed.

Lemma dict_get_NoDup {V} (k : string) (v : V) (d : dict V) :
  NoDup (map fst d) -> In (k, v) d -> dict_get k d = Some v.
Proof.
  induction d as [|[k' v'] d IH]; [done|]. simpl.
  intros [Hk Hnd]%NoDup_cons [[= -> ->]|Hin].
  - by rewrite eqb_refl'.
  - rewrite eqb_ne; [by apply IH|]. intros ->. apply Hk.
    apply list_elem_of_In, in_map_iff. by exists (k', v).
Qed.

Lemma well_named_entry (tree : list (string * git_object)) n o :
  well_named (Tree tree) -> In (n, o) tree -> good_name n /\ well_named o.
Proof.
  intros [_ H]. induction tree as [|[n' o'] tree IH]; [done|].
  simpl in H. destruct H as (Hn & Ho & H). intros [[= -> ->]|Hin]; [done|]. by apply IH.
Qed.

Lemma descend_snoc (names : list string) :
  forall root t name o,
  names <> [] -> descend root names = Some (Tree t) -> dict_get name t = Some o ->
  descend root (names ++ [name]) = Some o.
Proof.
  induction names as [|c names IH]; [done|]. intros root t name o _ Hd Hg.
  destruct names as [|c2 names].
  - simpl in *. destruct (dict_get c root) as [oc|]; [|done].
    destruct oc; simplify_eq. rewrite Hg. by destruct o.
  - change (descend root (c :: c2 :: names))
      with (match dict_get c root with
            | Some (Tree entries') => descend entries' (c2 :: names)
            | _ => None
            end) in Hd.
    change (descend root ((c :: c2 :: names) ++ [name]))
      with (match dict_get c root with
            | Some (Tree entries') => descend entries' ((c2 :: names) ++ [name])
            | _ => None
            end).
    destruct (dict_get c root) as [[|sub|]|]; try done.
    by apply (IH sub t name o).
Qed.

Section Versions.

Variable all_versions : list VersionClass.
Variable decode_utf8 : string -> option string.
Variable json_version : string -> option pyval.

Abbreviation instantiate' := (instantiate all_versions decode_utf8 json_version).
Abbreviation examine' := (examine all_versions decode_utf8 json_version).
Abbreviation examine_all' := (examine_all all_versions decode_utf8 json_version).
Abbreviation dataset_of' := (dataset_of all_versions decode_utf8 json_version).

Lemma examine_tree path name entries tree :
  examine' path ((name, Tree entries) :: tree)
  = match instantiate' (Tree entries) (te_path path name) with
    | inr ds =>
        let '(yielded, more, e) := examine' path tree in (ds :: yielded, more, e)
    | inl e =>
        if is_IntegrityError e then examine' path tree
        else if is_ValueError e then
          let '(yielded, more, e') := examine' path tree in
          (yielded, (te_path path name, entries) :: more, e')
        else ([], [], Some e)
    end.
Proof. reflexivity. Qed.

Lemma examine_trees path tree :
  waiting (examine' path tree).1.2 <= list_sum (map (fun e => trees_in (snd e)) tree).
Proof.
  induction tree as [|[name o] tree IH]; [done|].
  destruct o as [data|entries|t]; [simpl; lia| |simpl; lia].
  rewrite examine_tree.
  change (list_sum (map (fun e => trees_in (snd e)) ((name, Tree entries) :: tree)))
    with (trees_in (Tree entries) + list_sum (map (fun e => trees_in (snd e)) tree)).
  destruct (instantiate' (Tree entries) (te_path path name)) as [e|ds].
  - destruct (is_IntegrityError e); [lia|].
    destruct (is_ValueError e); [|unfold waiting; simpl; lia].
    destruct (examine' path tree) as [[ys more] err].
    unfold waiting in *. simpl in *. lia.
  - destruct (examine' path tree) as [[ys more] err]. simpl in *. lia.
Qed.

Lemma waiting_app q1 q2 : waiting (q1 ++ q2) = waiting q1 + waiting q2.
Proof. unfold waiting. by rewrite map_app, list_sum_app. Qed.

Lemma waiting_cons path tree q :
  waiting ((path, tree) :: q)
  = S (list_sum (map (fun e => trees_in (snd e)) tree)) + waiting q.
Proof. reflexivity. Qed.

Lemma examine_all_enough rounds :
  forall q, waiting q <= rounds -> is_Some (examine_all' rounds q).
Proof.
  induction rounds as [|rounds IH]; intros [|[path tree] q] Hq; simpl; try done.
  - rewrite waiting_cons in Hq. lia.
  - pose proof (examine_trees path tree) as Hm.
    destruct (examine' path tree) as [[ys more] [e|]]; [done|]. simpl in Hm.
    destruct (IH (q ++ more)) as [[ys' e'] ->]; [|done].
    rewrite waiting_app. rewrite waiting_cons in Hq. lia.
Qed.

Lemma examine_spec path tree :
  (forall ds, In ds (examine' path tree).1.1 ->
     exists name entries, In (name, Tree entries) tree /\
       instantiate' (Tree entries) (te_path path name) = inr ds) /\
  (forall p t, In (p, t) (examine' path tree).1.2 ->
     exists name e, p = te_path path name /\ In (name, Tree t) tree /\
       instantiate' (Tree t) p = inl e /\
       is_IntegrityError e = false /\ is_ValueError e = true) /\
  (forall e, (examine' path tree).2 = Some e -> is_ValueError e = false) /\
  ((examine' path tree).2 = None ->
   forall name entries, In (name, Tree entries) tree ->
     match instantiate' (Tree entries) (te_path path name) with
     | inr ds => In ds (examine' path tree).1.1
     | inl e => is_IntegrityError e = true \/
                (is_ValueError e = true /\
                 In (te_path path name, entries) (examine' path tree).1.2)
     end).
Proof.
  induction tree as [|[name o] tree (IH1 & IH2 & IH3 & IH4)].
  { repeat split; try done. }
  assert (Hskip : forall o', (forall entries, o' <> Tree entries) ->
            examine' path ((name, o') :: tree) = examine' path tree).
  { intros o' Ho'. destruct o'; try done. by destruct (Ho' entries). }
  destruct o as [data|entries|t].
  1,3: rewrite Hskip by done; (split; [|split; [|split]]).
  1,5: intros ds (n & es & ? & ?)%IH1; exists n, es; split; [by right|done].
  1,4: intros p t' (n & e & ? & ? & ?)%IH2; exists n, e; split; [done|]; split;
       [by right|done].
  1,3: done.
  1,2: intros He n es [[=]|Hin]; specialize (IH4 He n es Hin); done.
  rewrite examine_tree.
  destruct (instantiate' (Tree entries) (te_path path name)) as [e|ds] eqn:Ei.
  - destruct (is_IntegrityError e) eqn:E1.
    { split; [|split; [|split]].
      - intros ds (n & es & ? & ?)%IH1. exists n, es. split; [by right|done].
      - intros p t' (n & e' & ? & ? & ?)%IH2. exists n, e'. split; [done|].
        split; [by right|done].
      - done.
      - intros He n es [[= <- <-]|Hin].
        + rewrite Ei. by left.
        + by apply IH4. }
    destruct (is_ValueError e) eqn:E2.
    + destruct (examine' path tree) as [[ys more] err]. cbn [fst snd] in *.
      split; [|split; [|split]].
      * intros ds (n & es & ? & ?)%IH1. exists n, es. split; [by right|done].
      * intros p t' [[= <- <-]|(n & e' & ? & ? & ?)%IH2].
        -- exists name, e. split; [done|]. split; [by left|done].
        -- exists n, e'. split; [done|]. split; [by right|done].
      * done.
      * intros He n es [[= <- <-]|Hin].
        -- rewrite Ei. right. split; [done|]. by left.
        -- specialize (IH4 He n es Hin).
           destruct (instantiate' (Tree es) (te_path path n)); [|done].
           destruct IH4 as [?|[? ?]]; [by left|right]. split; [done|]. by right.
    + simpl. split; [done|]. split; [done|]. split; [by intros ? [= <-]|].
      intros [=].
  - destruct (examine' path tree) as [[ys more] err]. cbn [fst snd] in *.
    split; [|split; [|split]].
    + intros ds' [<-|(n & es & ? & ?)%IH1].
      * exists name, entries. split; [by left|done].
      * exists n, es. split; [by right|done].
    + intros p t' (n & e' & ? & ? & ?)%IH2. exists n, e'. split; [done|].
      split; [by right|done].
    + done.
    + intros He n es [[= <- <-]|Hin].
      * rewrite Ei. by left.
      * specialize (IH4 He n es Hin).
        destruct (instantiate' (Tree es) (te_path path n)); [done|]. by right.
Qed.

Lemma examine_all_spec rounds :
  forall q ys err,
  examine_all' rounds q = Some (ys, err) ->
  (forall ds, In ds ys -> exists p t, In (p, t) q /\ dataset_of' p t ds) /\
  (forall e, err = Some e -> is_ValueError e = false) /\
  (err = None -> forall p t ds, In (p, t) q -> dataset_of' p t ds -> In ds ys).
Proof.
  induction rounds as [|rounds IH]; intros [|[path tree] q] ys err; simpl; try done.
  1,2: intros [= <- <-]; repeat split; try done;
       intros ? ? ? ? []; done.
  pose proof (examine_spec path tree) as (H1 & H2 & H3 & H4).
  destruct (examine' path tree) as [[ys0 more] [e|]]; cbn [fst snd] in *.
  - intros [= <- <-]. split; [|split; [|done]].
    + intros ds (n & es & ? & ?)%H1. exists path, tree. split; [by left|].
      by eapply dataset_here.
    + intros e' [= <-]. by apply H3.
  - destruct (examine_all' rounds (q ++ more)) as [[ys' e']|] eqn:E; [|done].
    intros [= <- <-]. destruct (IH _ _ _ E) as (I1 & I2 & I3).
    split; [|split; [done|]].
    + intros ds [(n & es & ? & ?)%H1|(p & t & Hin & Hds)%I1]%in_app_or.
      * exists path, tree. split; [by left|]. by eapply dataset_here.
      * apply in_app_or in Hin as [Hin|(n & e & -> & ? & ? & ? & ?)%H2].
        -- exists p, t. split; [by right|done].
        -- exists path, tree. split; [by left|]. by eapply dataset_below.
    + intros -> p t ds [[= <- <-]|Hin] Hds; apply in_or_app.
      * destruct Hds as [p t n es ds Hin Hi|p t n es e ds Hin Hi He1 He2 Hds].
        -- left. specialize (H4 eq_refl n es Hin). by rewrite Hi in H4.
        -- right. specialize (H4 eq_refl n es Hin). rewrite Hi in H4.
           destruct H4 as [?|[_ Hmore]]; [congruence|].
           eapply (I3 eq_refl); [|done]. apply in_or_app. by right.
      * right. eapply (I3 eq_refl); [|done]. apply in_or_app. by left.
Qed.

(** X27: [iter_at] yields the datasets of the tree and nothing else.  The
    iteration ends (there are no more rounds than trees); what it yields are
    datasets of the tree: trees that [instantiate] accepts, reached from the
    root through trees that [instantiate] rejects with a [ValueError] other
    than [IntegrityError]; it is ended by an exception only when
    [instantiate] raises something that is not a [ValueError]; and when it
    ends normally it has yielded every dataset of the tree.  So it looks
    neither inside a dataset nor inside a tree with a broken version file,
    and blobs are ignored. *)
Theorem iter_at_finds_the_datasets (tree : list (string * git_object)) :
  exists yielded e,
    iter_at all_versions decode_utf8 json_version tree = Some (yielded, e) /\
    (forall ds, In ds yielded -> dataset_of' "" tree ds) /\
    (forall e', e = Some e' -> is_ValueError e' = false) /\
    (e = None -> forall ds, dataset_of' "" tree ds -> In ds yielded).
Proof.
  unfold iter_at.
  destruct (examine_all_enough (trees_in (Tree tree)) [("", tree)]) as [[ys e] E].
  { rewrite waiting_cons. unfold waiting. simpl. lia. }
  exists ys, e. split; [done|].
  apply examine_all_spec in E as (H1 & H2 & H3). split; [|split; [done|]].
  - intros ds (p & t & [[= <- <-]|[]] & Hds)%H1. done.
  - intros -> ds Hds. eapply (H3 eq_refl); [|done]. by left.
Qed.

Lemma instantiate_instance entries path ds :
  instantiate' (Tree entries) path = inr ds ->
  exists k, In k all_versions /\ ds = new_instance k entries path.
Proof.
  unfold instantiate. induction all_versions as [|k ks IH]; simpl; [done|].
  destruct (try_version decode_utf8 json_version entries path k) as [r|] eqn:E.
  - intros ->. exists k. split; [by left|].
    unfold try_version in E.
    destruct (tree_getitem entries (VERSION_PATH k)) as [[data| |]|]; try done.
    destruct (if Nat.leb _ _ then _ else _) as [e|v]; [by injection E|].
    destruct (version_matches v (VERSION_SPECIFIER k)) as [e|[]]; by simplify_eq.
  - intros (k' & ? & ?)%IH. exists k'. split; [by right|done].
Qed.

(** The tree the names lead to from the root. *)
Lemma dataset_of_get_at root p t ds :
  dataset_of' p t ds ->
  forall names,
    p = join_slash names -> Forall good_name names ->
    match names with [] => t = root | _ => descend root names = Some (Tree t) end ->
    well_named (Tree t) ->
    get_at all_versions decode_utf8 json_version (instance_path ds) root = inr ds.
Proof.
  induction 1 as [p t name entries ds Hin Hi|p t name entries e ds Hin Hi He1 He2 Hds IH];
    intros names -> Hnames Hreach Hwf.
  - destruct (well_named_entry t name (Tree entries) Hwf Hin) as [Hname _].
    assert (Hnames' : Forall good_name (names ++ [name])).
    { apply Forall_app. split; [done|]. by apply Forall_singleton. }
    rewrite te_path_join in Hi by done.
    destruct (instantiate_instance _ _ _ Hi) as (k & _ & ->). simpl.
    rewrite init_path_join by done.
    unfold get_at, tree_getitem.
    rewrite split_slash_join; [|by destruct names|].
    2: { eapply Forall_impl; [exact Hnames'|]. by intros ? [_ ?]. }
    assert (Hd : descend root (names ++ [name]) = Some (Tree entries)).
    { destruct Hwf as [Hnd _]. pose proof (dict_get_NoDup _ _ _ Hnd Hin) as Hg.
      destruct names as [|c names].
      - subst t. simpl. by rewrite Hg.
      - by eapply descend_snoc. }
    by rewrite Hd.
  - destruct (well_named_entry t name (Tree entries) Hwf Hin) as [Hname Hwf'].
    assert (Hnames' : Forall good_name (names ++ [name])).
    { apply Forall_app. split; [done|]. by apply Forall_singleton. }
    apply (IH (names ++ [name])); try done.
    + by apply te_path_join.
    + destruct Hwf as [Hnd _]. pose proof (dict_get_NoDup _ _ _ Hnd Hin) as Hg.
      destruct names as [|c names].
      * subst t. simpl. by rewrite Hg.
      * assert (Hd : descend root ((c :: names) ++ [name]) = Some (Tree entries))
          by (by eapply descend_snoc).
        by destruct ((c :: names) ++ [name]).
Qed.

(** X28: what [iter_at] yields, [get_at] and [get] find.  In a tree whose
    entries have names that are not empty and hold no slash, no name twice
    in a tree, every dataset the iteration yields is the dataset [get_at]
    and [get] return for its path. *)
Theorem iter_at_datasets_are_found (tree : list (string * git_object)) yielded e ds :
  well_named (Tree tree) ->
  iter_at all_versions decode_utf8 json_version tree = Some (yielded, e) ->
  In ds yielded ->
  get_at all_versions decode_utf8 json_version (instance_path ds) tree = inr ds /\
  get all_versions decode_utf8 json_version tree (instance_path ds) = inr (Some ds).
Proof.
  intros Hwf Hiter Hin. unfold iter_at in Hiter.
  apply examine_all_spec in Hiter as (H1 & _ & _).
  destruct (H1 ds Hin) as (p & t & [[= <- <-]|[]] & Hds).
  assert (Hg : get_at all_versions decode_utf8 json_version (instance_path ds) tree
               = inr ds).
  { by apply (dataset_of_get_at tree "" tree ds Hds []). }
  split; [done|]. unfold get. by rewrite Hg.
Qed.




End Versions.

Lemma iter_at_datasets_are_found_witness :
  get_at [Examples9.Dataset1] Some Examples9.no_json
    (instance_path Examples9.roads) Examples9.repository = inr Examples9.roads /\
  get [Examples9.Dataset1] Some Examples9.no_json Examples9.repository
    (instance_path Examples9.roads) = inr (Some Examples9.roads).
Proof.
  apply (iter_at_datasets_are_found [Examples9.Dataset1] Some Examples9.no_json
           Examples9.repository [Examples9.points_dataset; Examples9.roads] None
           Examples9.roads).
  - simpl. repeat split; try done.
    all: apply (bool_decide_unpack _); vm_compute; reflexivity.
  - reflexivity.
  - right. by left.
Defined.

End DatasetsFacts.

(** * Moves in [DatasetStructure.diff] *)

Module MoveMore.

Import Py Structure DiffSpec DiffProvenance DictFacts DiffFacts RenameFacts MirrorFacts
  InverseFacts DiffMore.

Lemma dict_get_dd_append {V} (k' k : string) (x : V) (d : dict (list V)) :
  dict_get k' (dd_append k x d)
  = if String.eqb k' k then Some (default [] (dict_get k d) ++ [x]) else dict_get k' d.
Proof.
  rewrite dd_append_spec. destruct (dict_get k d) as [l|] eqn:E.
  - rewrite dict_get_set. done.
  - rewrite dict_get_app. simpl.
    destruct (String.eqb_spec k' k) as [->|Hne].
    + by rewrite E.
    + by destruct (dict_get k' d).
Qed.

(** A bucket that holds an entry goes on holding it. *)
Lemma holds_dd_append {V} (d : dict (list V)) (k k0 : string) (x x0 : V) :
  holds d k x -> holds (dd_append k0 x0 d) k x.
Proof.
  intros (l & Hl & Hx). unfold holds. rewrite dict_get_dd_append.
  destruct (String.eqb_spec k k0) as [->|Hne]; [|by exists l].
  rewrite Hl. simpl. eexists. split; [done|]. apply in_or_app. by left.
Qed.

Lemma holds_dd_append_new {V} (d : dict (list V)) (k : string) (x : V) :
  holds (dd_append k x d) k x.
Proof.
  unfold holds. rewrite dict_get_dd_append, eqb_refl'.
  eexists. split; [done|]. apply in_or_app. right. by left.
Qed.

Section Dataset.

Context {Tree : Type}.
Variable diff_to_tree : Tree -> option Tree -> bool -> list DiffDelta.
Abbreviation DS := (DatasetStructure (Tree := Tree)).

(** The delta loop stages every deletion and every addition that passes the
    filter. *)
Lemma diff_delta_holds (old new other : option DS) pk_filter c d c' :
  diff_delta old new other pk_filter c d = Ok c' ->
  (forall k e, holds (candidates_del c) k e -> holds (candidates_del c') k e) /\
  (forall k f, holds (candidates_ins c) k f -> holds (candidates_ins c') k f) /\
  (forall k f, deleted_in old pk_filter [d] k f -> holds (candidates_del c') k (k, f)) /\
  (forall k f, added_in new pk_filter [d] k f -> holds (candidates_ins c') k f).
Proof.
  destruct (touches_meta d) eqn:Em.
  { rewrite diff_delta_meta by done. intros [= <-]. repeat split; try done.
    - intros k f (d' & o & p & [<-|[]] & ? & _). congruence.
    - intros k f (d' & n & q & [<-|[]] & ? & _). congruence. }
  unfold diff_delta. pose proof Em as Em'. unfold touches_meta in Em'.
  apply orb_false_iff in Em' as [-> ->].
  destruct (status d) eqn:Es; try done.
  - (* added *)
    destruct new as [n|]; simpl; [|done].
    destruct (new_file d) as [q|] eqn:Eq; simpl; [|done].
    destruct (pk_filter _) eqn:Ef; simpl; intros [= <-]; simpl.
    + repeat split; try done.
      * intros k f H. by apply holds_dd_append.
      * intros k f (d' & o & p & [<-|[]] & ? & ? & _). congruence.
      * intros k f (d' & n' & q' & [<-|[]] & _ & _ & [= <-] & Hq & -> & _ & ->).
        rewrite Eq in Hq. injection Hq as <-. apply holds_dd_append_new.
    + repeat split; try done.
      * intros k f (d' & o & p & [<-|[]] & ? & ? & _). congruence.
      * intros k f (d' & n' & q' & [<-|[]] & _ & _ & [= <-] & Hq & -> & Hf & _).
        rewrite Eq in Hq. injection Hq as <-. congruence.
  - (* deleted *)
    destruct old as [o|]; simpl; [|done].
    destruct (old_file d) as [p|] eqn:Ep; simpl; [|done].
    destruct (pk_filter _) eqn:Ef; simpl; intros [= <-]; simpl.
    + repeat split; try done.
      * intros k f H. by apply holds_dd_append.
      * intros k f (d' & o' & p' & [<-|[]] & _ & _ & [= <-] & Hp & -> & _ & ->).
        rewrite Ep in Hp. injection Hp as <-. apply holds_dd_append_new.
      * intros k f (d' & n & q & [<-|[]] & ? & ? & _). congruence.
    + repeat split; try done.
      * intros k f (d' & o' & p' & [<-|[]] & _ & _ & [= <-] & Hp & -> & Hf & _).
        rewrite Ep in Hp. injection Hp as <-. congruence.
      * intros k f (d' & n & q & [<-|[]] & ? & ? & _). congruence.
  - (* modified *)
    assert (Hnone : (forall k f, deleted_in old pk_filter [d] k f -> False) /\
                    (forall k f, added_in new pk_filter [d] k f -> False)).
    { split.
      - intros k f (d' & o & p & [<-|[]] & ? & ? & _). congruence.
      - intros k f (d' & n & q & [<-|[]] & ? & ? & _). congruence. }
    destruct Hnone as [Hd Ha].
    destruct old as [o|]; simpl; [|done].
    destruct (old_file d) as [p|] eqn:Ep; simpl; [|done].
    destruct new as [n|]; simpl; [|done].
    destruct (new_file d) as [q|] eqn:Eq; simpl; [|done].
    destruct (_ && _); simpl.
    + intros [= <-]. repeat split; try done.
      * intros k f H. destruct (Hd k f H).
      * intros k f H. destruct (Ha k f H).
    + destruct other as [t|]; simpl; [|done]. intros [= <-]. simpl.
      repeat split; try done.
      * intros k f H. destruct (Hd k f H).
      * intros k f H. destruct (Ha k f H).
Qed.

Lemma diff_deltas_holds (old new other : option DS) pk_filter ds :
  forall c c',
  diff_deltas old new other pk_filter ds c = Ok c' ->
  (forall k e, holds (candidates_del c) k e -> holds (candidates_del c') k e) /\
  (forall k f, holds (candidates_ins c) k f -> holds (candidates_ins c') k f) /\
  (forall k f, deleted_in old pk_filter ds k f -> holds (candidates_del c') k (k, f)) /\
  (forall k f, added_in new pk_filter ds k f -> holds (candidates_ins c') k f).
Proof.
  induction ds as [|d ds IH]; intros c c'; simpl.
  - intros [= <-]. repeat split; try done.
    + by intros k f (d' & o & p & [] & _).
    + by intros k f (d' & n & q & [] & _).
  - destruct (diff_delta old new other pk_filter c d) as [c1|e] eqn:E; simpl; [|done].
    intros H. apply IH in H as (I1 & I2 & I3 & I4).
    apply diff_delta_holds in E as (D1 & D2 & D3 & D4).
    split; [auto|]. split; [auto|]. split.
    + intros k f (d' & o & p & [<-|Hin] & H).
      * apply I1, D3. exists d, o, p. split; [by left|done].
      * apply I3. by exists d', o, p.
    + intros k f (d' & n & q & [<-|Hin] & H).
      * apply I2, D4. exists d, n, q. split; [by left|done].
      * apply I4. by exists d', n, q.
Qed.

(** With no key deleted twice, a deletion bucket holds one entry. *)
Lemma bucket_of_one {V} (d : dict (list (string * V))) (k : string) (l : list (string * V)) :
  tagged d -> NoDup (map fst (concat (values d))) -> In (k, l) d ->
  length l <= 1.
Proof.
  unfold tagged. intros Ht Hnd Hin.
  rewrite Forall_forall in Ht. specialize (Ht _ ltac:(by apply list_elem_of_In)).
  simpl in Ht.
  assert (Hl : NoDup (map fst l)).
  { clear Ht. induction d as [|[k1 l1] d IH]; [done|]. simpl in Hnd.
    rewrite map_app in Hnd. apply NoDup_app in Hnd as (H1 & _ & H2).
    destruct Hin as [[= -> ->]|Hin]; [done|by apply IH]. }
  destruct l as [|[k1 x1] [|[k2 x2] l]]; simpl; try lia.
  apply Forall_cons in Ht as [Ht1 Ht]. apply Forall_cons in Ht as [Ht2 _].
  simpl in *. subst. apply NoDup_cons in Hl as [Hl _]. destruct Hl. by left.
Qed.

Lemma not_in_unpair {V} (p : string -> bool) (k : string) (x : V) (d : dict (list V)) :
  NoDup (keys d) -> dict_get k d = Some [x] -> p k = true ->
  ~ In k (keys (unpair p d)).
Proof.
  induction d as [|[k1 l1] d IH]; [done|]. simpl.
  intros [Hk1 Hnd]%NoDup_cons Hg Hp. unfold keys. rewrite map_app.
  intros [Hin|Hin]%in_app_or.
  - destruct (String.eqb_spec k k1) as [->|Hne].
    + injection Hg as ->. rewrite Hp in Hin. done.
    + destruct (p k1); [destruct (tl l1)|]; simpl in Hin; [done| |];
        destruct Hin as [?|[]]; by subst.
  - destruct (String.eqb_spec k k1) as [->|Hne].
    + apply Hk1. apply list_elem_of_In.
      assert (Hsub : forall z (dd : dict (list V)), In z (keys (unpair p dd)) -> In z (keys dd)).
      { clear. intros z dd. induction dd as [|[k2 l2] dd IHd]; [done|]. simpl.
        unfold keys. rewrite map_app. intros [H|H]%in_app_or.
        - left. destruct (p k2); [destruct (tl l2)|]; simpl in H; [done| |];
            by destruct H as [?|[]].
        - right. by apply IHd. }
      by apply Hsub.
    + by apply IH.
Qed.

(** X30: a key that is deleted and added is reported as an update.  When
    the tree diff from [self] to the other dataset deletes no key twice, a
    key whose deletion and whose addition both pass the filter is not among
    the deletes of the result, and the update under that key goes from the
    deleted feature to an added feature of that key. *)
Theorem moved_key_is_updated (self o : DS) (pk_filter : string -> bool) (r : Diff)
    (k : string) (f f' : Feature) :
  let deltas := diff_to_tree (tree self) (Some (tree o)) false in
  diff diff_to_tree self (Some o) pk_filter false = Ok r ->
  NoDup (deleted_keys self deltas) ->
  deleted_in (Some self) pk_filter deltas k f ->
  added_in (Some o) pk_filter deltas k f' ->
  dict_get k (deletes r) = None /\
  exists y, added_in (Some o) pk_filter deltas k y /\
            dict_get k (updates r) = Some (f, y).
Proof.
  intros deltas. unfold diff, diff_candidates. simpl. fold deltas.
  destruct (diff_deltas (Some self) (Some o) (Some o) pk_filter deltas no_candidates)
    as [c|e] eqn:E; simpl; [|done].
  assert (Hwf : wf_candidates c)
    by (eapply diff_deltas_wf; [apply wf_no_candidates|done]).
  assert (Hs : sound_candidates (Some self) (Some o) (Some o) pk_filter deltas c).
  { eapply diff_deltas_sound; [|split; [|split]; simpl|exact E]; done. }
  pose proof (diff_deltas_holds _ _ _ _ _ _ _ E) as (_ & _ & Hd & Hi).
  pose proof (diff_deltas_deleted_keys _ _ _ _ _ _ _ E) as Hkeys. simpl in Hkeys.
  rewrite detect_renames_wf by done. simpl. intros [= <-] Hnd Hdel Hadd. simpl.
  destruct Hwf as (W1 & W2 & W3 & W4 & W5). destruct Hs as (Sd & Si & Su).
  destruct (Hd k f Hdel) as (l & Hl & Hfl).
  destruct (Hi k f' Hadd) as (li & Hli & Hfli).
  assert (Hone : l = [(k, f)]).
  { pose proof (bucket_of_one _ k l W5 (submseteq_NoDup _ _ Hkeys Hnd)
                  (dict_get_Some_In _ _ _ Hl)) as Hlen.
    destruct l as [|e1 [|e2 l]]; simpl in *; try done; [|lia].
    by destruct Hfl as [->|[]]. }
  subst l. split.
  - apply dict_get_None. intros Hin.
    assert (Hin' : In k (map fst (concat (values
              (unpair (fun k0 => dict_mem k0 (candidates_ins c)) (candidates_del c)))))).
    { apply in_map_iff in Hin as ([k0 v] & Hk0 & Hin). simpl in Hk0. subst k0.
      apply In_dict_of_pairs in Hin. apply in_map_iff. by exists (k, v). }
    apply in_map_iff in Hin' as ([k0 v] & Hk0 & Hin'). simpl in Hk0. subst k0.
    apply In_concat_values in Hin' as (h & t & Ht & Hv).
    assert (h = k) as ->.
    { pose proof (tagged_unpair (fun k0 => dict_mem k0 (candidates_ins c)) _ W5) as Ht'.
      unfold tagged in Ht'. rewrite Forall_forall in Ht'.
      specialize (Ht' _ ltac:(by apply list_elem_of_In)). simpl in Ht'.
      rewrite Forall_forall in Ht'. by specialize (Ht' _ ltac:(by apply list_elem_of_In)). }
    eapply (not_in_unpair (fun k0 => dict_mem k0 (candidates_ins c)) k (k, f));
      [exact W2|exact Hl| |].
    + unfold dict_mem. by rewrite Hli.
    + apply in_map_iff. by exists (k, t).
  - destruct li as [|y li]; [done|]. exists y. split.
    + apply (Si k (y :: li) y); [by apply dict_get_Some_In|by left].
    + rewrite dict_get_set_all.
      * by rewrite dict_get_pairs, Hl, Hli by done.
      * eapply sublist_NoDup; [exact W2|by apply keys_pairs].
Qed.

End Dataset.

Lemma moved_key_is_updated_witness :
  let self := Examples7.filed Examples7.filed_before in
  let o := Examples7.filed Examples7.filed_after in
  let deltas := Examples.ex_diff_to_tree Examples7.filed_before
                  (Some Examples7.filed_after) false in
  let f : Feature := {[ "name" := PyStr "C" ]} in
  let r := {| meta := []; inserts := []; deletes := [];
              updates := [("k", (f, {[ "name" := PyStr "D" ]}))] |} in
  dict_get "k" (deletes r) = None /\
  exists y, added_in (Some o) UNFILTERED deltas "k" y /\
            dict_get "k" (updates r) = Some (f, y).
Proof.
  apply (moved_key_is_updated Examples.ex_diff_to_tree
           (Examples7.filed Examples7.filed_before)
           (Examples7.filed Examples7.filed_after) UNFILTERED
           {| meta := []; inserts := []; deletes := [];
              updates := [("k", ({[ "name" := PyStr "C" ]}, {[ "name" := PyStr "D" ]}))] |}
           "k" {[ "name" := PyStr "C" ]} {[ "name" := PyStr "D" ]}).
  - reflexivity.
  - apply NoDup_singleton.
  - exists (Examples.both GIT_DELTA_DELETED ".sno-table/features/aa/k"),
      (Examples7.filed Examples7.filed_before),
      {| file_path := ".sno-table/features/aa/k" |}.
    repeat split; try reflexivity. by left.
  - exists (Examples.both GIT_DELTA_ADDED ".sno-table/features/bb/k"),
      (Examples7.filed Examples7.filed_after),
      {| file_path := ".sno-table/features/bb/k" |}.
    repeat split; try reflexivity. right. by left.
Defined.

End MoveMore.
